(** * A Rocq model of the stock-market trading core

    The development follows the JavaScript services of the repository:
    - [MatchingEngine]   : market-service/matching-engine.js
    - [PortfolioManager] : investor-service/portfolio-manager.js
    - [MarketService]    : market-service/server.js
    - [AnalyticsEngine]  : analytics-service/analytics-engine.js
    - [PriceManager]     : price-service/price-manager.js
    - [Volatility]       : getMostVolatileStocks of analytics-engine.js, which
                           reads the price history

    Conventions of the embedding.
    - JavaScript numbers that hold prices and amounts are rationals ([Q]):
      every finite double is a rational, and comparisons ([===], [>=], [<],
      the sign of [a - b]) of finite doubles agree with the comparisons of
      their values.  Products and quotients are exact in the model (the
      rounding of IEEE arithmetic is not modelled).
    - Quantities, counters and timestamps are integers ([Z]).
    - JavaScript objects used as dictionaries and SQL tables with a key are
      finite maps ([gmap]); tables without a key are lists of rows in
      insertion order.  The map of an object holds its own properties: a
      lookup of a name that it lacks and [Object.prototype] defines finds the
      inherited member ([inherited]).  Where a call throws on such a member,
      [addOrder_throws] and [cancelOrder_throws] say so for the engine,
      [getOrderBook] answers [None], and placeOrder takes its [catch] path.
    - [uuidv4()] and [Date.now()] are effects: the engine reads them from two
      oracles indexed by the number of draws made so far. *)

From Stdlib Require Import ZArith QArith Qround Lia Lqa.
From stdpp Require Import base option list gmap strings pretty.

Local Open Scope Z_scope.

(** ** JavaScript helpers *)

(** [order_type] reaches the services either as a number (0 = BUY, 1 = SELL)
    or as a string; the code tests both forms. *)
Inductive js_order_type : Type :=
| OTNum (n : Z)
| OTStr (s : string).

(** The property names every plain object inherits from [Object.prototype].
    Looking one of them up in an object that is used as a dictionary and has
    no property of that name itself finds a function (for [__proto__], the
    prototype object), which is truthy and has none of the fields of the
    values stored. *)
Definition Object_prototype : list string :=
  [ "constructor"; "__defineGetter__"; "__defineSetter__"; "hasOwnProperty";
    "__lookupGetter__"; "__lookupSetter__"; "isPrototypeOf"; "propertyIsEnumerable";
    "toString"; "valueOf"; "__proto__"; "toLocaleString" ].

Definition inherited (key : string) : bool := bool_decide (key ∈ Object_prototype).

(** [x < y] on JavaScript numbers. *)
Definition Qlt_bool (x y : Q) : bool := negb (Qle_bool y x).

Lemma Qlt_bool_iff (x y : Q) : Qlt_bool x y = true <-> (x < y)%Q.
Proof.
  unfold Qlt_bool. rewrite negb_true_iff. split.
  - intros H. apply Qnot_le_lt. intros Hle. apply Qle_bool_iff in Hle. congruence.
  - intros H. destruct (Qle_bool y x) eqn:Hle; [|reflexivity].
    apply Qle_bool_iff in Hle. apply Qle_not_lt in Hle. contradiction.
Qed.

Lemma inject_Z_nonzero (z : Z) : z ≠ 0 -> ~ (inject_Z z == 0)%Q.
Proof. intros Hz Heq. apply Hz. by apply (inject_Z_injective z 0). Qed.

(** A stable sort by insertion: [after x y] tells that [x] has to come after
    [y].  Each element is inserted in front of the sorted remainder and moves
    right past the elements it has to come after, so elements that need not
    be swapped keep their order. *)
Fixpoint stable_insert {A : Type} (after : A -> A -> bool) (x : A) (l : list A) : list A :=
  match l with
  | [] => [x]
  | y :: l' => if after x y then y :: stable_insert after x l' else x :: y :: l'
  end.

Fixpoint stable_sort {A : Type} (after : A -> A -> bool) (l : list A) : list A :=
  match l with
  | [] => []
  | x :: l' => stable_insert after x (stable_sort after l')
  end.

(** [Array.prototype.sort(cmp)] is a stable sort: [a] comes after [b] when
    [cmp(a, b) > 0], and elements that compare equal keep their order. *)
Definition js_sort {A : Type} (cmp : A -> A -> Q) (l : list A) : list A :=
  stable_sort (fun a b => Qlt_bool 0 (cmp a b)) l.

(** *** Facts about the stable sort *)

Section StableSort.

Context {A : Type} (after : A -> A -> bool).

Lemma stable_insert_perm (x : A) (l : list A) : stable_insert after x l ≡ₚ x :: l.
Proof.
  induction l as [|y l IH]; simpl; [reflexivity|].
  destruct (after x y); [|reflexivity].
  rewrite IH. apply Permutation_swap.
Qed.

Lemma stable_sort_perm (l : list A) : stable_sort after l ≡ₚ l.
Proof.
  induction l as [|x l IH]; simpl; [reflexivity|].
  by rewrite stable_insert_perm, IH.
Qed.

Lemma stable_sort_elem_of (x : A) (l : list A) : x ∈ stable_sort after l <-> x ∈ l.
Proof. by rewrite stable_sort_perm. Qed.

Lemma stable_sort_length (l : list A) : length (stable_sort after l) = length l.
Proof. by rewrite stable_sort_perm. Qed.

(** The order the sort works with is total and transitive. *)
Hypothesis after_asym : forall x y, after x y = true -> after y x = false.
Hypothesis after_trans :
  forall x y z, after x y = false -> after y z = false -> after x z = false.

(** [l] is in order: no element has to come after a later one. *)
Definition in_order (l : list A) : Prop :=
  forall i j x y, (i < j)%nat -> l !! i = Some x -> l !! j = Some y -> after x y = false.

Lemma in_order_cons (x : A) (l : list A) :
  in_order (x :: l) <-> Forall (fun y => after x y = false) l /\ in_order l.
Proof.
  split.
  - intros H. split.
    + apply Forall_lookup. intros i y Hy. apply (H 0%nat (S i)); [lia|done|done].
    + intros i j a b Hij Ha Hb. apply (H (S i) (S j)); [lia|done|done].
  - intros [Hx Hl] i j a b Hij Ha Hb.
    destruct j as [|j]; [lia|]. simpl in Hb. destruct i as [|i]; simpl in Ha.
    + inversion Ha; subst. eapply Forall_lookup in Hx; eauto.
    + apply (Hl i j); [lia|done|done].
Qed.

Lemma stable_insert_in_order (x : A) (l : list A) :
  in_order l -> in_order (stable_insert after x l).
Proof.
  induction l as [|y l IH]; intros Hl; simpl.
  - apply in_order_cons. split; [constructor|]. intros i j a b _ Ha. by destruct i.
  - apply in_order_cons in Hl as [Hy Hl].
    destruct (after x y) eqn:Hxy.
    + apply in_order_cons. split; [|by apply IH].
      rewrite stable_insert_perm. constructor; [by apply after_asym | exact Hy].
    + apply in_order_cons. split.
      * constructor; [exact Hxy|].
        eapply Forall_impl; [exact Hy|]. intros z Hz. by apply (after_trans x y z).
      * apply in_order_cons. by split.
Qed.

Lemma stable_sort_in_order (l : list A) : in_order (stable_sort after l).
Proof.
  induction l as [|x l IH]; simpl.
  - intros i j a b _ Ha. by destruct i.
  - by apply stable_insert_in_order.
Qed.

(** Sorting a list that is in order with one more element pushed at its end
    (what [push] followed by [sort] does to a sorted array): the new element
    goes behind every element it need not precede and ahead of those that
    have to come after it, and the others keep their places. *)
Lemma stable_sort_push (l : list A) (o : A) :
  in_order l ->
  exists l1 l2,
    l = l1 ++ l2
    /\ stable_sort after (l ++ [o]) = l1 ++ o :: l2
    /\ Forall (fun x => after x o = false) l1
    /\ Forall (fun x => after x o = true) l2.
Proof.
  induction l as [|x l IH]; intros Hl.
  - exists [], []. simpl. repeat split; constructor.
  - apply in_order_cons in Hl as [Hx Hl].
    destruct (IH Hl) as (l1 & l2 & -> & Hsort & H1 & H2).
    simpl. rewrite Hsort. destruct l1 as [|y l1]; simpl.
    + destruct (after x o) eqn:Hxo.
      * exists [], (x :: l2). simpl. split; [reflexivity|]. split.
        -- destruct l2 as [|z l2]; [reflexivity|]. simpl.
           apply Forall_cons in Hx as [-> _]. reflexivity.
        -- split; constructor; assumption.
      * exists [x], l2. simpl. repeat split; try assumption. by constructor.
    + apply Forall_cons in Hx as [Hxy Hx]. rewrite Hxy.
      exists (x :: y :: l1), l2. simpl. repeat split; try assumption.
      constructor; [|assumption].
      apply Forall_cons in H1 as [Hyo _]. by apply (after_trans x y o).
Qed.

End StableSort.

(** ** The matching engine (matching-engine.js) *)
Module MatchingEngine.

Inductive order_status : Type :=
| PENDING | PARTIALLY_FILLED | FILLED | CANCELED | REJECTED.

Record order : Type := mkOrder {
  order_id : string;
  investor_id : string;
  stock_symbol : string;
  order_type : js_order_type;
  quantity : Z;
  price : Q;
  filled_quantity : Z;
  status : order_status;
  created_at : Z;
  updated_at : Z
}.

Record execution : Type := mkExecution {
  execution_id : string;
  buy_order_id : string;
  sell_order_id : string;
  ex_stock_symbol : string;
  ex_quantity : Z;
  ex_price : Q;
  buyer_id : string;
  seller_id : string;
  ex_timestamp : Z
}.

Inductive event_kind : Type :=
| ORDER_PLACED | ORDER_EXECUTED | ORDER_CANCELED.

Record event : Type := mkEvent {
  event_type : event_kind;
  ev_order_id : string;
  ev_stock_symbol : string;
  ev_order_type : js_order_type;
  ev_quantity : Z;
  ev_price : Q;
  ev_investor_id : string;
  ev_timestamp : Z
}.

(** One order book: [bids] and [asks] are the two arrays of the book. *)
Record book : Type := mkBook {
  bids : list order;
  asks : list order
}.

(** The engine object.  [events] is the sequence of events handed to
    [emitEvent], in order; [draws] counts the oracle reads made so far. *)
Record engine : Type := mkEngine {
  orderBooks : gmap string book;
  orders : gmap string order;
  events : list event;
  draws : nat
}.

Definition init : engine := mkEngine ∅ ∅ [] 0.

Definition set_filled (o : order) (f : Z) : order :=
  mkOrder (order_id o) (investor_id o) (stock_symbol o) (order_type o)
          (quantity o) (price o) f (status o) (created_at o) (updated_at o).

Definition set_status (o : order) (st : order_status) : order :=
  mkOrder (order_id o) (investor_id o) (stock_symbol o) (order_type o)
          (quantity o) (price o) (filled_quantity o) st (created_at o) (updated_at o).

(** [order_type === 'BUY' || order_type === 0] *)
Definition is_buy (t : js_order_type) : bool :=
  match t with
  | OTStr s => String.eqb s "BUY"
  | OTNum n => Z.eqb n 0
  end.

(** [price === 0]: a market order. *)
Definition is_market (o : order) : bool := Qeq_bool (price o) 0.

Definition emitEvent (ev : event) (s : engine) : engine :=
  mkEngine (orderBooks s) (orders s) (events s ++ [ev]) (draws s).

(** The answer of getOrderStatus. *)
Record order_state : Type := mkOrderState {
  os_order_id : string;
  os_status : order_status;
  os_filled_quantity : Z;
  remaining_quantity : Z;
  average_price : Q
}.

(** getOrderStatus(orderId); [None] is the [null] of an unknown order. *)
Definition getOrderStatus (s : engine) (orderId : string) : option order_state :=
  match orders s !! orderId with
  | None => None
  | Some o =>
    Some (mkOrderState orderId (status o) (filled_quantity o)
                       (quantity o - filled_quantity o) (price o))
  end.

Definition status_eqb (a b : order_status) : bool :=
  match a, b with
  | PENDING, PENDING | PARTIALLY_FILLED, PARTIALLY_FILLED | FILLED, FILLED
  | CANCELED, CANCELED | REJECTED, REJECTED => true
  | _, _ => false
  end.

Section Engine.

(** The two effect oracles: the [n]-th draw of [uuidv4()] and of [Date.now()]. *)
Variable uuidv4 : nat -> string.
Variable Date_now : nat -> Z.

(** [bid.price === 0 || ask.price === 0 || bid.price >= ask.price] *)
Definition canMatch (bid ask : order) : bool :=
  is_market bid || is_market ask || Qle_bool (price ask) (price bid).

(** Lines 97-105 of matchOrders. *)
Definition executionPrice (bid ask : order) : Q :=
  if is_market bid then price ask
  else if is_market ask then price bid
  else price ask.

(** [Math.min(bid.quantity - bid.filled_quantity, ask.quantity - ask.filled_quantity)] *)
Definition executionQuantity (bid ask : order) : Z :=
  Z.min (quantity bid - filled_quantity bid) (quantity ask - filled_quantity ask).

(** The fill of one side: the counter is incremented; a filled order is
    marked FILLED and shifted out of its array, any other is marked
    PARTIALLY_FILLED and stays at the head.  Returns the mutated order and
    the new array. *)
Definition fill (o : order) (rest : list order) (q : Z) : order * list order :=
  let o1 := set_filled o (filled_quantity o + q) in
  if Z.leb (quantity o1) (filled_quantity o1)
  then (set_status o1 FILLED, rest)
  else (set_status o1 PARTIALLY_FILLED, set_status o1 PARTIALLY_FILLED :: rest).

(** One iteration of the [while] loop of matchOrders on the book [bk] of
    [stockSymbol]: [None] when the loop stops (a side is empty, or the tops
    do not match), otherwise the execution record, the book and the engine
    after the iteration.  The arrays of the book and [this.orders] hold the
    same order objects ([addOrder] stores the object under its [order_id]
    before pushing it), so the mutation of [bid] and [ask] is written back
    to [orders] under their ids, which placeOrder draws from uuidv4, one per
    order. *)
Definition match_iter (stockSymbol : string) (bk : book) (s : engine)
  : option (execution * book * engine) :=
  match bids bk, asks bk with
  | bid :: bids', ask :: asks' =>
    if canMatch bid ask then
      let executionPrice := executionPrice bid ask in
      let executionQuantity := executionQuantity bid ask in
      let execution :=
        mkExecution (uuidv4 (draws s)) (order_id bid) (order_id ask) stockSymbol
                    executionQuantity executionPrice
                    (investor_id bid) (investor_id ask) (Date_now (S (draws s))) in
      let '(bid1, newbids) := fill bid bids' executionQuantity in
      let '(ask1, newasks) := fill ask asks' executionQuantity in
      let ev_bid :=
        mkEvent ORDER_EXECUTED (order_id bid) stockSymbol (OTStr "BUY")
                executionQuantity executionPrice (investor_id bid)
                (ex_timestamp execution) in
      let ev_ask :=
        mkEvent ORDER_EXECUTED (order_id ask) stockSymbol (OTStr "SELL")
                executionQuantity executionPrice (investor_id ask)
                (ex_timestamp execution) in
      Some (execution,
            mkBook newbids newasks,
            mkEngine (orderBooks s)
                     (<[order_id ask1 := ask1]> (<[order_id bid1 := bid1]> (orders s)))
                     (events s ++ [ev_bid; ev_ask])
                     (S (S (draws s))))
    else None
  | _, _ => None
  end.

(** The [while] loop, with [fuel] bounding the number of iterations run;
    [None] means the fuel ran out before the loop condition failed. *)
Fixpoint matchLoop (fuel : nat) (stockSymbol : string) (bk : book) (s : engine)
         (executions : list execution) : option (list execution * book * engine) :=
  match match_iter stockSymbol bk s with
  | None => Some (executions, bk, s)
  | Some (execution, bk', s') =>
    match fuel with
    | O => None
    | S fuel' => matchLoop fuel' stockSymbol bk' s' (executions ++ [execution])
    end
  end.

Definition book_size (bk : book) : nat := length (bids bk) + length (asks bk).

(** matchOrders(stockSymbol).  [book] is a reference to
    [this.orderBooks[stockSymbol]], mutated in place by the loop: the book
    the loop ends with is stored back under the symbol.  The loop is run with
    one unit of fuel per order of the book. *)
Definition matchOrders (stockSymbol : string) (s : engine)
  : option (list execution * engine) :=
  match orderBooks s !! stockSymbol with
  | None => Some ([], s)
  | Some bk =>
    if bool_decide (length (bids bk) = 0%nat) || bool_decide (length (asks bk) = 0%nat)
    then Some ([], s)
    else
      match matchLoop (book_size bk) stockSymbol bk s [] with
      | Some (executions, bk', s') =>
        Some (executions,
              mkEngine (<[stockSymbol := bk']> (orderBooks s'))
                       (orders s') (events s') (draws s'))
      | None => None
      end
  end.

(** addOrder(order), when it returns.  (On a symbol that has no book and is
    a name every object inherits the call throws instead: see
    [addOrder_throws] below.) *)
Definition addOrder (o : order) (s : engine) : option (list execution * engine) :=
  let stock_symbol := stock_symbol o in
  let bk := default (mkBook [] []) (orderBooks s !! stock_symbol) in
  let bk' :=
    if is_buy (order_type o)
    then mkBook (js_sort (fun a b => price b - price a)%Q (bids bk ++ [o])) (asks bk)
    else mkBook (bids bk) (js_sort (fun a b => price a - price b)%Q (asks bk ++ [o])) in
  let placed :=
    mkEvent ORDER_PLACED (order_id o) stock_symbol (order_type o)
            (quantity o) (price o) (investor_id o) (Date_now (draws s)) in
  matchOrders stock_symbol
    (emitEvent placed
       (mkEngine (<[stock_symbol := bk']> (orderBooks s))
                 (<[order_id o := o]> (orders s))
                 (events s) (S (draws s)))).

(** addOrder(order) throws a TypeError instead of returning when the symbol
    of the order has no book and is a name every object inherits:
    [this.orderBooks[stock_symbol]] is then truthy, no book is created, the
    order is stored in [this.orders], and [.bids.push] (or [.asks.push]) is
    called on a value that has no [bids] and no [asks].  Nothing is published
    and no book changes. *)
Definition addOrder_throws (o : order) (s : engine) : bool :=
  match orderBooks s !! stock_symbol o with
  | None => inherited (stock_symbol o)
  | Some _ => false
  end.

(** The engine after addOrder has thrown. *)
Definition addOrder_thrown (o : order) (s : engine) : engine :=
  mkEngine (orderBooks s) (<[order_id o := o]> (orders s)) (events s) (draws s).

(** cancelOrder(orderId, investorId), when it returns: the answer
    ([success], [message]) and the engine after the call.  An id that is not
    stored but is a name every object inherits finds a value without an
    [investor_id], which no investor may cancel.  (For an order that can be
    canceled but whose symbol has no book and is such a name the call throws
    instead: see [cancelOrder_throws] below.) *)
Definition cancelOrder (orderId investorId : string) (s : engine)
  : bool * string * engine :=
  match orders s !! orderId with
  | None =>
    if inherited orderId then (false, "Unauthorized to cancel this order", s)
    else (false, "Order not found", s)
  | Some o =>
    if negb (String.eqb (investor_id o) investorId)
    then (false, "Unauthorized to cancel this order", s)
    else if status_eqb (status o) FILLED then (false, "Order already FILLED", s)
    else if status_eqb (status o) CANCELED then (false, "Order already CANCELED", s)
    else
      let keep := filter (fun o' => order_id o' ≠ orderId) in
      let books :=
        match orderBooks s !! stock_symbol o with
        | None => orderBooks s
        | Some bk =>
          if is_buy (order_type o)
          then <[stock_symbol o := mkBook (keep (bids bk)) (asks bk)]> (orderBooks s)
          else <[stock_symbol o := mkBook (bids bk) (keep (asks bk))]> (orderBooks s)
        end in
      let canceled :=
        mkEvent ORDER_CANCELED orderId (stock_symbol o) (order_type o)
                (quantity o - filled_quantity o) (price o) (investor_id o)
                (Date_now (draws s)) in
      (true, "Order canceled successfully",
       emitEvent canceled
         (mkEngine books (<[orderId := set_status o CANCELED]> (orders s))
                   (events s) (S (draws s))))
  end.

(** cancelOrder(orderId, investorId) throws a TypeError instead of returning
    when the order passes the three tests and its symbol has no book and is a
    name every object inherits (an order left behind by an addOrder that
    threw): [book] is then truthy and [book.bids.filter] (or
    [book.asks.filter]) is called on a value that has no [bids] and no
    [asks].  Nothing has changed by then. *)
Definition cancelOrder_throws (orderId investorId : string) (s : engine) : bool :=
  match orders s !! orderId with
  | None => false
  | Some o =>
    String.eqb (investor_id o) investorId
    && negb (status_eqb (status o) FILLED) && negb (status_eqb (status o) CANCELED)
    && match orderBooks s !! stock_symbol o with
       | None => inherited (stock_symbol o)
       | Some _ => false
       end
  end.

(** *** Structure of one iteration *)

Lemma fill_fst (o : order) (rest : list order) (q : Z) :
  order_id (fill o rest q).1 = order_id o
  /\ price (fill o rest q).1 = price o
  /\ quantity (fill o rest q).1 = quantity o
  /\ filled_quantity (fill o rest q).1 = filled_quantity o + q.
Proof. unfold fill; simpl. destruct (Z.leb _ _); simpl; auto. Qed.

Lemma fill_removed (o : order) (rest : list order) (q : Z) :
  quantity o - filled_quantity o <= q -> (fill o rest q).2 = rest.
Proof.
  intros Hq. unfold fill; simpl.
  destruct (Z.leb_spec (quantity o) (filled_quantity o + q)); simpl; [reflexivity | lia].
Qed.

Lemma fill_kept (o : order) (rest : list order) (q : Z) :
  q < quantity o - filled_quantity o ->
  (fill o rest q).2 = (fill o rest q).1 :: rest
  /\ status (fill o rest q).1 = PARTIALLY_FILLED.
Proof.
  intros Hq. unfold fill; simpl.
  destruct (Z.leb_spec (quantity o) (filled_quantity o + q)); simpl; [lia | auto].
Qed.

Lemma fill_length (o : order) (rest : list order) (q : Z) :
  (length (fill o rest q).2 <= S (length rest))%nat.
Proof. unfold fill; simpl. destruct (Z.leb _ _); simpl; lia. Qed.

(** What a successful iteration is made of. *)
Lemma match_iter_Some (sym : string) (bk bk' : book) (s s' : engine) (e : execution) :
  match_iter sym bk s = Some (e, bk', s') ->
  exists bid bids' ask asks',
    bids bk = bid :: bids' /\ asks bk = ask :: asks'
    /\ canMatch bid ask = true
    /\ e = mkExecution (uuidv4 (draws s)) (order_id bid) (order_id ask) sym
                       (executionQuantity bid ask) (executionPrice bid ask)
                       (investor_id bid) (investor_id ask) (Date_now (S (draws s)))
    /\ bk' = mkBook (fill bid bids' (executionQuantity bid ask)).2
                    (fill ask asks' (executionQuantity bid ask)).2
    /\ orderBooks s' = orderBooks s.
Proof.
  unfold match_iter. intros H.
  destruct (bids bk) as [|bid bids'] eqn:Hb; [discriminate|].
  destruct (asks bk) as [|ask asks'] eqn:Ha; [discriminate|].
  destruct (canMatch bid ask) eqn:Hc; [|discriminate].
  destruct (fill bid bids' (executionQuantity bid ask)) as [bid1 nb] eqn:Hfb.
  destruct (fill ask asks' (executionQuantity bid ask)) as [ask1 na] eqn:Hfa.
  inversion H; subst; clear H.
  exists bid, bids', ask, asks'. simpl. rewrite Hfb, Hfa. simpl. auto 10.
Qed.

(** When the loop stops, a side is empty or the tops do not match. *)
Lemma match_iter_None (sym : string) (bk : book) (s : engine) :
  match_iter sym bk s = None ->
  forall bid ask, head (bids bk) = Some bid -> head (asks bk) = Some ask ->
                  canMatch bid ask = false.
Proof.
  unfold match_iter. intros H bid ask Hb Ha.
  destruct (bids bk) as [|bid0 bids']; [discriminate|].
  destruct (asks bk) as [|ask0 asks']; [discriminate|].
  simpl in Hb, Ha. inversion Hb; inversion Ha; subst.
  destruct (canMatch bid ask); [|reflexivity].
  destruct (fill bid _ _), (fill ask _ _). discriminate.
Qed.

(** Every iteration takes at least one order out of the book. *)
Lemma match_iter_removes (sym : string) (bk bk' : book) (s s' : engine) (e : execution) :
  match_iter sym bk s = Some (e, bk', s') -> (book_size bk' < book_size bk)%nat.
Proof.
  intros H. apply match_iter_Some in H.
  destruct H as (bid & bids' & ask & asks' & Hb & Ha & _ & _ & -> & _).
  unfold book_size. rewrite Hb, Ha. simpl.
  unfold executionQuantity.
  destruct (Z.min_spec (quantity bid - filled_quantity bid)
                       (quantity ask - filled_quantity ask)) as [[Hlt ->]|[Hle ->]].
  - rewrite (fill_removed bid) by lia.
    pose proof (fill_length ask asks' (quantity bid - filled_quantity bid)). lia.
  - rewrite (fill_removed ask) by lia.
    pose proof (fill_length bid bids' (quantity ask - filled_quantity ask)). lia.
Qed.

(** *** The loop *)

(** With one unit of fuel per order the loop runs to its end; each
    execution it appends accounts for one order removed from the book. *)
Lemma matchLoop_enough_fuel (fuel : nat) (sym : string) :
  forall (bk : book) (s : engine) (acc : list execution),
    (book_size bk <= fuel)%nat ->
    exists execs bk' s',
      matchLoop fuel sym bk s acc = Some (acc ++ execs, bk', s')
      /\ (length execs + book_size bk' <= book_size bk)%nat
      /\ match_iter sym bk' s' = None
      /\ orderBooks s' = orderBooks s.
Proof.
  induction fuel as [|fuel IH]; intros bk s acc Hfuel; simpl.
  - destruct (match_iter sym bk s) as [[[e bk1] s1]|] eqn:Hit.
    + apply match_iter_removes in Hit. lia.
    + exists [], bk, s. rewrite app_nil_r. simpl. auto.
  - destruct (match_iter sym bk s) as [[[e bk1] s1]|] eqn:Hit.
    + pose proof (match_iter_removes _ _ _ _ _ _ Hit) as Hlt.
      pose proof (match_iter_Some _ _ _ _ _ _ Hit) as (? & ? & ? & ? & _ & _ & _ & _ & _ & Hob).
      destruct (IH bk1 s1 (acc ++ [e])) as (execs & bk' & s' & Hrun & Hlen & Hstop & Hob');
        [lia|].
      exists (e :: execs), bk', s'. rewrite Hrun, <- app_assoc. simpl.
      repeat split; [lia | assumption | congruence].
    + exists [], bk, s. rewrite app_nil_r. simpl. auto.
Qed.

(** *** Books that do not cross *)

Lemma canMatch_false (bid ask : order) :
  canMatch bid ask = false ->
  ~ (price bid == 0)%Q /\ ~ (price ask == 0)%Q /\ (price bid < price ask)%Q.
Proof.
  unfold canMatch, is_market. intros H.
  apply orb_false_iff in H as [H Hle]. apply orb_false_iff in H as [Hb Ha].
  repeat split.
  - apply Qeq_bool_neq, Hb.
  - apply Qeq_bool_neq, Ha.
  - apply Qnot_le_lt. intros Hc. apply Qle_bool_iff in Hc. congruence.
Qed.

(** The tops of the book of [sym] do not match (the loop of matchOrders
    would stop at once). *)
Definition quiescent (sym : string) (s : engine) : Prop :=
  forall bk bid ask,
    orderBooks s !! sym = Some bk ->
    head (bids bk) = Some bid -> head (asks bk) = Some ask ->
    canMatch bid ask = false.

(** Book integrity for one symbol: two limit orders at the tops of the book
    leave a positive spread. *)
Definition book_integrity (sym : string) (s : engine) : Prop :=
  forall bk bid ask,
    orderBooks s !! sym = Some bk ->
    head (bids bk) = Some bid -> head (asks bk) = Some ask ->
    ~ (price bid == 0)%Q -> ~ (price ask == 0)%Q ->
    (price bid < price ask)%Q.

Lemma quiescent_integrity (sym : string) (s : engine) :
  quiescent sym s -> book_integrity sym s.
Proof.
  intros Hq bk bid ask Hbk Hb Ha _ _.
  apply (canMatch_false bid ask). eapply Hq; eauto.
Qed.

(** matchOrders always returns, leaves the book of its symbol quiescent and
    does not touch the other books. *)
Lemma matchOrders_quiescent (sym : string) (s : engine) :
  exists execs s',
    matchOrders sym s = Some (execs, s')
    /\ quiescent sym s'
    /\ (forall sym', sym' ≠ sym -> orderBooks s' !! sym' = orderBooks s !! sym').
Proof.
  unfold matchOrders.
  destruct (orderBooks s !! sym) as [bk|] eqn:Hbk.
  - destruct (bool_decide (length (bids bk) = 0%nat)
              || bool_decide (length (asks bk) = 0%nat)) eqn:Hempty.
    + exists [], s. split; [reflexivity|]. split; [|auto].
      intros bk0 bid ask Hbk0 Hb Ha. rewrite Hbk in Hbk0. inversion Hbk0; subst bk0.
      apply orb_true_iff in Hempty as [He|He]; apply bool_decide_eq_true in He.
      * destruct (bids bk); simpl in *; congruence.
      * destruct (asks bk); simpl in *; congruence.
    + destruct (matchLoop_enough_fuel (book_size bk) sym bk s [])
        as (execs & bk' & s' & Hrun & _ & Hstop & Hob); [lia|].
      rewrite Hrun. simpl. eexists _, _. split; [reflexivity|]. split.
      * intros bk0 bid ask Hbk0 Hb Ha. simpl in Hbk0.
        rewrite lookup_insert_eq in Hbk0. inversion Hbk0; subst bk0.
        eapply match_iter_None; eauto.
      * intros sym' Hne. simpl. rewrite lookup_insert_ne by congruence.
        by rewrite Hob.
  - exists [], s. split; [reflexivity|]. split; [|auto].
    intros bk0 bid ask Hbk0. congruence.
Qed.

Lemma addOrder_quiescent (o : order) (s : engine) :
  exists execs s',
    addOrder o s = Some (execs, s')
    /\ quiescent (stock_symbol o) s'
    /\ (forall sym', sym' ≠ stock_symbol o ->
                     orderBooks s' !! sym' = orderBooks s !! sym').
Proof.
  unfold addOrder.
  match goal with |- context [matchOrders ?sym ?s1] =>
    destruct (matchOrders_quiescent sym s1) as (execs & s' & Hrun & Hq & Hframe)
  end.
  exists execs, s'. split; [exact Hrun|]. split; [exact Hq|].
  intros sym' Hne. rewrite Hframe by exact Hne. simpl.
  by rewrite lookup_insert_ne.
Qed.

(** A run of admissions, from the first order of the list to the last. *)
Fixpoint admit_all (os : list order) (s : engine) : option engine :=
  match os with
  | [] => Some s
  | o :: os' =>
    match addOrder o s with
    | Some (_, s') => admit_all os' s'
    | None => None
    end
  end.

(** Along any run of admissions every book keeps its integrity (the books
    of the empty engine have it: [init_integrity]). *)
Lemma admit_all_integrity (os : list order) :
  forall s, (forall sym, book_integrity sym s) ->
            exists s', admit_all os s = Some s' /\ forall sym, book_integrity sym s'.
Proof.
  induction os as [|o os IH]; intros s Hs; simpl.
  - eauto.
  - destruct (addOrder_quiescent o s) as (execs & s1 & -> & Hq & Hframe).
    apply IH. intros sym. destruct (decide (sym = stock_symbol o)) as [->|Hne].
    + by apply quiescent_integrity.
    + intros bk bid ask Hbk Hb Ha Hnb Hna. rewrite Hframe in Hbk by exact Hne.
      exact (Hs sym bk bid ask Hbk Hb Ha Hnb Hna).
Qed.

Lemma init_integrity (sym : string) : book_integrity sym init.
Proof. intros bk bid ask Hbk. simpl in Hbk. by rewrite lookup_empty in Hbk. Qed.

(** *** Books in price order *)

(** [bids] in descending and [asks] in ascending order of the price field. *)
Definition descending (l : list order) : Prop :=
  forall i j x y, (i < j)%nat -> l !! i = Some x -> l !! j = Some y ->
                  (price y <= price x)%Q.

Definition ascending (l : list order) : Prop :=
  forall i j x y, (i < j)%nat -> l !! i = Some x -> l !! j = Some y ->
                  (price x <= price y)%Q.

Definition sorted_book (bk : book) : Prop :=
  descending (bids bk) /\ ascending (asks bk).

Definition bid_after (a b : order) : bool := Qlt_bool 0 (price b - price a).
Definition ask_after (a b : order) : bool := Qlt_bool 0 (price a - price b).

Lemma Qlt_bool_false (x y : Q) : Qlt_bool x y = false <-> (y <= x)%Q.
Proof.
  unfold Qlt_bool. rewrite negb_false_iff. apply Qle_bool_iff.
Qed.

Lemma bid_after_order :
  (forall x y, bid_after x y = true -> bid_after y x = false)
  /\ (forall x y z, bid_after x y = false -> bid_after y z = false ->
                    bid_after x z = false).
Proof.
  unfold bid_after. split.
  - intros x y H. apply Qlt_bool_iff in H. apply Qlt_bool_false. lra.
  - intros x y z H1 H2. apply Qlt_bool_false in H1, H2. apply Qlt_bool_false. lra.
Qed.

Lemma ask_after_order :
  (forall x y, ask_after x y = true -> ask_after y x = false)
  /\ (forall x y z, ask_after x y = false -> ask_after y z = false ->
                    ask_after x z = false).
Proof.
  unfold ask_after. split.
  - intros x y H. apply Qlt_bool_iff in H. apply Qlt_bool_false. lra.
  - intros x y z H1 H2. apply Qlt_bool_false in H1, H2. apply Qlt_bool_false. lra.
Qed.

Lemma descending_in_order (l : list order) : descending l <-> in_order bid_after l.
Proof.
  unfold descending, in_order, bid_after.
  split; intros H i j x y Hij Hx Hy; specialize (H i j x y Hij Hx Hy).
  - apply Qlt_bool_false. lra.
  - apply Qlt_bool_false in H. lra.
Qed.

Lemma ascending_in_order (l : list order) : ascending l <-> in_order ask_after l.
Proof.
  unfold ascending, in_order, ask_after.
  split; intros H i j x y Hij Hx Hy; specialize (H i j x y Hij Hx Hy).
  - apply Qlt_bool_false. lra.
  - apply Qlt_bool_false in H. lra.
Qed.

(** The two sorts of addOrder put their array in price order. *)
Lemma sort_bids_descending (l : list order) :
  descending (js_sort (fun a b => price b - price a)%Q l).
Proof.
  apply descending_in_order. destruct bid_after_order as [Hasym Htrans].
  exact (stable_sort_in_order bid_after Hasym Htrans l).
Qed.

Lemma sort_asks_ascending (l : list order) :
  ascending (js_sort (fun a b => price a - price b)%Q l).
Proof.
  apply ascending_in_order. destruct ask_after_order as [Hasym Htrans].
  exact (stable_sort_in_order ask_after Hasym Htrans l).
Qed.

(** Time priority: a bid admitted to bids in price order goes behind the
    resting bids of its price or a higher one, and ahead of the resting bids
    of a lower price; the resting bids keep their order.  A market bid has
    price 0 and is placed by that price. *)
Lemma sort_bids_push (l : list order) (o : order) :
  descending l ->
  exists l1 l2,
    l = l1 ++ l2
    /\ js_sort (fun a b => price b - price a)%Q (l ++ [o]) = l1 ++ o :: l2
    /\ Forall (fun x => (price o <= price x)%Q) l1
    /\ Forall (fun x => (price x < price o)%Q) l2.
Proof.
  intros Hl. apply descending_in_order in Hl.
  destruct bid_after_order as [Hasym Htrans].
  destruct (stable_sort_push bid_after Htrans l o Hl)
    as (l1 & l2 & Heq & Hsort & H1 & H2).
  exists l1, l2. split; [exact Heq|]. split; [exact Hsort|]. split.
  - eapply Forall_impl; [exact H1|]. intros x Hx. unfold bid_after in Hx.
    apply Qlt_bool_false in Hx. lra.
  - eapply Forall_impl; [exact H2|]. intros x Hx. unfold bid_after in Hx.
    apply Qlt_bool_iff in Hx. lra.
Qed.

(** The same for an ask: behind the resting asks of its price or a lower
    one, ahead of those of a higher price. *)
Lemma sort_asks_push (l : list order) (o : order) :
  ascending l ->
  exists l1 l2,
    l = l1 ++ l2
    /\ js_sort (fun a b => price a - price b)%Q (l ++ [o]) = l1 ++ o :: l2
    /\ Forall (fun x => (price x <= price o)%Q) l1
    /\ Forall (fun x => (price o < price x)%Q) l2.
Proof.
  intros Hl. apply ascending_in_order in Hl.
  destruct ask_after_order as [Hasym Htrans].
  destruct (stable_sort_push ask_after Htrans l o Hl)
    as (l1 & l2 & Heq & Hsort & H1 & H2).
  exists l1, l2. split; [exact Heq|]. split; [exact Hsort|]. split.
  - eapply Forall_impl; [exact H1|]. intros x Hx. unfold ask_after in Hx.
    apply Qlt_bool_false in Hx. lra.
  - eapply Forall_impl; [exact H2|]. intros x Hx. unfold ask_after in Hx.
    apply Qlt_bool_iff in Hx. lra.
Qed.

(** Where a market order lands among resting limit orders (of positive
    price): a market ask goes to the top of the asks, a market bid to the
    bottom of the bids. *)
Lemma market_ask_goes_first (l : list order) (o : order) :
  ascending l -> (price o == 0)%Q -> Forall (fun x => (0 < price x)%Q) l ->
  js_sort (fun a b => price a - price b)%Q (l ++ [o]) = o :: l.
Proof.
  intros Hl Ho Hpos.
  destruct (sort_asks_push l o Hl) as (l1 & l2 & -> & -> & H1 & _).
  destruct l1 as [|x l1]; [reflexivity|].
  apply Forall_cons in H1 as [Hx _]. apply Forall_app in Hpos as [Hpos _].
  apply Forall_cons in Hpos as [Hx' _]. rewrite Ho in Hx. lra.
Qed.

Lemma market_bid_goes_last (l : list order) (o : order) :
  descending l -> (price o == 0)%Q -> Forall (fun x => (0 < price x)%Q) l ->
  js_sort (fun a b => price b - price a)%Q (l ++ [o]) = l ++ [o].
Proof.
  intros Hl Ho Hpos.
  destruct (sort_bids_push l o Hl) as (l1 & l2 & -> & -> & _ & H2).
  destruct l2 as [|x l2]; [by rewrite app_nil_r|].
  apply Forall_cons in H2 as [Hx _]. apply Forall_app in Hpos as [_ Hpos].
  apply Forall_cons in Hpos as [Hx' _]. rewrite Ho in Hx. lra.
Qed.

Lemma in_order_same_head (after : order -> order -> bool) (x x' : order)
      (l : list order) :
  (forall y, after x' y = after x y) ->
  in_order after (x :: l) -> in_order after (x' :: l).
Proof.
  intros Hsame H. apply in_order_cons in H as [Hx Hl]. apply in_order_cons.
  split; [|exact Hl]. eapply Forall_impl; [exact Hx|].
  intros y Hy. by rewrite Hsame.
Qed.

Lemma in_order_tail (after : order -> order -> bool) (x : order) (l : list order) :
  in_order after (x :: l) -> in_order after l.
Proof. intros H. by apply in_order_cons in H as [_ Hl]. Qed.

(** A fill keeps its array in order: the head goes, or stays with its price. *)
Lemma fill_in_order (after : order -> order -> bool) (o : order)
      (rest : list order) (q : Z) :
  (forall x x' y, price x' = price x -> after x' y = after x y) ->
  in_order after (o :: rest) -> in_order after (fill o rest q).2.
Proof.
  intros Hprice H.
  destruct (Z.le_gt_cases (quantity o - filled_quantity o) q) as [Hle|Hgt].
  - rewrite fill_removed by exact Hle. by apply in_order_tail in H.
  - destruct (fill_kept o rest q) as [-> _]; [lia|].
    eapply in_order_same_head; [|exact H].
    intros y. apply Hprice. apply fill_fst.
Qed.

Lemma match_iter_sorted (sym : string) (bk bk' : book) (s s' : engine) (e : execution) :
  sorted_book bk -> match_iter sym bk s = Some (e, bk', s') -> sorted_book bk'.
Proof.
  intros [Hb Ha] H. apply match_iter_Some in H.
  destruct H as (bid & bids' & ask & asks' & Hbids & Hasks & _ & _ & -> & _).
  rewrite Hbids in Hb. rewrite Hasks in Ha. split; simpl.
  - apply descending_in_order. apply fill_in_order.
    + intros x x' y Hp. unfold bid_after. by rewrite Hp.
    + by apply descending_in_order.
  - apply ascending_in_order. apply fill_in_order.
    + intros x x' y Hp. unfold ask_after. by rewrite Hp.
    + by apply ascending_in_order.
Qed.

(** A property of the book that every iteration keeps is kept by the loop. *)
Lemma matchLoop_invariant (P : book -> Prop) (sym : string) :
  (forall bk s e bk' s', P bk -> match_iter sym bk s = Some (e, bk', s') -> P bk') ->
  forall fuel bk s acc execs bk' s',
    P bk -> matchLoop fuel sym bk s acc = Some (execs, bk', s') -> P bk'.
Proof.
  intros Hstep fuel. induction fuel as [|fuel IH]; intros bk s acc execs bk' s' HP; simpl;
    destruct (match_iter sym bk s) as [[[e bk1] s1]|] eqn:Hit;
    intros H; try discriminate; try (inversion H; subst; assumption).
  eapply IH; [|exact H]. eapply Hstep; eauto.
Qed.

Definition sorted_books (s : engine) : Prop :=
  forall sym bk, orderBooks s !! sym = Some bk -> sorted_book bk.

Lemma matchOrders_sorted (sym : string) (s s' : engine) (execs : list execution) :
  sorted_books s -> matchOrders sym s = Some (execs, s') -> sorted_books s'.
Proof.
  unfold matchOrders. intros Hs H.
  destruct (orderBooks s !! sym) as [bk|] eqn:Hbk; [|by inversion H; subst].
  destruct (bool_decide _ || bool_decide _); [by inversion H; subst|].
  destruct (matchLoop_enough_fuel (book_size bk) sym bk s [])
    as (ex & bk' & s1 & Hrun & _ & _ & Hob); [lia|].
  rewrite Hrun in H. simpl in H. inversion H; subst. clear H.
  intros sym' bk0 Hbk0. simpl in Hbk0.
  destruct (decide (sym' = sym)) as [->|Hne].
  - rewrite lookup_insert_eq in Hbk0. inversion Hbk0; subst bk0.
    eapply (matchLoop_invariant sorted_book sym); [|exact (Hs sym bk Hbk)|exact Hrun].
    intros. eapply match_iter_sorted; eauto.
  - rewrite lookup_insert_ne in Hbk0 by congruence. rewrite Hob in Hbk0.
    by apply (Hs sym').
Qed.

(** Admissions keep every book in price order: bids descending, asks
    ascending, by the numeric value of the price field. *)
Lemma addOrder_sorted (o : order) (s s' : engine) (execs : list execution) :
  sorted_books s -> addOrder o s = Some (execs, s') -> sorted_books s'.
Proof.
  unfold addOrder. intros Hs H. eapply matchOrders_sorted; [|exact H].
  intros sym bk Hbk. simpl in Hbk.
  destruct (decide (sym = stock_symbol o)) as [->|Hne].
  - rewrite lookup_insert_eq in Hbk. inversion Hbk; subst bk. clear Hbk.
    assert (Hold : sorted_book (default (mkBook [] []) (orderBooks s !! stock_symbol o))).
    { destruct (orderBooks s !! stock_symbol o) as [bk|] eqn:Hbk; simpl.
      - by apply (Hs (stock_symbol o)).
      - split; intros i j x y _ Hx; by destruct i. }
    destruct Hold as [Hb Ha].
    destruct (is_buy (order_type o)); split; simpl;
      auto using sort_bids_descending, sort_asks_ascending.
  - rewrite lookup_insert_ne in Hbk by congruence. by apply (Hs sym).
Qed.

(** *** Books of live orders *)

(** Every resting order has a positive remaining quantity. *)
Definition live (o : order) : Prop := filled_quantity o < quantity o.

Definition live_book (bk : book) : Prop := Forall live (bids bk ++ asks bk).

Lemma live_fill (o : order) (rest : list order) (q : Z) :
  Forall live rest -> Forall live (fill o rest q).2.
Proof.
  intros Hrest. unfold fill; simpl.
  destruct (Z.leb_spec (quantity o) (filled_quantity o + q)); simpl; [assumption|].
  constructor; [unfold live; simpl; lia | assumption].
Qed.

Lemma match_iter_live (sym : string) (bk bk' : book) (s s' : engine) (e : execution) :
  live_book bk -> match_iter sym bk s = Some (e, bk', s') ->
  live_book bk' /\ 0 < ex_quantity e.
Proof.
  unfold live_book. intros Hlive H. apply match_iter_Some in H.
  destruct H as (bid & bids' & ask & asks' & Hb & Ha & _ & -> & -> & _).
  rewrite Hb, Ha in Hlive. apply Forall_app in Hlive as [Hbs Has].
  apply Forall_cons in Hbs as [Hbid Hbs]. apply Forall_cons in Has as [Hask Has].
  simpl. split.
  - apply Forall_app. split; by apply live_fill.
  - unfold executionQuantity, live in *. lia.
Qed.

Lemma matchLoop_live (fuel : nat) (sym : string) :
  forall (bk bk' : book) (s s' : engine) (acc execs : list execution),
    live_book bk -> Forall (fun e => 0 < ex_quantity e) acc ->
    matchLoop fuel sym bk s acc = Some (execs, bk', s') ->
    live_book bk' /\ Forall (fun e => 0 < ex_quantity e) execs.
Proof.
  induction fuel as [|fuel IH]; intros bk bk' s s' acc execs Hlive Hacc; simpl;
    destruct (match_iter sym bk s) as [[[e bk1] s1]|] eqn:Hit;
    intros H; try discriminate; try (inversion H; subst; by auto).
  destruct (match_iter_live _ _ _ _ _ _ Hlive Hit) as [Hlive1 He].
  eapply IH; [exact Hlive1| |exact H].
  apply Forall_app. split; [assumption|]. by constructor.
Qed.

Lemma matchLoop_more_fuel (fuel : nat) (sym : string) :
  forall (bk : book) (s : engine) (acc : list execution) r (extra : nat),
    matchLoop fuel sym bk s acc = Some r ->
    matchLoop (fuel + extra) sym bk s acc = Some r.
Proof.
  induction fuel as [|fuel IH]; intros bk s acc r extra; simpl;
    destruct (match_iter sym bk s) as [[[e bk1] s1]|] eqn:Hit; try discriminate.
  - destruct extra; simpl; rewrite Hit; auto.
  - apply IH.
  - auto.
Qed.

(** *** The orders behind an execution *)

(** Both orders of the execution are entries of [orders]. *)
Definition registered (s : engine) (e : execution) : Prop :=
  is_Some (orders s !! buy_order_id e) /\ is_Some (orders s !! sell_order_id e).

Lemma match_iter_registered (sym : string) (bk bk' : book) (s s' : engine) (e : execution) :
  match_iter sym bk s = Some (e, bk', s') ->
  registered s' e
  /\ (forall id, is_Some (orders s !! id) -> is_Some (orders s' !! id)).
Proof.
  unfold match_iter, registered. intros H.
  destruct (bids bk) as [|bid bids']; [discriminate|].
  destruct (asks bk) as [|ask asks']; [discriminate|].
  destruct (canMatch bid ask); [|discriminate].
  pose proof (fill_fst bid bids' (executionQuantity bid ask)) as (Hidb & _).
  pose proof (fill_fst ask asks' (executionQuantity bid ask)) as (Hida & _).
  destruct (fill bid bids' (executionQuantity bid ask)) as [bid1 nb].
  destruct (fill ask asks' (executionQuantity bid ask)) as [ask1 na].
  simpl in Hidb, Hida. inversion H; subst; clear H. simpl.
  rewrite Hidb, Hida. split; [split|].
  - rewrite lookup_insert. case_decide; [eauto|]. rewrite lookup_insert_eq. eauto.
  - rewrite lookup_insert_eq. eauto.
  - intros id Hid. rewrite lookup_insert. case_decide; [eauto|].
    rewrite lookup_insert. case_decide; [eauto|]. exact Hid.
Qed.

Lemma matchLoop_registered (fuel : nat) (sym : string) :
  forall (bk bk' : book) (s s' : engine) (acc execs : list execution),
    Forall (registered s) acc ->
    matchLoop fuel sym bk s acc = Some (execs, bk', s') ->
    Forall (registered s') execs.
Proof.
  induction fuel as [|fuel IH]; intros bk bk' s s' acc execs Hacc; simpl;
    destruct (match_iter sym bk s) as [[[e bk1] s1]|] eqn:Hit;
    intros H; try discriminate; try (inversion H; subst; assumption).
  destruct (match_iter_registered _ _ _ _ _ _ Hit) as [He Hmono].
  eapply IH; [|exact H].
  apply Forall_app. split; [|by constructor].
  eapply Forall_impl; [exact Hacc|]. intros e' [H1 H2]. split; by apply Hmono.
Qed.

(** The orders of every execution that addOrder returns are found in
    [orders] when it returns. *)
Lemma addOrder_registered (o : order) (s s' : engine) (execs : list execution) :
  addOrder o s = Some (execs, s') -> Forall (registered s') execs.
Proof.
  unfold addOrder, matchOrders. intros H.
  destruct (_ !! stock_symbol o) as [bk|]; [|inversion H; constructor].
  destruct (_ || _); [inversion H; constructor|].
  destruct (matchLoop _ _ _ _ _) as [[[ex bk'] s1]|] eqn:Hrun; [|discriminate].
  inversion H; subst; clear H.
  eapply Forall_impl; [eapply matchLoop_registered; [|exact Hrun]; constructor|].
  intros e He. exact He.
Qed.

(** *** The properties of the engine *)

(** C1. In every iteration of the loop of matchOrders that matches the top
    bid with the top ask, the execution is priced at the ask's price when the
    bid is a market order, else at the bid's price when the ask is a market
    order, else at the ask's price. *)
Theorem execution_price_rule
        (sym : string) (bk bk' : book) (s s' : engine) (e : execution) :
  match_iter sym bk s = Some (e, bk', s') ->
  exists bid ask,
    head (bids bk) = Some bid /\ head (asks bk) = Some ask
    /\ buy_order_id e = order_id bid /\ sell_order_id e = order_id ask
    /\ ((price bid == 0)%Q -> ex_price e = price ask)
    /\ (~ (price bid == 0)%Q -> (price ask == 0)%Q -> ex_price e = price bid)
    /\ (~ (price bid == 0)%Q -> ~ (price ask == 0)%Q -> ex_price e = price ask).
Proof.
  intros H. apply match_iter_Some in H.
  destruct H as (bid & bids' & ask & asks' & Hb & Ha & _ & -> & _ & _).
  exists bid, ask. rewrite Hb, Ha. simpl.
  unfold executionPrice, is_market.
  repeat split.
  - intros Hm. apply Qeq_bool_iff in Hm. by rewrite Hm.
  - intros Hnb Hm. apply Qeq_bool_iff in Hm. rewrite Hm.
    destruct (Qeq_bool (price bid) 0) eqn:Hbm; [|reflexivity].
    apply Qeq_bool_iff in Hbm. contradiction.
  - intros Hnb Hna.
    destruct (Qeq_bool (price bid) 0) eqn:Hbm; [reflexivity|].
    destruct (Qeq_bool (price ask) 0) eqn:Ham; [|reflexivity].
    apply Qeq_bool_iff in Ham. contradiction.
Qed.

(** C2 (where the code departs from it).  A limit bid at 100 rests in the
    book, a limit ask at 105 rests opposite, and a market bid arrives: the
    comparator [b.price - a.price] sorts the market bid, whose price is 0,
    behind the limit bid, so it is not at the top of the bids and nothing is
    executed against the resting ask. *)
Theorem market_bid_sorted_last :
  let limit_bid := mkOrder "b1" "A" "AAPL" (OTNum 0) 10 100 0 PENDING 1 1 in
  let limit_ask := mkOrder "s1" "B" "AAPL" (OTNum 1) 10 105 0 PENDING 2 2 in
  let market_bid := mkOrder "b2" "C" "AAPL" (OTNum 0) 5 0 0 PENDING 3 3 in
  exists s2 s3,
    admit_all [limit_bid; limit_ask] init = Some s2
    /\ addOrder market_bid s2 = Some ([], s3)
    /\ orderBooks s3 !! "AAPL" = Some (mkBook [limit_bid; market_bid] [limit_ask]).
Proof.
  simpl. eexists _, _. split; [reflexivity|]. split; reflexivity.
Qed.

(** C4. An admission always completes, and when it has completed the book
    of the admitted order's symbol has, whenever its top bid and its top ask
    are both limit orders, a best bid strictly below the best ask; the other
    books are as they were, so the property holds of every book once it holds
    of all of them. *)
Theorem admit_book_integrity (o : order) (s : engine) :
  exists execs s',
    addOrder o s = Some (execs, s')
    /\ (forall bk bid ask,
           orderBooks s' !! stock_symbol o = Some bk ->
           head (bids bk) = Some bid -> head (asks bk) = Some ask ->
           ~ (price bid == 0)%Q -> ~ (price ask == 0)%Q ->
           (price bid < price ask)%Q)
    /\ ((forall sym, book_integrity sym s) -> forall sym, book_integrity sym s').
Proof.
  destruct (addOrder_quiescent o s) as (execs & s' & Hrun & Hq & Hframe).
  exists execs, s'. split; [exact Hrun|]. split.
  - exact (quiescent_integrity _ _ Hq).
  - intros Hs sym. destruct (decide (sym = stock_symbol o)) as [->|Hne].
    + by apply quiescent_integrity.
    + intros bk bid ask Hbk Hb Ha Hnb Hna. rewrite Hframe in Hbk by exact Hne.
      exact (Hs sym bk bid ask Hbk Hb Ha Hnb Hna).
Qed.

(** C10. On a book whose resting orders all have a positive remaining
    quantity the loop of matchOrders terminates: one unit of fuel per order
    of the book is enough (and more fuel changes nothing), so matchOrders
    returns; the number of iterations plus the number of orders left is at
    most the number of orders it started with, every execution has a positive
    quantity, and the orders left still have a positive remaining quantity. *)
Theorem matchOrders_terminates (sym : string) (bk : book) (s : engine) :
  live_book bk ->
  exists execs bk' s',
    (forall fuel, (book_size bk <= fuel)%nat ->
                  matchLoop fuel sym bk s [] = Some (execs, bk', s'))
    /\ (orderBooks s !! sym = Some bk ->
        exists s'', matchOrders sym s = Some (execs, s''))
    /\ (length execs + book_size bk' <= book_size bk)%nat
    /\ match_iter sym bk' s' = None
    /\ Forall (fun e => 0 < ex_quantity e) execs
    /\ live_book bk'.
Proof.
  intros Hlive.
  destruct (matchLoop_enough_fuel (book_size bk) sym bk s [])
    as (execs & bk' & s' & Hrun & Hlen & Hstop & _); [lia|].
  simpl in Hrun.
  assert (Hnil : Forall (fun e => 0 < ex_quantity e) []) by constructor.
  destruct (matchLoop_live _ _ _ _ _ _ _ _ Hlive Hnil Hrun) as [Hl He].
  exists execs, bk', s'. repeat split; try assumption.
  - intros fuel Hfuel.
    replace fuel with (book_size bk + (fuel - book_size bk))%nat by lia.
    by apply matchLoop_more_fuel.
  - intros Hbk. unfold matchOrders. rewrite Hbk, Hrun.
    destruct (bool_decide (length (bids bk) = 0%nat)
              || bool_decide (length (asks bk) = 0%nat)) eqn:Hempty; [|eauto].
    assert (Hnone : match_iter sym bk s = None).
    { unfold match_iter.
      apply orb_true_iff in Hempty as [He'|He']; apply bool_decide_eq_true in He'.
      - by destruct (bids bk).
      - destruct (bids bk); [reflexivity|]. by destruct (asks bk). }
    destruct (book_size bk); simpl in Hrun; rewrite Hnone in Hrun;
      inversion Hrun; eauto.
Qed.

End Engine.

(** Scenario 5 of the specification: a resting SELL 100 @ 150 and an
    incoming market BUY 100. *)
Definition resting_sell : order :=
  mkOrder "s-1" "S" "AAPL" (OTNum 1) 100 150 0 PENDING 10 10.
Definition market_buy : order :=
  mkOrder "b-1" "B" "AAPL" (OTNum 0) 100 0 0 PENDING 20 20.
Definition scenario5_book : book := mkBook [market_buy] [resting_sell].
(** Two oracles to run the model with: distinct ids and a clock that ticks. *)
Definition some_uuid (n : nat) : string := "id-" +:+ pretty n.
Definition some_clock (n : nat) : Z := 1000 + Z.of_nat n.

Lemma execution_price_rule_witness :
  exists e bk' s',
    match_iter some_uuid some_clock "AAPL" scenario5_book init = Some (e, bk', s')
    /\ ex_price e = 150%Q
    /\ exists bid ask,
        head (bids scenario5_book) = Some bid /\ head (asks scenario5_book) = Some ask
        /\ buy_order_id e = order_id bid /\ sell_order_id e = order_id ask
        /\ ((price bid == 0)%Q -> ex_price e = price ask)
        /\ (~ (price bid == 0)%Q -> (price ask == 0)%Q -> ex_price e = price bid)
        /\ (~ (price bid == 0)%Q -> ~ (price ask == 0)%Q -> ex_price e = price ask).
Proof.
  eexists _, _, _. split; [reflexivity|]. split; [reflexivity|].
  eapply (execution_price_rule some_uuid some_clock "AAPL" scenario5_book _ init).
  reflexivity.
Defined.

(** Scenario 2 of the specification: the asks hold 20 @ 150 and 30 @ 151,
    and a market BUY for 40 arrives.  Two executions, 20 @ 150 then 20 @ 151;
    the buyer is filled and the ask at 151 keeps 10. *)
Example scenario2_market_order_crosses :
  let ask1 := mkOrder "a-1" "S1" "AAPL" (OTNum 1) 20 150 0 PENDING 1 1 in
  let ask2 := mkOrder "a-2" "S2" "AAPL" (OTNum 1) 30 151 0 PENDING 2 2 in
  let buy := mkOrder "b-1" "B" "AAPL" (OTNum 0) 40 0 0 PENDING 3 3 in
  exists s2 e1 e2 s3,
    admit_all some_uuid some_clock [ask1; ask2] init = Some s2
    /\ addOrder some_uuid some_clock buy s2 = Some ([e1; e2], s3)
    /\ (ex_quantity e1, ex_price e1) = (20, 150%Q)
    /\ (ex_quantity e2, ex_price e2) = (20, 151%Q)
    /\ (os_status <$> getOrderStatus s3 "b-1") = Some FILLED
    /\ orderBooks s3 !! "AAPL"
       = Some (mkBook [] [set_status (set_filled ask2 20) PARTIALLY_FILLED]).
Proof.
  simpl. eexists _, _, _, _. split; [reflexivity|]. split; [vm_compute; reflexivity|].
  repeat split.
Qed.

Definition scenario5_engine : engine :=
  mkEngine {[ "AAPL" := scenario5_book ]} ∅ [] 0.

Lemma matchOrders_terminates_witness :
  live_book scenario5_book
  /\ exists execs bk' s',
      (forall fuel, (book_size scenario5_book <= fuel)%nat ->
                    matchLoop some_uuid some_clock fuel "AAPL" scenario5_book
                              scenario5_engine []
                    = Some (execs, bk', s'))
      /\ (orderBooks scenario5_engine !! "AAPL" = Some scenario5_book ->
          exists s'',
            matchOrders some_uuid some_clock "AAPL" scenario5_engine = Some (execs, s''))
      /\ (length execs + book_size bk' <= book_size scenario5_book)%nat
      /\ match_iter some_uuid some_clock "AAPL" bk' s' = None
      /\ Forall (fun e => 0 < ex_quantity e) execs
      /\ live_book bk'.
Proof.
  assert (Hlive : live_book scenario5_book).
  { unfold live_book, live, scenario5_book; simpl.
    repeat constructor. }
  split; [exact Hlive|].
  exact (matchOrders_terminates some_uuid some_clock "AAPL" scenario5_book
           scenario5_engine Hlive).
Defined.

(** ** The engine in use: events, quantities, cancellations, depth *)

Section Operations.

Variable uuidv4 : nat -> string.
Variable Date_now : nat -> Z.

(** *** The events of an admission *)

(** The event addOrder emits for the order, read at clock value [ts]. *)
Definition placed_event (o : order) (ts : Z) : event :=
  mkEvent ORDER_PLACED (order_id o) (stock_symbol o) (order_type o)
          (quantity o) (price o) (investor_id o) ts.

(** The two events matchOrders emits for an execution: the buyer's, then the
    seller's, both stamped with the timestamp of the execution. *)
Definition executed_events (e : execution) : list event :=
  [ mkEvent ORDER_EXECUTED (buy_order_id e) (ex_stock_symbol e) (OTStr "BUY")
            (ex_quantity e) (ex_price e) (buyer_id e) (ex_timestamp e);
    mkEvent ORDER_EXECUTED (sell_order_id e) (ex_stock_symbol e) (OTStr "SELL")
            (ex_quantity e) (ex_price e) (seller_id e) (ex_timestamp e) ].

Lemma match_iter_events (sym : string) (bk bk' : book) (s s' : engine) (e : execution) :
  match_iter uuidv4 Date_now sym bk s = Some (e, bk', s') ->
  events s' = events s ++ executed_events e.
Proof.
  unfold match_iter. intros H.
  destruct (bids bk) as [|bid bids']; [discriminate|].
  destruct (asks bk) as [|ask asks']; [discriminate|].
  destruct (canMatch bid ask); [|discriminate].
  destruct (fill bid bids' (executionQuantity bid ask)) as [bid1 nb].
  destruct (fill ask asks' (executionQuantity bid ask)) as [ask1 na].
  inversion H; subst; clear H. reflexivity.
Qed.

Lemma matchLoop_events (fuel : nat) (sym : string) :
  forall (bk bk' : book) (s s' : engine) (acc execs : list execution),
    matchLoop uuidv4 Date_now fuel sym bk s acc = Some (execs, bk', s') ->
    exists new,
      execs = acc ++ new
      /\ events s' = events s ++ concat (executed_events <$> new).
Proof.
  induction fuel as [|fuel IH]; intros bk bk' s s' acc execs; simpl;
    destruct (match_iter uuidv4 Date_now sym bk s) as [[[e bk1] s1]|] eqn:Hit;
    intros H; try discriminate.
  - inversion H; subst. exists []. by rewrite !app_nil_r.
  - pose proof (match_iter_events _ _ _ _ _ _ Hit) as Hev.
    destruct (IH _ _ _ _ _ _ H) as (new & -> & Hev').
    exists (e :: new). rewrite <- app_assoc. split; [reflexivity|].
    rewrite Hev', Hev. simpl. by rewrite <- !app_assoc.
  - inversion H; subst. exists []. by rewrite !app_nil_r.
Qed.

(** X1. What an admission publishes: ORDER_PLACED for the order, then for each
    execution it returns, in order, ORDER_EXECUTED for the buyer and
    ORDER_EXECUTED for the seller; nothing else. *)
Theorem addOrder_events (o : order) (s s' : engine) (execs : list execution) :
  addOrder uuidv4 Date_now o s = Some (execs, s') ->
  events s' = events s ++ placed_event o (Date_now (draws s))
                       :: concat (executed_events <$> execs).
Proof.
  unfold addOrder, matchOrders. intros H. simpl in H.
  destruct (_ !! stock_symbol o) as [bk|].
  - destruct (_ || _).
    + inversion H; subst. simpl. reflexivity.
    + destruct (matchLoop _ _ _ _ _ _ _) as [[[ex bk'] s1]|] eqn:Hrun; [|discriminate].
      inversion H; subst; clear H. simpl.
      destruct (matchLoop_events _ _ _ _ _ _ _ _ Hrun) as (new & Hnew & Hev).
      simpl in Hnew. rewrite Hnew, Hev. simpl. by rewrite <- app_assoc.
  - inversion H; subst. reflexivity.
Qed.

(** *** Quantities across a match *)

(** What is left to fill of an order, of a side of the book, and what a list
    of executions has filled. *)
Definition remaining (o : order) : Z := quantity o - filled_quantity o.

Definition open_quantity (l : list order) : Z :=
  foldr (fun o acc => remaining o + acc) 0 l.

Definition executed_quantity (execs : list execution) : Z :=
  foldr (fun e acc => ex_quantity e + acc) 0 execs.

Lemma executed_quantity_app (l1 l2 : list execution) :
  executed_quantity (l1 ++ l2) = executed_quantity l1 + executed_quantity l2.
Proof. induction l1 as [|e l1 IH]; simpl; lia. Qed.

Lemma open_quantity_perm (l1 l2 : list order) :
  l1 ≡ₚ l2 -> open_quantity l1 = open_quantity l2.
Proof. induction 1; simpl; lia. Qed.

Lemma open_quantity_app (l1 l2 : list order) :
  open_quantity (l1 ++ l2) = open_quantity l1 + open_quantity l2.
Proof. induction l1 as [|e l1 IH]; simpl; lia. Qed.

Lemma fill_open_quantity (o : order) (rest : list order) (q : Z) :
  q <= remaining o ->
  open_quantity (fill o rest q).2 = open_quantity (o :: rest) - q.
Proof.
  unfold remaining. intros Hq. unfold fill; simpl.
  destruct (Z.leb_spec (quantity o) (filled_quantity o + q)); simpl;
    unfold remaining; simpl; lia.
Qed.

Lemma match_iter_open_quantity (sym : string) (bk bk' : book) (s s' : engine)
      (e : execution) :
  match_iter uuidv4 Date_now sym bk s = Some (e, bk', s') ->
  open_quantity (bids bk) = open_quantity (bids bk') + ex_quantity e
  /\ open_quantity (asks bk) = open_quantity (asks bk') + ex_quantity e.
Proof.
  intros H. apply match_iter_Some in H.
  destruct H as (bid & bids' & ask & asks' & -> & -> & _ & -> & -> & _). simpl.
  assert (Hb : executionQuantity bid ask <= remaining bid)
    by (unfold executionQuantity, remaining; lia).
  assert (Ha : executionQuantity bid ask <= remaining ask)
    by (unfold executionQuantity, remaining; lia).
  rewrite (fill_open_quantity bid bids' _ Hb), (fill_open_quantity ask asks' _ Ha).
  simpl. lia.
Qed.

Lemma matchLoop_open_quantity (fuel : nat) (sym : string) :
  forall (bk bk' : book) (s s' : engine) (acc execs : list execution),
    matchLoop uuidv4 Date_now fuel sym bk s acc = Some (execs, bk', s') ->
    open_quantity (bids bk) + executed_quantity acc
    = open_quantity (bids bk') + executed_quantity execs
    /\ open_quantity (asks bk) + executed_quantity acc
       = open_quantity (asks bk') + executed_quantity execs.
Proof.
  induction fuel as [|fuel IH]; intros bk bk' s s' acc execs; simpl;
    destruct (match_iter uuidv4 Date_now sym bk s) as [[[e bk1] s1]|] eqn:Hit;
    intros H; try discriminate; try (inversion H; subst; lia).
  destruct (match_iter_open_quantity _ _ _ _ _ _ Hit) as [Hb Ha].
  destruct (IH _ _ _ _ _ _ H) as [Hb' Ha'].
  rewrite executed_quantity_app in Hb', Ha'. simpl in Hb', Ha'. lia.
Qed.

(** X2. Shares are conserved by an admission: on the side of the admitted order
    the open quantity grows by what the order has left to fill and shrinks by
    what is executed; on the other side it shrinks by what is executed.  Both
    sides are filled by the same total, the sum of the execution quantities. *)
Theorem addOrder_conserves_quantity (o : order) (s s' : engine)
        (execs : list execution) :
  addOrder uuidv4 Date_now o s = Some (execs, s') ->
  let bk := default (mkBook [] []) (orderBooks s !! stock_symbol o) in
  exists bk',
    orderBooks s' !! stock_symbol o = Some bk'
    /\ open_quantity (bids bk') + executed_quantity execs
       = open_quantity (bids bk) + (if is_buy (order_type o) then remaining o else 0)
    /\ open_quantity (asks bk') + executed_quantity execs
       = open_quantity (asks bk) + (if is_buy (order_type o) then 0 else remaining o).
Proof.
  intros H bk. unfold addOrder, matchOrders in H. fold bk in H. simpl in H.
  rewrite lookup_insert_eq in H.
  set (bk1 := if is_buy (order_type o) then _ else _) in H.
  assert (Hins : open_quantity (bids bk1)
                 = open_quantity (bids bk) + (if is_buy (order_type o) then remaining o else 0)
                 /\ open_quantity (asks bk1)
                    = open_quantity (asks bk)
                      + (if is_buy (order_type o) then 0 else remaining o)).
  { unfold bk1. destruct (is_buy (order_type o)); simpl; split; try lia;
      unfold js_sort; rewrite (open_quantity_perm _ _ (stable_sort_perm _ _));
      rewrite open_quantity_app; simpl; lia. }
  destruct Hins as [Hb Ha].
  destruct (_ || _).
  - inversion H; subst; clear H. exists bk1. simpl. rewrite lookup_insert_eq.
    split; [reflexivity|]. simpl. lia.
  - destruct (matchLoop _ _ _ _ _ _ _) as [[[ex bk'] s1]|] eqn:Hrun; [|discriminate].
    inversion H; subst; clear H. exists bk'. simpl. rewrite lookup_insert_eq.
    split; [reflexivity|].
    destruct (matchLoop_open_quantity _ _ _ _ _ _ _ _ Hrun) as [Hb' Ha'].
    simpl in Hb', Ha'. lia.
Qed.

(** *** Cancellations *)

Lemma status_eqb_eq (a b : order_status) : status_eqb a b = true <-> a = b.
Proof. destruct a, b; simpl; split; congruence. Qed.

(** The event cancelOrder emits, read at clock value [ts]. *)
Definition canceled_event (o : order) (orderId : string) (ts : Z) : event :=
  mkEvent ORDER_CANCELED orderId (stock_symbol o) (order_type o)
          (quantity o - filled_quantity o) (price o) (investor_id o) ts.

(** An order can be canceled by [investorId]: it is known, it is theirs, and
    it is neither FILLED nor CANCELED. *)
Definition cancelable (s : engine) (orderId investorId : string) : Prop :=
  exists o, orders s !! orderId = Some o /\ investor_id o = investorId
            /\ status o ≠ FILLED /\ status o ≠ CANCELED.

(** X3. When cancelOrder does not throw (it throws only for an order that
    can be canceled and whose symbol has no book and is a name every object
    inherits), it succeeds exactly on the orders that can be canceled, and a
    refused cancellation changes nothing: no book, no order, no event. *)
Theorem cancelOrder_refusal (orderId investorId : string) (s : engine) :
  cancelOrder_throws orderId investorId s = false ->
  ((cancelOrder Date_now orderId investorId s).1.1 = true
   <-> cancelable s orderId investorId)
  /\ ((cancelOrder Date_now orderId investorId s).1.1 = false ->
      (cancelOrder Date_now orderId investorId s).2 = s).
Proof.
  intros _. unfold cancelOrder, cancelable.
  destruct (orders s !! orderId) as [o|] eqn:Ho; simpl;
    [|destruct (inherited orderId); simpl;
      (split; [|done]); (split; [done|]); intros (o' & Ho' & _); congruence].
  - destruct (String.eqb_spec (investor_id o) investorId) as [Hinv|Hinv]; simpl.
    + destruct (status_eqb (status o) FILLED) eqn:Hf; simpl.
      * apply status_eqb_eq in Hf. split; [|done].
        split; [done|]. intros (o' & Ho' & _ & Hnf & _). congruence.
      * destruct (status_eqb (status o) CANCELED) eqn:Hc; simpl.
        -- apply status_eqb_eq in Hc. split; [|done].
           split; [done|]. intros (o' & Ho' & _ & _ & Hnc). congruence.
        -- split; [|done]. split; [|done]. intros _. exists o.
           repeat split; try done.
           ++ intros Heq. apply status_eqb_eq in Heq. congruence.
           ++ intros Heq. apply status_eqb_eq in Heq. congruence.
    + split; [|done]. split; [done|]. intros (o' & Ho' & Hinv' & _). congruence.
Qed.

(** The books after a cancellation are the books before with, at most, some
    orders taken out of one of them. *)
Lemma cancelOrder_sublist (orderId investorId : string) (s : engine)
      (sym : string) (bk' : book) :
  orderBooks (cancelOrder Date_now orderId investorId s).2 !! sym = Some bk' ->
  exists bk, orderBooks s !! sym = Some bk
             /\ bids bk' `sublist_of` bids bk /\ asks bk' `sublist_of` asks bk.
Proof.
  unfold cancelOrder.
  destruct (orders s !! orderId) as [o|]; simpl;
    [|destruct (inherited orderId); by eauto].
  destruct (negb _); simpl; [by eauto|].
  destruct (status_eqb (status o) FILLED); simpl; [by eauto|].
  destruct (status_eqb (status o) CANCELED); simpl; [by eauto|].
  destruct (orderBooks s !! stock_symbol o) as [bk|] eqn:Hbk; [|by eauto].
  destruct (decide (sym = stock_symbol o)) as [->|Hne].
  - destruct (is_buy (order_type o)); rewrite lookup_insert_eq; intros H;
      inversion H; subst; clear H; exists bk; simpl;
      (split; [done|]); split; try done; apply sublist_filter.
  - destruct (is_buy (order_type o)); rewrite lookup_insert_ne by done; eauto.
Qed.

(** X4. A successful cancellation marks the order CANCELED, publishes one
    ORDER_CANCELED event for the quantity that was left to fill, takes every
    order of that id out of the order's side of its book and leaves the other
    books alone; canceling the same order again is refused. *)
Theorem cancelOrder_effect (orderId investorId : string) (s : engine) (o : order) :
  orders s !! orderId = Some o ->
  investor_id o = investorId ->
  status o ≠ FILLED -> status o ≠ CANCELED ->
  let s' := (cancelOrder Date_now orderId investorId s).2 in
  orders s' !! orderId = Some (set_status o CANCELED)
  /\ events s' = events s ++ [canceled_event o orderId (Date_now (draws s))]
  /\ (forall bk' x,
        orderBooks s' !! stock_symbol o = Some bk' ->
        x ∈ (if is_buy (order_type o) then bids bk' else asks bk') ->
        order_id x ≠ orderId)
  /\ (forall sym, sym ≠ stock_symbol o -> orderBooks s' !! sym = orderBooks s !! sym)
  /\ cancelOrder Date_now orderId investorId s' = (false, "Order already CANCELED", s').
Proof.
  intros Ho Hinv Hnf Hnc s'.
  assert (Hf : status_eqb (status o) FILLED = false).
  { destruct (status_eqb (status o) FILLED) eqn:E; [|done].
    apply status_eqb_eq in E. congruence. }
  assert (Hc : status_eqb (status o) CANCELED = false).
  { destruct (status_eqb (status o) CANCELED) eqn:E; [|done].
    apply status_eqb_eq in E. congruence. }
  assert (Heqb : String.eqb (investor_id o) investorId = true)
    by (by apply String.eqb_eq).
  unfold s', cancelOrder. rewrite Ho, Heqb, Hf, Hc. simpl.
  split; [apply lookup_insert_eq|]. split; [reflexivity|]. split; [|split].
  - intros bk' x Hbk' Hx.
    destruct (orderBooks s !! stock_symbol o) as [bk|] eqn:Hbk; [|congruence].
    destruct (is_buy (order_type o)); rewrite lookup_insert_eq in Hbk';
      inversion Hbk'; subst; clear Hbk'; simpl in Hx;
      apply list_elem_of_filter in Hx as [Hx _]; exact Hx.
  - intros sym Hne.
    destruct (orderBooks s !! stock_symbol o) as [bk|]; [|done].
    destruct (is_buy (order_type o)); by rewrite lookup_insert_ne.
  - rewrite lookup_insert_eq. simpl. rewrite Heqb. simpl. reflexivity.
Qed.

(** *** Admissions and cancellations, interleaved *)

Inductive request : Type :=
| Admit (o : order)
| Cancel (orderId investorId : string).

Definition serve (r : request) (s : engine) : option engine :=
  match r with
  | Admit o => snd <$> addOrder uuidv4 Date_now o s
  | Cancel orderId investorId => Some (cancelOrder Date_now orderId investorId s).2
  end.

Fixpoint serve_all (rs : list request) (s : engine) : option engine :=
  match rs with
  | [] => Some s
  | r :: rs' =>
    match serve r s with
    | Some s' => serve_all rs' s'
    | None => None
    end
  end.

(** No limit bid of the book reaches the price of a limit ask. *)
Definition no_cross (bk : book) : Prop :=
  forall bid ask, bid ∈ bids bk -> ask ∈ asks bk ->
                  ~ (price bid == 0)%Q -> ~ (price ask == 0)%Q ->
                  (price bid < price ask)%Q.

Lemma in_order_sublist (after : order -> order -> bool) (l' l : list order) :
  l' `sublist_of` l -> in_order after l -> in_order after l'.
Proof.
  induction 1 as [|x l1 l2 Hsub IH|x l1 l2 Hsub IH]; intros Hl.
  - exact Hl.
  - apply in_order_cons in Hl as [Hx Hl]. apply in_order_cons. split; [|by apply IH].
    apply Forall_forall. intros y Hy.
    eapply Forall_forall in Hx; [exact Hx|]. by eapply elem_of_sublist.
  - apply in_order_cons in Hl as [_ Hl]. by apply IH.
Qed.

Lemma sorted_book_sublist (bk bk' : book) :
  bids bk' `sublist_of` bids bk -> asks bk' `sublist_of` asks bk ->
  sorted_book bk -> sorted_book bk'.
Proof.
  intros Hb Ha [Hd Hu]. split.
  - apply descending_in_order. eapply in_order_sublist; [exact Hb|].
    by apply descending_in_order.
  - apply ascending_in_order. eapply in_order_sublist; [exact Ha|].
    by apply ascending_in_order.
Qed.

Lemma descending_head (l : list order) (x y : order) :
  descending l -> head l = Some x -> y ∈ l -> (price y <= price x)%Q.
Proof.
  intros Hl Hx Hy. apply list_elem_of_lookup in Hy as [j Hj].
  destruct l as [|x0 l]; [discriminate|]. simpl in Hx. inversion Hx; subst x0.
  destruct j as [|j]; simpl in Hj.
  - inversion Hj; subst. apply Qle_refl.
  - apply (Hl 0%nat (S j)); [lia|done|done].
Qed.

Lemma ascending_head (l : list order) (x y : order) :
  ascending l -> head l = Some x -> y ∈ l -> (price x <= price y)%Q.
Proof.
  intros Hl Hx Hy. apply list_elem_of_lookup in Hy as [j Hj].
  destruct l as [|x0 l]; [discriminate|]. simpl in Hx. inversion Hx; subst x0.
  destruct j as [|j]; simpl in Hj.
  - inversion Hj; subst. apply Qle_refl.
  - apply (Hl 0%nat (S j)); [lia|done|done].
Qed.

(** In a sorted book whose tops do not match, no bid reaches any ask. *)
Lemma quiescent_no_cross (bk : book) :
  sorted_book bk ->
  (forall bid ask, head (bids bk) = Some bid -> head (asks bk) = Some ask ->
                   canMatch bid ask = false) ->
  no_cross bk.
Proof.
  intros [Hd Hu] Hq bid ask Hbid Hask _ _.
  destruct (bids bk) as [|b0 bs] eqn:Hb; [by apply elem_of_nil in Hbid|].
  destruct (asks bk) as [|a0 as'] eqn:Ha; [by apply elem_of_nil in Hask|].
  destruct (canMatch_false b0 a0 (Hq b0 a0 eq_refl eq_refl)) as (_ & _ & Hlt).
  pose proof (descending_head _ b0 bid Hd eq_refl Hbid).
  pose proof (ascending_head _ a0 ask Hu eq_refl Hask).
  lra.
Qed.

Definition book_invariant (s : engine) : Prop :=
  forall sym bk, orderBooks s !! sym = Some bk -> sorted_book bk /\ no_cross bk.

Lemma serve_book_invariant (r : request) (s : engine) :
  book_invariant s -> exists s', serve r s = Some s' /\ book_invariant s'.
Proof.
  intros Hs. destruct r as [o|orderId investorId]; simpl.
  - destruct (addOrder_quiescent uuidv4 Date_now o s) as (execs & s' & Hrun & Hq & Hframe).
    rewrite Hrun. simpl. exists s'. split; [reflexivity|].
    assert (Hsorted : sorted_books s').
    { eapply addOrder_sorted; [|exact Hrun]. intros sym bk Hbk. by apply (Hs sym). }
    intros sym bk Hbk. split; [by apply (Hsorted sym)|].
    destruct (decide (sym = stock_symbol o)) as [->|Hne].
    + apply quiescent_no_cross; [by apply (Hsorted (stock_symbol o))|].
      intros bid ask. by apply Hq.
    + rewrite Hframe in Hbk by done. by apply (Hs sym).
  - eexists. split; [reflexivity|]. intros sym bk' Hbk'.
    apply cancelOrder_sublist in Hbk' as (bk & Hbk & Hb & Ha).
    destruct (Hs sym bk Hbk) as [Hsorted Hcross]. split.
    + by apply (sorted_book_sublist bk).
    + intros bid ask Hbid Hask. apply Hcross; by eapply elem_of_sublist.
Qed.

(** *** Status and filled quantity *)

(** An order as placeOrder creates it. *)
Definition fresh (o : order) : Prop :=
  filled_quantity o = 0 /\ 0 < quantity o /\ status o = PENDING.

(** What the status of an order tells about its filled quantity. *)
Definition status_consistent (o : order) : Prop :=
  match status o with
  | PENDING => filled_quantity o = 0 /\ 0 < quantity o
  | PARTIALLY_FILLED => 0 < filled_quantity o < quantity o
  | FILLED => filled_quantity o = quantity o /\ 0 < quantity o
  | CANCELED => 0 <= filled_quantity o < quantity o
  | REJECTED => False
  end.

(** An order that may rest in a book: PENDING or PARTIALLY_FILLED. *)
Definition resting (o : order) : Prop :=
  status_consistent o /\ (status o = PENDING \/ status o = PARTIALLY_FILLED).

Lemma resting_live (o : order) : resting o -> 0 <= filled_quantity o < quantity o.
Proof. unfold resting, status_consistent. intros [H [Hs|Hs]]; rewrite Hs in H; lia. Qed.

Lemma fill_status (o : order) (rest : list order) (q : Z) :
  resting o -> 0 < q <= remaining o ->
  status_consistent (fill o rest q).1
  /\ (Forall resting rest -> Forall resting (fill o rest q).2).
Proof.
  intros Ho Hq. pose proof (resting_live o Ho) as Hlive.
  unfold remaining in Hq. unfold fill; simpl.
  destruct (Z.leb_spec (quantity o) (filled_quantity o + q)); simpl.
  - split; [|done]. unfold status_consistent. simpl. lia.
  - assert (Hc : status_consistent
                   (set_status (set_filled o (filled_quantity o + q)) PARTIALLY_FILLED)).
    { unfold status_consistent. simpl. lia. }
    split; [exact Hc|]. intros Hrest. constructor; [|exact Hrest].
    split; [exact Hc|]. by right.
Qed.

Definition status_invariant (bk : book) (s : engine) : Prop :=
  (forall id o, orders s !! id = Some o -> status_consistent o)
  /\ Forall resting (bids bk) /\ Forall resting (asks bk).

Lemma match_iter_status (sym : string) (bk bk' : book) (s s' : engine) (e : execution) :
  status_invariant bk s ->
  match_iter uuidv4 Date_now sym bk s = Some (e, bk', s') ->
  status_invariant bk' s'.
Proof.
  unfold match_iter. intros (Hmap & Hb & Ha) H.
  destruct (bids bk) as [|bid bids']; [discriminate|].
  destruct (asks bk) as [|ask asks']; [discriminate|].
  destruct (canMatch bid ask); [|discriminate].
  apply Forall_cons in Hb as [Hbid Hb]. apply Forall_cons in Ha as [Hask Ha].
  pose proof (resting_live _ Hbid). pose proof (resting_live _ Hask).
  assert (Hq : 0 < executionQuantity bid ask <= remaining bid
               /\ executionQuantity bid ask <= remaining ask)
    by (unfold executionQuantity, remaining; lia).
  destruct (fill_status bid bids' (executionQuantity bid ask) Hbid) as [Hb1 Hb2]; [lia|].
  destruct (fill_status ask asks' (executionQuantity bid ask) Hask) as [Ha1 Ha2]; [lia|].
  destruct (fill bid bids' (executionQuantity bid ask)) as [bid1 nb].
  destruct (fill ask asks' (executionQuantity bid ask)) as [ask1 na].
  simpl in *. inversion H; subst; clear H. split; [|split; auto].
  simpl. intros id o Ho.
  rewrite lookup_insert in Ho. case_decide; [by inversion Ho; subst|].
  rewrite lookup_insert in Ho. case_decide; [by inversion Ho; subst|].
  by apply (Hmap id).
Qed.

Lemma matchLoop_status (fuel : nat) (sym : string) :
  forall (bk bk' : book) (s s' : engine) (acc execs : list execution),
    status_invariant bk s ->
    matchLoop uuidv4 Date_now fuel sym bk s acc = Some (execs, bk', s') ->
    status_invariant bk' s'.
Proof.
  induction fuel as [|fuel IH]; intros bk bk' s s' acc execs Hinv; simpl;
    destruct (match_iter uuidv4 Date_now sym bk s) as [[[e bk1] s1]|] eqn:Hit;
    intros H; try discriminate; try (inversion H; subst; assumption).
  eapply IH; [|exact H]. eapply match_iter_status; eauto.
Qed.

Lemma matchLoop_orderBooks (fuel : nat) (sym : string) :
  forall (bk bk' : book) (s s' : engine) (acc execs : list execution),
    matchLoop uuidv4 Date_now fuel sym bk s acc = Some (execs, bk', s') ->
    orderBooks s' = orderBooks s.
Proof.
  induction fuel as [|fuel IH]; intros bk bk' s s' acc execs; simpl;
    destruct (match_iter uuidv4 Date_now sym bk s) as [[[e bk1] s1]|] eqn:Hit;
    intros H; try discriminate; try (by inversion H; subst).
  apply match_iter_Some in Hit as (? & ? & ? & ? & _ & _ & _ & _ & _ & Hob).
  rewrite <- Hob. eapply IH; eauto.
Qed.

Definition engine_status_invariant (s : engine) : Prop :=
  (forall id o, orders s !! id = Some o -> status_consistent o)
  /\ (forall sym bk, orderBooks s !! sym = Some bk ->
                     Forall resting (bids bk) /\ Forall resting (asks bk)).

Lemma addOrder_status (o : order) (s s' : engine) (execs : list execution) :
  fresh o -> engine_status_invariant s ->
  addOrder uuidv4 Date_now o s = Some (execs, s') ->
  engine_status_invariant s'.
Proof.
  intros (Hf & Hq & Hst) [Hmap Hbooks] H.
  assert (Hrest : resting o).
  { unfold resting, status_consistent. rewrite Hst. split; [lia | by left]. }
  unfold addOrder, matchOrders in H. simpl in H. rewrite lookup_insert_eq in H.
  set (bk0 := default (mkBook [] []) (orderBooks s !! stock_symbol o)) in H.
  set (bk1 := if is_buy (order_type o) then _ else _) in H.
  assert (Hbk0 : Forall resting (bids bk0) /\ Forall resting (asks bk0)).
  { unfold bk0. destruct (orderBooks s !! stock_symbol o) as [bk|] eqn:Hbk; simpl.
    - by apply (Hbooks (stock_symbol o)).
    - split; constructor. }
  assert (Hbk1 : Forall resting (bids bk1) /\ Forall resting (asks bk1)).
  { destruct Hbk0 as [Hb Ha]. unfold bk1.
    destruct (is_buy (order_type o)); simpl; (split; [|try done]); try done;
      unfold js_sort; rewrite stable_sort_perm; apply Forall_app; split; try done;
      by constructor. }
  assert (Hmap1 : forall id x, <[order_id o := o]> (orders s) !! id = Some x ->
                               status_consistent x).
  { intros id x Hx. rewrite lookup_insert in Hx. case_decide.
    - inversion Hx; subst. by destruct Hrest.
    - by apply (Hmap id). }
  assert (Hother : forall sym bk, sym ≠ stock_symbol o ->
            <[stock_symbol o := bk1]> (orderBooks s) !! sym = Some bk ->
            Forall resting (bids bk) /\ Forall resting (asks bk)).
  { intros sym bk Hne Hbk. rewrite lookup_insert_ne in Hbk by done.
    by apply (Hbooks sym). }
  destruct (_ || _).
  - inversion H; subst; clear H. split; [exact Hmap1|]. simpl.
    intros sym bk Hbk. destruct (decide (sym = stock_symbol o)) as [->|Hne].
    + rewrite lookup_insert_eq in Hbk. by inversion Hbk; subst.
    + by apply (Hother sym).
  - destruct (matchLoop _ _ _ _ _ _ _) as [[[ex bk'] s1]|] eqn:Hrun; [|discriminate].
    inversion H; subst; clear H.
    pose proof (matchLoop_orderBooks _ _ _ _ _ _ _ _ Hrun) as Hob.
    eapply matchLoop_status in Hrun as (Hm & Hb & Ha);
      [|split; [exact Hmap1|exact Hbk1]].
    split; [exact Hm|]. simpl. intros sym bk Hbk.
    destruct (decide (sym = stock_symbol o)) as [->|Hne].
    + rewrite lookup_insert_eq in Hbk. by inversion Hbk; subst.
    + rewrite lookup_insert_ne in Hbk by done. rewrite Hob in Hbk. simpl in Hbk.
      by apply (Hother sym).
Qed.

Lemma Forall_sublist (P : order -> Prop) (l' l : list order) :
  l' `sublist_of` l -> Forall P l -> Forall P l'.
Proof.
  intros Hsub Hl. apply Forall_forall. intros x Hx.
  eapply Forall_forall in Hl; [exact Hl|]. by eapply elem_of_sublist.
Qed.

Lemma cancelOrder_status (orderId investorId : string) (s : engine) :
  engine_status_invariant s ->
  engine_status_invariant (cancelOrder Date_now orderId investorId s).2.
Proof.
  intros [Hmap Hbooks]. split.
  - unfold cancelOrder.
    destruct (orders s !! orderId) as [o|] eqn:Ho; simpl;
      [|destruct (inherited orderId); exact Hmap].
    destruct (negb _); simpl; [exact Hmap|].
    destruct (status_eqb (status o) FILLED) eqn:Hf; simpl; [exact Hmap|].
    destruct (status_eqb (status o) CANCELED) eqn:Hc; simpl; [exact Hmap|].
    intros id x Hx. rewrite lookup_insert in Hx. case_decide; [|by apply (Hmap id)].
    inversion Hx; subst. pose proof (Hmap _ _ Ho) as Hcons.
    unfold status_consistent in *. simpl.
    destruct (status o); simpl in *; try discriminate; lia.
  - intros sym bk' Hbk'.
    apply cancelOrder_sublist in Hbk' as (bk & Hbk & Hb & Ha).
    destruct (Hbooks sym bk Hbk). split; by eapply Forall_sublist.
Qed.

Definition fresh_request (r : request) : Prop :=
  match r with
  | Admit o => fresh o
  | Cancel _ _ => True
  end.

(** X6. When every admitted order comes in as placeOrder makes it (PENDING,
    nothing filled, a positive quantity), then after any admissions and
    cancellations the status of every order the engine knows agrees with its
    filled quantity: PENDING with nothing filled, PARTIALLY_FILLED with 0 <
    filled < quantity, FILLED with filled = quantity (never more), CANCELED
    with filled < quantity; and every order resting in a book is PENDING or
    PARTIALLY_FILLED. *)
Theorem serve_all_status (rs : list request) :
  Forall fresh_request rs ->
  exists s',
    serve_all rs init = Some s'
    /\ (forall id o, orders s' !! id = Some o -> status_consistent o)
    /\ (forall sym bk o,
          orderBooks s' !! sym = Some bk -> o ∈ bids bk ++ asks bk ->
          status_consistent o /\ (status o = PENDING \/ status o = PARTIALLY_FILLED)).
Proof.
  intros Hrs.
  assert (Hgen : forall s, engine_status_invariant s ->
            exists s', serve_all rs s = Some s' /\ engine_status_invariant s').
  { induction Hrs as [|r rs Hr Hrs IH]; intros s Hs; simpl; [by eauto|].
    destruct r as [o|orderId investorId]; simpl.
    - destruct (addOrder_quiescent uuidv4 Date_now o s) as (execs & s1 & Hrun & _).
      rewrite Hrun. simpl. apply IH. by eapply addOrder_status.
    - apply IH. by apply cancelOrder_status. }
  destruct (Hgen init) as (s' & Hrun & Hmap & Hbooks).
  { split; [intros id o Ho|intros sym bk Hbk]; simpl in *; by rewrite lookup_empty in *. }
  exists s'. split; [exact Hrun|]. split; [exact Hmap|].
  intros sym bk o Hbk Ho. destruct (Hbooks sym bk Hbk) as [Hb Ha].
  apply elem_of_app in Ho as [Ho|Ho].
  - eapply Forall_forall in Hb; eauto.
  - eapply Forall_forall in Ha; eauto.
Qed.

(** *** Calls that throw *)

(** A stock symbol that is not the name of a member every object inherits. *)
Definition plain (o : order) : Prop := inherited (stock_symbol o) = false.

Definition plain_request (r : request) : Prop :=
  match r with
  | Admit o => plain o
  | Cancel _ _ => True
  end.

(** The call that serves [r] throws. *)
Definition serve_throws (r : request) (s : engine) : bool :=
  match r with
  | Admit o => addOrder_throws o s
  | Cancel orderId investorId => cancelOrder_throws orderId investorId s
  end.

(** One of the calls that serve [rs] in turn throws. *)
Fixpoint serve_all_throws (rs : list request) (s : engine) : bool :=
  match rs with
  | [] => false
  | r :: rs' =>
    serve_throws r s
    || match serve r s with
       | Some s' => serve_all_throws rs' s'
       | None => false
       end
  end.

Definition plain_invariant (bk : book) (s : engine) : Prop :=
  (forall id o, orders s !! id = Some o -> plain o)
  /\ Forall plain (bids bk) /\ Forall plain (asks bk).

Lemma fill_plain (o : order) (rest : list order) (q : Z) :
  plain o ->
  plain (fill o rest q).1 /\ (Forall plain rest -> Forall plain (fill o rest q).2).
Proof.
  intros Ho. unfold fill; simpl. destruct (Z.leb _ _); simpl; [by split|].
  split; [exact Ho|]. intros Hrest. by constructor.
Qed.

Lemma match_iter_plain (sym : string) (bk bk' : book) (s s' : engine) (e : execution) :
  plain_invariant bk s ->
  match_iter uuidv4 Date_now sym bk s = Some (e, bk', s') ->
  plain_invariant bk' s'.
Proof.
  unfold match_iter. intros (Hmap & Hb & Ha) H.
  destruct (bids bk) as [|bid bids']; [discriminate|].
  destruct (asks bk) as [|ask asks']; [discriminate|].
  destruct (canMatch bid ask); [|discriminate].
  apply Forall_cons in Hb as [Hbid Hb]. apply Forall_cons in Ha as [Hask Ha].
  destruct (fill_plain bid bids' (executionQuantity bid ask) Hbid) as [Hb1 Hb2].
  destruct (fill_plain ask asks' (executionQuantity bid ask) Hask) as [Ha1 Ha2].
  destruct (fill bid bids' (executionQuantity bid ask)) as [bid1 nb].
  destruct (fill ask asks' (executionQuantity bid ask)) as [ask1 na].
  simpl in *. inversion H; subst; clear H. split; [|split; auto].
  simpl. intros id o Ho.
  rewrite lookup_insert in Ho. case_decide; [by inversion Ho; subst|].
  rewrite lookup_insert in Ho. case_decide; [by inversion Ho; subst|].
  by apply (Hmap id).
Qed.

Lemma matchLoop_plain (fuel : nat) (sym : string) :
  forall (bk bk' : book) (s s' : engine) (acc execs : list execution),
    plain_invariant bk s ->
    matchLoop uuidv4 Date_now fuel sym bk s acc = Some (execs, bk', s') ->
    plain_invariant bk' s'.
Proof.
  induction fuel as [|fuel IH]; intros bk bk' s s' acc execs Hinv; simpl;
    destruct (match_iter uuidv4 Date_now sym bk s) as [[[e bk1] s1]|] eqn:Hit;
    intros H; try discriminate; try (inversion H; subst; assumption).
  eapply IH; [|exact H]. eapply match_iter_plain; eauto.
Qed.

Definition engine_plain_invariant (s : engine) : Prop :=
  (forall id o, orders s !! id = Some o -> plain o)
  /\ (forall sym bk, orderBooks s !! sym = Some bk ->
                     Forall plain (bids bk) /\ Forall plain (asks bk)).

Lemma addOrder_plain (o : order) (s s' : engine) (execs : list execution) :
  plain o -> engine_plain_invariant s ->
  addOrder uuidv4 Date_now o s = Some (execs, s') ->
  engine_plain_invariant s'.
Proof.
  intros Hplain [Hmap Hbooks] H.
  unfold addOrder, matchOrders in H. simpl in H. rewrite lookup_insert_eq in H.
  set (bk0 := default (mkBook [] []) (orderBooks s !! stock_symbol o)) in H.
  set (bk1 := if is_buy (order_type o) then _ else _) in H.
  assert (Hbk0 : Forall plain (bids bk0) /\ Forall plain (asks bk0)).
  { unfold bk0. destruct (orderBooks s !! stock_symbol o) as [bk|] eqn:Hbk; simpl.
    - by apply (Hbooks (stock_symbol o)).
    - split; constructor. }
  assert (Hbk1 : Forall plain (bids bk1) /\ Forall plain (asks bk1)).
  { destruct Hbk0 as [Hb Ha]. unfold bk1.
    destruct (is_buy (order_type o)); simpl; (split; [|try done]); try done;
      unfold js_sort; rewrite stable_sort_perm; apply Forall_app; split; try done;
      by constructor. }
  assert (Hmap1 : forall id x, <[order_id o := o]> (orders s) !! id = Some x -> plain x).
  { intros id x Hx. rewrite lookup_insert in Hx. case_decide.
    - by inversion Hx; subst.
    - by apply (Hmap id). }
  assert (Hother : forall sym bk, sym ≠ stock_symbol o ->
            <[stock_symbol o := bk1]> (orderBooks s) !! sym = Some bk ->
            Forall plain (bids bk) /\ Forall plain (asks bk)).
  { intros sym bk Hne Hbk. rewrite lookup_insert_ne in Hbk by done.
    by apply (Hbooks sym). }
  destruct (_ || _).
  - inversion H; subst; clear H. split; [exact Hmap1|]. simpl.
    intros sym bk Hbk. destruct (decide (sym = stock_symbol o)) as [->|Hne].
    + rewrite lookup_insert_eq in Hbk. by inversion Hbk; subst.
    + by apply (Hother sym).
  - destruct (matchLoop _ _ _ _ _ _ _) as [[[ex bk'] s1]|] eqn:Hrun; [|discriminate].
    inversion H; subst; clear H.
    pose proof (matchLoop_orderBooks _ _ _ _ _ _ _ _ Hrun) as Hob.
    eapply matchLoop_plain in Hrun as (Hm & Hb & Ha);
      [|split; [exact Hmap1|exact Hbk1]].
    split; [exact Hm|]. simpl. intros sym bk Hbk.
    destruct (decide (sym = stock_symbol o)) as [->|Hne].
    + rewrite lookup_insert_eq in Hbk. by inversion Hbk; subst.
    + rewrite lookup_insert_ne in Hbk by done. rewrite Hob in Hbk. simpl in Hbk.
      by apply (Hother sym).
Qed.

Lemma cancelOrder_plain (orderId investorId : string) (s : engine) :
  engine_plain_invariant s ->
  engine_plain_invariant (cancelOrder Date_now orderId investorId s).2.
Proof.
  intros [Hmap Hbooks]. split.
  - unfold cancelOrder.
    destruct (orders s !! orderId) as [o|] eqn:Ho; simpl;
      [|destruct (inherited orderId); exact Hmap].
    destruct (negb _); simpl; [exact Hmap|].
    destruct (status_eqb (status o) FILLED) eqn:Hf; simpl; [exact Hmap|].
    destruct (status_eqb (status o) CANCELED) eqn:Hc; simpl; [exact Hmap|].
    intros id x Hx. rewrite lookup_insert in Hx. case_decide; [|by apply (Hmap id)].
    inversion Hx; subst. exact (Hmap _ _ Ho).
  - intros sym bk' Hbk'.
    apply cancelOrder_sublist in Hbk' as (bk & Hbk & Hb & Ha).
    destruct (Hbooks sym bk Hbk). split; by eapply Forall_sublist.
Qed.

Lemma serve_plain (r : request) (s : engine) :
  plain_request r -> engine_plain_invariant s ->
  serve_throws r s = false
  /\ forall s', serve r s = Some s' -> engine_plain_invariant s'.
Proof.
  intros Hr Hs. destruct r as [o|orderId investorId]; simpl in *.
  - split.
    + unfold addOrder_throws. by destruct (orderBooks s !! stock_symbol o).
    + intros s' H. destruct (addOrder uuidv4 Date_now o s) as [[execs s1]|] eqn:Hadd;
        [|discriminate].
      simpl in H. inversion H; subst. by eapply addOrder_plain.
  - split.
    + unfold cancelOrder_throws. destruct (orders s !! orderId) as [o|] eqn:Ho; [|done].
      destruct Hs as [Hmap _]. pose proof (Hmap _ _ Ho) as Hplain. unfold plain in Hplain.
      rewrite Hplain. destruct (orderBooks s !! stock_symbol o);
        by rewrite !andb_false_r.
    + intros s' H. inversion H; subst. by apply cancelOrder_plain.
Qed.

(** X5. Whatever admissions and cancellations the engine serves, in whatever
    order, provided no admitted order has for stock symbol the name of a
    member every object inherits (such as 'constructor'): no call throws,
    the engine answers each of them, and it keeps every book in price order
    (bids descending, asks ascending by the price field) with no limit bid
    at or above a limit ask; in particular the top limit bid stays below the
    top limit ask. *)
Theorem serve_all_book_invariant (rs : list request) :
  Forall plain_request rs ->
  serve_all_throws rs init = false
  /\ exists s',
      serve_all rs init = Some s'
      /\ forall sym bk,
          orderBooks s' !! sym = Some bk ->
          descending (bids bk) /\ ascending (asks bk) /\ no_cross bk
          /\ book_integrity sym s'.
Proof.
  intros Hrs. split.
  - assert (Hgen : forall s, engine_plain_invariant s -> serve_all_throws rs s = false).
    { induction Hrs as [|r rs Hr Hrs IH]; intros s Hs; simpl; [reflexivity|].
      destruct (serve_plain r s Hr Hs) as [-> Hnext]. simpl.
      destruct (serve r s) as [s1|]; [|reflexivity]. apply IH. by apply Hnext. }
    apply Hgen. split; [intros id o Ho|intros sym bk Hbk]; simpl in *;
      by rewrite lookup_empty in *.
  - assert (Hgen : forall s, book_invariant s ->
              exists s', serve_all rs s = Some s' /\ book_invariant s').
    { clear Hrs. induction rs as [|r rs IH]; intros s Hs; simpl; [by eauto|].
      destruct (serve_book_invariant r s Hs) as (s1 & -> & Hs1). by apply IH. }
    destruct (Hgen init) as (s' & Hrun & Hs').
    { intros sym bk Hbk. simpl in Hbk. by rewrite lookup_empty in Hbk. }
    exists s'. split; [exact Hrun|]. intros sym bk Hbk.
    destruct (Hs' sym bk Hbk) as [[Hd Hu] Hcross].
    split; [exact Hd|]. split; [exact Hu|]. split; [exact Hcross|].
    intros bk0 bid ask Hbk0 Hb Ha Hnb Hna.
    rewrite Hbk in Hbk0. inversion Hbk0; subst bk0.
    apply Hcross; try done; by apply head_Some_elem_of.
Qed.

(** *** Admitting an order and canceling it *)

Lemma matchLoop_no_execution (fuel : nat) (sym : string) :
  forall (bk bk' : book) (s s' : engine) (acc execs : list execution),
    matchLoop uuidv4 Date_now fuel sym bk s acc = Some (execs, bk', s') ->
    (length acc <= length execs)%nat
    /\ (length execs = length acc -> bk' = bk /\ s' = s).
Proof.
  induction fuel as [|fuel IH]; intros bk bk' s s' acc execs; simpl;
    destruct (match_iter uuidv4 Date_now sym bk s) as [[[e bk1] s1]|] eqn:Hit;
    intros H; try discriminate; try (by inversion H; subst).
  apply IH in H as [Hlen _]. rewrite length_app in Hlen. simpl in Hlen.
  split; lia.
Qed.

Lemma matchOrders_no_execution (sym : string) (s s' : engine) :
  matchOrders uuidv4 Date_now sym s = Some ([], s') -> s' = s.
Proof.
  unfold matchOrders. intros H.
  destruct (orderBooks s !! sym) as [bk|] eqn:Hbk; [|by inversion H].
  destruct (_ || _); [by inversion H|].
  destruct (matchLoop _ _ _ _ _ _ _) as [[[ex bk'] s1]|] eqn:Hrun; [|discriminate].
  inversion H; subst; clear H.
  apply matchLoop_no_execution in Hrun as [_ Heq].
  destruct Heq as [-> ->]; [reflexivity|].
  rewrite insert_id by exact Hbk. by destruct s.
Qed.

Lemma filter_all (P : order -> Prop) `{!forall x, Decision (P x)} (l : list order) :
  Forall P l -> filter P l = l.
Proof.
  induction 1 as [|x l Hx Hl IH]; [reflexivity|].
  rewrite filter_cons_True by exact Hx. by rewrite IH.
Qed.

Lemma filter_out_pushed (l1 l2 : list order) (o : order) :
  Forall (fun x => order_id x ≠ order_id o) (l1 ++ l2) ->
  filter (fun x => order_id x ≠ order_id o) (l1 ++ o :: l2) = l1 ++ l2.
Proof.
  intros H. apply Forall_app in H as [H1 H2].
  rewrite filter_app, filter_cons_False by (intros Hne; by apply Hne).
  by rewrite !filter_all.
Qed.

(** X7. An order that is admitted without being matched and is then canceled by
    its investor leaves the book of its symbol exactly as it was before the
    admission (the book is in price order and holds no other order of that
    id); the order stays known to the engine, as CANCELED. *)
Theorem admit_then_cancel (o : order) (s s1 : engine) :
  sorted_books s ->
  (forall bk x, orderBooks s !! stock_symbol o = Some bk ->
                x ∈ bids bk ++ asks bk -> order_id x ≠ order_id o) ->
  status o ≠ FILLED -> status o ≠ CANCELED ->
  addOrder uuidv4 Date_now o s = Some ([], s1) ->
  let r := cancelOrder Date_now (order_id o) (investor_id o) s1 in
  r.1.1 = true
  /\ orderBooks r.2 !! stock_symbol o
     = Some (default (mkBook [] []) (orderBooks s !! stock_symbol o))
  /\ (forall sym, sym ≠ stock_symbol o -> orderBooks r.2 !! sym = orderBooks s !! sym)
  /\ orders r.2 !! order_id o = Some (set_status o CANCELED).
Proof.
  intros Hsorted Hids Hnf Hnc Hadd r.
  unfold addOrder in Hadd. apply matchOrders_no_execution in Hadd. subst s1.
  set (bk0 := default (mkBook [] []) (orderBooks s !! stock_symbol o)) in *.
  assert (Hbk0 : sorted_book bk0
                 /\ Forall (fun x => order_id x ≠ order_id o) (bids bk0)
                 /\ Forall (fun x => order_id x ≠ order_id o) (asks bk0)).
  { unfold bk0. destruct (orderBooks s !! stock_symbol o) as [bk|] eqn:Hbk; simpl.
    - split; [by apply (Hsorted (stock_symbol o))|].
      split; apply Forall_forall; intros x Hx; apply (Hids bk x eq_refl);
        apply elem_of_app; auto.
    - split; [split; intros i j x y _ Hx; by destruct i|]. split; constructor. }
  destruct Hbk0 as ([Hd Hu] & Hb & Ha).
  assert (Hf : status_eqb (status o) FILLED = false).
  { destruct (status_eqb (status o) FILLED) eqn:E; [|done].
    apply status_eqb_eq in E. congruence. }
  assert (Hc : status_eqb (status o) CANCELED = false).
  { destruct (status_eqb (status o) CANCELED) eqn:E; [|done].
    apply status_eqb_eq in E. congruence. }
  unfold r, cancelOrder. simpl.
  rewrite lookup_insert_eq, String.eqb_refl, Hf, Hc. simpl.
  rewrite lookup_insert_eq.
  split; [reflexivity|].
  destruct (is_buy (order_type o)) eqn:Hbuy; simpl;
    rewrite !lookup_insert_eq;
    (split; [|split; [intros sym Hne; by rewrite !lookup_insert_ne by done|reflexivity]]).
  - destruct (sort_bids_push (bids bk0) o Hd) as (l1 & l2 & Heq & -> & _).
    rewrite Heq in Hb. rewrite (filter_out_pushed l1 l2 o Hb), <- Heq.
    by destruct bk0.
  - destruct (sort_asks_push (asks bk0) o Hu) as (l1 & l2 & Heq & -> & _).
    rewrite Heq in Ha. rewrite (filter_out_pushed l1 l2 o Ha), <- Heq.
    by destruct bk0.
Qed.

(** *** Time priority *)

(** X8. An order that is admitted without being matched rests in its side of the
    book behind every resting order of a price at least as good as its own
    (for a bid, a price at or above it; for an ask, a price at or below it)
    and ahead of every order of a worse price; the resting orders keep their
    places and the other side is untouched. *)
Theorem addOrder_time_priority (o : order) (s s' : engine) :
  sorted_books s ->
  addOrder uuidv4 Date_now o s = Some ([], s') ->
  let bk := default (mkBook [] []) (orderBooks s !! stock_symbol o) in
  exists bk' l1 l2,
    orderBooks s' !! stock_symbol o = Some bk'
    /\ if is_buy (order_type o)
       then asks bk' = asks bk /\ bids bk = l1 ++ l2 /\ bids bk' = l1 ++ o :: l2
            /\ Forall (fun x => (price o <= price x)%Q) l1
            /\ Forall (fun x => (price x < price o)%Q) l2
       else bids bk' = bids bk /\ asks bk = l1 ++ l2 /\ asks bk' = l1 ++ o :: l2
            /\ Forall (fun x => (price x <= price o)%Q) l1
            /\ Forall (fun x => (price o < price x)%Q) l2.
Proof.
  intros Hsorted Hadd bk.
  unfold addOrder in Hadd. apply matchOrders_no_execution in Hadd. subst s'.
  fold bk. simpl. rewrite lookup_insert_eq.
  assert (Hbk : sorted_book bk).
  { unfold bk. destruct (orderBooks s !! stock_symbol o) as [bk0|] eqn:Hbk0; simpl.
    - by apply (Hsorted (stock_symbol o)).
    - split; intros i j x y _ Hx; by destruct i. }
  destruct Hbk as [Hd Hu].
  destruct (is_buy (order_type o)).
  - destruct (sort_bids_push (bids bk) o Hd) as (l1 & l2 & Heq & Hs & H1 & H2).
    eexists _, l1, l2. split; [reflexivity|]. simpl. by rewrite Hs.
  - destruct (sort_asks_push (asks bk) o Hu) as (l1 & l2 & Heq & Hs & H1 & H2).
    eexists _, l1, l2. split; [reflexivity|]. simpl. by rewrite Hs.
Qed.

End Operations.

(** ** The depth view (getOrderBook, aggregateOrders) *)

(** An entry of the price map of aggregateOrders. *)
Record price_level : Type := mkLevel {
  lv_price : Q;
  lv_quantity : Z;
  order_count : Z
}.

(** One step of the [forEach] of aggregateOrders on the [Map]: the entry of
    the price is updated in place, or a new entry is set at the end ([Map]
    keeps insertion order and finds a number key by its value). *)
Fixpoint level_add (price : Q) (remainingQty : Z) (priceMap : list price_level)
  : list price_level :=
  match priceMap with
  | [] => [mkLevel price remainingQty 1]
  | entry :: rest =>
    if Qeq_bool (lv_price entry) price
    then mkLevel (lv_price entry) (lv_quantity entry + remainingQty)
                 (order_count entry + 1) :: rest
    else entry :: level_add price remainingQty rest
  end.

(** aggregateOrders(orders) *)
Definition aggregateOrders (orders : list order) : list price_level :=
  fold_left (fun priceMap o =>
               level_add (price o) (quantity o - filled_quantity o) priceMap)
            orders [].

(** getOrderBook(stockSymbol): the aggregated bids and asks; both empty for a
    symbol without a book.  [None]: the call throws, as it does for a symbol
    without a book that names a member every object inherits ([book] is that
    member, and [book.bids] is undefined). *)
Definition getOrderBook (s : engine) (stockSymbol : string)
  : option (list price_level * list price_level) :=
  match orderBooks s !! stockSymbol with
  | None => if inherited stockSymbol then None else Some ([], [])
  | Some bk => Some (aggregateOrders (bids bk), aggregateOrders (asks bk))
  end.

Definition depth_quantity (m : list price_level) : Z :=
  foldr (fun lv acc => lv_quantity lv + acc) 0 m.

Definition depth_count (m : list price_level) : Z :=
  foldr (fun lv acc => order_count lv + acc) 0 m.

(** The levels have pairwise different prices. *)
Fixpoint distinct_levels (m : list price_level) : Prop :=
  match m with
  | [] => True
  | lv :: rest =>
    Forall (fun lv' => ~ (lv_price lv == lv_price lv')%Q) rest /\ distinct_levels rest
  end.

Lemma level_add_totals (p : Q) (q : Z) (m : list price_level) :
  depth_quantity (level_add p q m) = depth_quantity m + q
  /\ depth_count (level_add p q m) = depth_count m + 1.
Proof.
  induction m as [|lv m [IHq IHc]]; simpl; [lia|].
  destruct (Qeq_bool (lv_price lv) p); simpl; lia.
Qed.

Lemma level_add_prices (p : Q) (q : Z) (m : list price_level) (lv : price_level) :
  lv ∈ level_add p q m ->
  lv_price lv = p \/ exists lv', lv' ∈ m /\ lv_price lv = lv_price lv'.
Proof.
  induction m as [|lv0 m IH]; simpl; intros H.
  - apply list_elem_of_singleton in H. subst. by left.
  - destruct (Qeq_bool (lv_price lv0) p).
    + apply elem_of_cons in H as [->|H]; right.
      * exists lv0. split; [left|reflexivity].
      * exists lv. split; [by right|reflexivity].
    + apply elem_of_cons in H as [->|H].
      * right. exists lv0. split; [left|reflexivity].
      * destruct (IH H) as [?|(lv' & Hin & Heq)]; [by left|].
        right. exists lv'. split; [by right|exact Heq].
Qed.

Lemma level_add_covers (p : Q) (q : Z) (m : list price_level) :
  (exists lv, lv ∈ level_add p q m /\ (lv_price lv == p)%Q)
  /\ (forall lv, lv ∈ m -> exists lv', lv' ∈ level_add p q m /\ lv_price lv' = lv_price lv).
Proof.
  induction m as [|lv0 m [IH1 IH2]]; simpl.
  - split; [|intros lv H; by apply elem_of_nil in H].
    eexists. split; [left|]. simpl. reflexivity.
  - destruct (Qeq_bool (lv_price lv0) p) eqn:Heq.
    + apply Qeq_bool_iff in Heq. split.
      * eexists. split; [left|]. exact Heq.
      * intros lv H. apply elem_of_cons in H as [->|H].
        -- eexists. split; [left|]. reflexivity.
        -- exists lv. split; [by right|reflexivity].
    + split.
      * destruct IH1 as (lv & Hin & Hp). exists lv. split; [by right|exact Hp].
      * intros lv H. apply elem_of_cons in H as [->|H].
        -- exists lv0. split; [left|reflexivity].
        -- destruct (IH2 lv H) as (lv' & Hin & Hp). exists lv'. split; [by right|exact Hp].
Qed.

Lemma level_add_distinct (p : Q) (q : Z) (m : list price_level) :
  distinct_levels m -> distinct_levels (level_add p q m).
Proof.
  induction m as [|lv0 m IH]; simpl; intros H.
  - split; [constructor|exact I].
  - destruct H as [H0 Hm]. destruct (Qeq_bool (lv_price lv0) p) eqn:Heq; simpl.
    + by split.
    + split; [|by apply IH]. apply Forall_forall. intros lv Hlv.
      destruct (level_add_prices _ _ _ _ Hlv) as [->|(lv' & Hin & ->)].
      * by apply Qeq_bool_neq.
      * eapply Forall_forall in H0; eauto.
Qed.

Lemma aggregate_from (orders : list order) (m : list price_level) :
  let m' := fold_left (fun priceMap o =>
                         level_add (price o) (quantity o - filled_quantity o) priceMap)
                      orders m in
  depth_quantity m' = depth_quantity m + open_quantity orders
  /\ depth_count m' = depth_count m + Z.of_nat (length orders)
  /\ (distinct_levels m -> distinct_levels m')
  /\ (forall o, o ∈ orders -> exists lv, lv ∈ m' /\ (lv_price lv == price o)%Q)
  /\ (forall lv, lv ∈ m -> exists lv', lv' ∈ m' /\ lv_price lv' = lv_price lv)
  /\ (forall lv, lv ∈ m' ->
        (exists lv', lv' ∈ m /\ lv_price lv = lv_price lv')
        \/ exists o, o ∈ orders /\ lv_price lv = price o).
Proof.
  revert m. induction orders as [|o orders IH]; intros m; simpl.
  - repeat split; try lia; eauto.
    + intros o H. by apply elem_of_nil in H.
  - specialize (IH (level_add (price o) (quantity o - filled_quantity o) m)).
    simpl in IH. destruct IH as (IHq & IHc & IHd & IHo & IHm & IHp).
    destruct (level_add_totals (price o) (quantity o - filled_quantity o) m) as [Hq Hc].
    destruct (level_add_covers (price o) (quantity o - filled_quantity o) m) as [Hc1 Hc2].
    unfold remaining. repeat split.
    + lia.
    + lia.
    + intros Hd. by apply IHd, level_add_distinct.
    + intros x Hx. apply elem_of_cons in Hx as [->|Hx]; [|by apply IHo].
      destruct Hc1 as (lv & Hin & Hp). destruct (IHm lv Hin) as (lv' & Hin' & Heq).
      exists lv'. split; [exact Hin'|]. by rewrite Heq.
    + intros lv Hlv. destruct (Hc2 lv Hlv) as (lv1 & Hin1 & Heq1).
      destruct (IHm lv1 Hin1) as (lv' & Hin' & Heq). exists lv'. split; [exact Hin'|].
      congruence.
    + intros lv Hlv. destruct (IHp lv Hlv) as [(lv' & Hin & Heq)|(x & Hx & Heq)].
      * destruct (level_add_prices _ _ _ _ Hin) as [Hp|(lv2 & Hin2 & Hp)].
        -- right. exists o. split; [left|congruence].
        -- left. exists lv2. split; [exact Hin2|congruence].
      * right. exists x. split; [by right|exact Heq].
Qed.

Lemma aggregateOrders_depth (orders : list order) :
  depth_quantity (aggregateOrders orders) = open_quantity orders
  /\ depth_count (aggregateOrders orders) = Z.of_nat (length orders)
  /\ distinct_levels (aggregateOrders orders)
  /\ (forall o, o ∈ orders ->
        exists lv, lv ∈ aggregateOrders orders /\ (lv_price lv == price o)%Q)
  /\ (forall lv, lv ∈ aggregateOrders orders ->
        exists o, o ∈ orders /\ lv_price lv = price o).
Proof.
  destruct (aggregate_from orders []) as (Hq & Hc & Hd & Ho & _ & Hp).
  unfold aggregateOrders. simpl in *.
  split; [lia|]. split; [lia|]. split; [by apply Hd|]. split; [exact Ho|].
  intros lv Hlv. destruct (Hp lv Hlv) as [(lv' & Hin & _)|H]; [|exact H].
  by apply elem_of_nil in Hin.
Qed.

(** What the levels of a side tell about its orders. *)
Definition depth_of (orders : list order) (levels : list price_level) : Prop :=
  depth_quantity levels = open_quantity orders
  /\ depth_count levels = Z.of_nat (length orders)
  /\ distinct_levels levels
  /\ (forall o, o ∈ orders -> exists lv, lv ∈ levels /\ (lv_price lv == price o)%Q)
  /\ (forall lv, lv ∈ levels -> exists o, o ∈ orders /\ lv_price lv = price o).

(** X9. The depth view keeps the quantities.  getOrderBook throws exactly for
    a symbol that has no book and names a member every object inherits (such
    as 'constructor').  Otherwise, on each side the levels add up to the open
    quantity of the orders of the book and their counts to the number of
    orders (both 0 for a symbol without a book); no two levels of a side
    have the same price, every order's price has its level and every level
    is the price of an order. *)
Theorem getOrderBook_depth (s : engine) (stockSymbol : string) :
  let bk := default (mkBook [] []) (orderBooks s !! stockSymbol) in
  match getOrderBook s stockSymbol with
  | Some (bid_levels, ask_levels) =>
    depth_of (bids bk) bid_levels /\ depth_of (asks bk) ask_levels
    /\ (orderBooks s !! stockSymbol = None -> inherited stockSymbol = false)
  | None => orderBooks s !! stockSymbol = None /\ inherited stockSymbol = true
  end.
Proof.
  unfold getOrderBook.
  destruct (orderBooks s !! stockSymbol) as [bk0|]; simpl.
  - split; [apply aggregateOrders_depth|]. split; [apply aggregateOrders_depth|done].
  - destruct (inherited stockSymbol); [done|].
    split; [exact (aggregateOrders_depth [])|].
    split; [exact (aggregateOrders_depth [])|done].
Qed.

(** ** The engine at work on scenario 5 *)

(** The engine with the SELL 100 @ 150 of scenario 5 resting in its book. *)
Definition resting_engine : engine :=
  mkEngine {[ "AAPL" := mkBook [] [resting_sell] ]} {[ "s-1" := resting_sell ]} [] 0.

(** A limit BUY below the resting ask. *)
Definition low_bid : order :=
  mkOrder "b-2" "B" "AAPL" (OTNum 0) 10 140 0 PENDING 30 30.

Lemma resting_engine_sorted : sorted_books resting_engine.
Proof.
  intros sym bk Hbk. unfold resting_engine in Hbk. simpl in Hbk.
  apply lookup_singleton_Some in Hbk as [_ <-].
  split; intros i j x y Hij Hx Hy; simpl in *.
  - by destruct i.
  - destruct j as [|j]; [lia|]. by destruct j.
Qed.

Lemma addOrder_events_witness :
  exists execs s',
    addOrder some_uuid some_clock market_buy resting_engine = Some (execs, s')
    /\ length execs = 1%nat
    /\ events s' = events resting_engine
                   ++ placed_event market_buy (some_clock (draws resting_engine))
                   :: concat (executed_events <$> execs).
Proof.
  eexists _, _. split; [vm_compute; reflexivity|]. split; [reflexivity|].
  apply (addOrder_events some_uuid some_clock market_buy resting_engine).
  vm_compute; reflexivity.
Defined.

Lemma addOrder_conserves_quantity_witness :
  exists execs s',
    addOrder some_uuid some_clock market_buy resting_engine = Some (execs, s')
    /\ executed_quantity execs = 100
    /\ let bk := default (mkBook [] []) (orderBooks resting_engine !! stock_symbol market_buy) in
       exists bk',
         orderBooks s' !! stock_symbol market_buy = Some bk'
         /\ open_quantity (bids bk') + executed_quantity execs
            = open_quantity (bids bk)
              + (if is_buy (order_type market_buy) then remaining market_buy else 0)
         /\ open_quantity (asks bk') + executed_quantity execs
            = open_quantity (asks bk)
              + (if is_buy (order_type market_buy) then 0 else remaining market_buy).
Proof.
  eexists _, _. split; [vm_compute; reflexivity|]. split; [reflexivity|].
  apply (addOrder_conserves_quantity some_uuid some_clock market_buy resting_engine).
  vm_compute; reflexivity.
Defined.

Lemma cancelOrder_refusal_witness :
  ((cancelOrder some_clock "s-1" "B" resting_engine).1.1 = true
   <-> cancelable resting_engine "s-1" "B")
  /\ ((cancelOrder some_clock "s-1" "B" resting_engine).1.1 = false ->
      (cancelOrder some_clock "s-1" "B" resting_engine).2 = resting_engine).
Proof.
  apply (cancelOrder_refusal some_clock "s-1" "B" resting_engine). reflexivity.
Defined.

Lemma serve_all_book_invariant_witness :
  let rs := [Admit resting_sell; Admit low_bid; Admit market_buy; Cancel "b-2" "B"] in
  serve_all_throws some_uuid some_clock rs init = false
  /\ exists s',
      serve_all some_uuid some_clock rs init = Some s'
      /\ forall sym bk,
          orderBooks s' !! sym = Some bk ->
          descending (bids bk) /\ ascending (asks bk) /\ no_cross bk
          /\ book_integrity sym s'.
Proof.
  apply (serve_all_book_invariant some_uuid some_clock).
  repeat constructor.
Defined.

Lemma cancelOrder_effect_witness :
  let s' := (cancelOrder some_clock "s-1" "S" resting_engine).2 in
  orders s' !! "s-1" = Some (set_status resting_sell CANCELED)
  /\ events s' = events resting_engine
                 ++ [canceled_event resting_sell "s-1" (some_clock (draws resting_engine))]
  /\ (forall bk' x,
        orderBooks s' !! stock_symbol resting_sell = Some bk' ->
        x ∈ (if is_buy (order_type resting_sell) then bids bk' else asks bk') ->
        order_id x ≠ "s-1")
  /\ (forall sym, sym ≠ stock_symbol resting_sell ->
                  orderBooks s' !! sym = orderBooks resting_engine !! sym)
  /\ cancelOrder some_clock "s-1" "S" s' = (false, "Order already CANCELED", s').
Proof.
  apply (cancelOrder_effect some_clock "s-1" "S" resting_engine resting_sell).
  - reflexivity.
  - reflexivity.
  - discriminate.
  - discriminate.
Defined.

Lemma serve_all_status_witness :
  let rs := [Admit resting_sell; Admit low_bid; Admit market_buy; Cancel "b-2" "B"] in
  Forall fresh_request rs
  /\ exists s',
      serve_all some_uuid some_clock rs init = Some s'
      /\ (forall id o, orders s' !! id = Some o -> status_consistent o)
      /\ (forall sym bk o,
            orderBooks s' !! sym = Some bk -> o ∈ bids bk ++ asks bk ->
            status_consistent o /\ (status o = PENDING \/ status o = PARTIALLY_FILLED)).
Proof.
  assert (Hrs : Forall fresh_request
                  [Admit resting_sell; Admit low_bid; Admit market_buy; Cancel "b-2" "B"]).
  { repeat constructor. }
  split; [exact Hrs|].
  exact (serve_all_status some_uuid some_clock _ Hrs).
Defined.

Lemma admit_then_cancel_witness :
  exists s1,
    addOrder some_uuid some_clock low_bid resting_engine = Some ([], s1)
    /\ let r := cancelOrder some_clock (order_id low_bid) (investor_id low_bid) s1 in
       r.1.1 = true
       /\ orderBooks r.2 !! stock_symbol low_bid
          = Some (default (mkBook [] []) (orderBooks resting_engine !! stock_symbol low_bid))
       /\ (forall sym, sym ≠ stock_symbol low_bid ->
                       orderBooks r.2 !! sym = orderBooks resting_engine !! sym)
       /\ orders r.2 !! order_id low_bid = Some (set_status low_bid CANCELED).
Proof.
  eexists. split; [vm_compute; reflexivity|].
  apply (admit_then_cancel some_uuid some_clock low_bid resting_engine).
  - exact resting_engine_sorted.
  - intros bk x Hbk Hx. unfold resting_engine in Hbk. simpl in Hbk.
    apply lookup_singleton_Some in Hbk as [_ <-]. simpl in Hx.
    apply list_elem_of_singleton in Hx. by subst x.
  - discriminate.
  - discriminate.
  - vm_compute; reflexivity.
Defined.

Lemma addOrder_time_priority_witness :
  exists s',
    addOrder some_uuid some_clock low_bid resting_engine = Some ([], s')
    /\ let bk := default (mkBook [] []) (orderBooks resting_engine !! stock_symbol low_bid) in
       exists bk' l1 l2,
         orderBooks s' !! stock_symbol low_bid = Some bk'
         /\ if is_buy (order_type low_bid)
            then asks bk' = asks bk /\ bids bk = l1 ++ l2 /\ bids bk' = l1 ++ low_bid :: l2
                 /\ Forall (fun x => (price low_bid <= price x)%Q) l1
                 /\ Forall (fun x => (price x < price low_bid)%Q) l2
            else bids bk' = bids bk /\ asks bk = l1 ++ l2 /\ asks bk' = l1 ++ low_bid :: l2
                 /\ Forall (fun x => (price x <= price low_bid)%Q) l1
                 /\ Forall (fun x => (price low_bid < price x)%Q) l2.
Proof.
  eexists. split; [vm_compute; reflexivity|].
  apply (addOrder_time_priority some_uuid some_clock low_bid resting_engine).
  - exact resting_engine_sorted.
  - vm_compute; reflexivity.
Defined.

End MatchingEngine.

(** ** The portfolio manager (investor-service/portfolio-manager.js) *)
Module PortfolioManager.

(** A row of table [investors] (key [investor_id], [email] unique). *)
Record investor : Type := mkInvestor {
  investor_id : string;
  name : string;
  email : string;
  balance : Q;
  created_at : Z
}.

(** A row of table [portfolio], less its key [(investor_id, stock_symbol)]. *)
Record holding : Type := mkHolding {
  quantity : Z;
  average_price : Q
}.

Inductive transaction_type : Type := BUY | SELL.

(** A row of table [transactions] (key [transaction_id]). *)
Record transaction : Type := mkTransaction {
  transaction_id : string;
  tx_investor_id : string;
  tx_stock_symbol : string;
  type : transaction_type;
  tx_quantity : Z;
  tx_price : Q;
  total_amount : Q;
  timestamp : Z
}.

(** The three tables owned by the service; [transactions] in insertion order. *)
Record store : Type := mkStore {
  investors : gmap string investor;
  portfolio : gmap (string * string) holding;
  transactions : list transaction
}.

Definition empty : store := mkStore ∅ ∅ [].

Record register_result : Type := mkRegisterResult {
  reg_investor_id : string;
  reg_success : bool;
  reg_message : string
}.

Record balance_result : Type := mkBalanceResult {
  bal_success : bool;
  new_balance : Q;
  bal_message : string
}.

Record portfolio_result : Type := mkPortfolioResult {
  success : bool;
  message : string
}.

Record validation : Type := mkValidation {
  valid : bool;
  val_message : string;
  required_balance : Q;
  available_shares : Z
}.

(** registerInvestor(name, email, initialBalance), with the fresh uuid and
    the clock reading it draws.  The INSERT fails on a taken email (or id),
    and the handler answers 'Email already registered' to any UNIQUE
    failure. *)
Definition registerInvestor (st : store) (investorId : string) (createdAt : Z)
           (name email : string) (initialBalance : Q) : register_result * store :=
  if bool_decide (is_Some (investors st !! investorId))
     || existsb (fun i => String.eqb (PortfolioManager.email i) email)
                (snd <$> map_to_list (investors st))
  then (mkRegisterResult "" false "Email already registered", st)
  else (mkRegisterResult investorId true "Investor registered successfully",
        mkStore (<[investorId := mkInvestor investorId name email initialBalance createdAt]>
                   (investors st))
                (portfolio st) (transactions st)).

(** getInvestor(investorId): [None] stands for the thrown 'Investor not found'. *)
Definition getInvestor (st : store) (investorId : string) : option investor :=
  investors st !! investorId.

(** updateBalance(investorId, amount, reason) *)
Definition updateBalance (st : store) (investorId : string) (amount : Q)
  : balance_result * store :=
  match getInvestor st investorId with
  | None => (mkBalanceResult false 0 "Investor not found", st)
  | Some investor =>
    let newBalance := (balance investor + amount)%Q in
    if Qlt_bool newBalance 0
    then (mkBalanceResult false (balance investor) "Insufficient balance", st)
    else (mkBalanceResult true newBalance "Balance updated successfully",
          mkStore (<[investorId :=
                       mkInvestor (PortfolioManager.investor_id investor)
                                  (PortfolioManager.name investor)
                                  (PortfolioManager.email investor)
                                  newBalance
                                  (PortfolioManager.created_at investor)]>
                     (investors st))
                  (portfolio st) (transactions st))
  end.

(** The first half of updatePortfolio: the change of table [portfolio], or
    the message of the early return.  The quotient of the weighted average is
    exact; its divisor is nonzero whenever the stored quantity is positive. *)
Definition apply_holding (pf : gmap (string * string) holding)
           (investorId stockSymbol : string) (quantityChange : Z) (price : Q)
  : string + gmap (string * string) holding :=
  let existing := pf !! (investorId, stockSymbol) in
  if Z.ltb 0 quantityChange then
    match existing with
    | Some existing =>
      let newQuantity := quantity existing + quantityChange in
      let newAveragePrice :=
        (((inject_Z (quantity existing) * average_price existing)
          + (inject_Z quantityChange * price)) / inject_Z newQuantity)%Q in
      inr (<[(investorId, stockSymbol) := mkHolding newQuantity newAveragePrice]> pf)
    | None =>
      inr (<[(investorId, stockSymbol) := mkHolding quantityChange price]> pf)
    end
  else
    match existing with
    | None => inl "Stock not in portfolio"
    | Some existing =>
      let newQuantity := quantity existing + quantityChange in
      if Z.ltb newQuantity 0 then inl "Insufficient shares"
      else if Z.eqb newQuantity 0 then inr (delete (investorId, stockSymbol) pf)
      else inr (<[(investorId, stockSymbol) :=
                    mkHolding newQuantity (average_price existing)]> pf)
    end.

(** updatePortfolio(investorId, stockSymbol, quantityChange, price,
    transactionId), with the clock reading [now] of the transaction row.
    The statements run one after the other without an SQL transaction: when
    the INSERT of the transaction row fails on a taken [transaction_id], the
    change of [portfolio] stays and the call answers with the error. *)
Definition updatePortfolio (st : store) (now : Z) (investorId stockSymbol : string)
           (quantityChange : Z) (price : Q) (transactionId : string)
  : portfolio_result * store :=
  match apply_holding (portfolio st) investorId stockSymbol quantityChange price with
  | inl msg => (mkPortfolioResult false msg, st)
  | inr portfolio' =>
    let transactionType := if Z.ltb 0 quantityChange then BUY else SELL in
    let absQuantity := Z.abs quantityChange in
    let totalAmount := (inject_Z absQuantity * price)%Q in
    if existsb (fun tx => String.eqb (transaction_id tx) transactionId) (transactions st)
    then (mkPortfolioResult false "SQLITE_CONSTRAINT: UNIQUE constraint failed: transactions.transaction_id",
          mkStore (investors st) portfolio' (transactions st))
    else (mkPortfolioResult true "Portfolio updated successfully",
          mkStore (investors st) portfolio'
                  (transactions st ++
                     [mkTransaction transactionId investorId stockSymbol transactionType
                                    absQuantity price totalAmount now]))
  end.

(** [orderType === 'BUY'] *)
Definition is_BUY (orderType : js_order_type) : bool :=
  match orderType with
  | OTStr s => String.eqb s "BUY"
  | OTNum _ => false
  end.

(** validateOrder(investorId, stockSymbol, orderType, quantity, price) *)
Definition validateOrder (st : store) (investorId stockSymbol : string)
           (orderType : js_order_type) (quantity : Z) (price : Q) : validation :=
  match getInvestor st investorId with
  | None => mkValidation false "Investor not found" 0 0
  | Some investor =>
    if is_BUY orderType then
      let requiredBalance := (inject_Z quantity * price)%Q in
      if Qlt_bool (balance investor) requiredBalance
      then mkValidation false "Insufficient balance" requiredBalance 0
      else mkValidation true "Order valid" requiredBalance 0
    else
      let availableShares :=
        match portfolio st !! (investorId, stockSymbol) with
        | Some holding => PortfolioManager.quantity holding
        | None => 0
        end in
      if Z.ltb availableShares quantity
      then mkValidation false "Insufficient shares" 0 availableShares
      else mkValidation true "Order valid" 0 availableShares
  end.

(** *** updatePortfolio *)

(** The table [portfolio] after the call is the one computed by the first
    half, whatever becomes of the transaction row. *)
Lemma updatePortfolio_portfolio (st : store) (now : Z) (inv sym : string)
      (qty : Z) (p : Q) (txid : string) (pf' : gmap (string * string) holding) :
  apply_holding (portfolio st) inv sym qty p = inr pf' ->
  portfolio (updatePortfolio st now inv sym qty p txid).2 = pf'.
Proof.
  intros H. unfold updatePortfolio. rewrite H.
  destruct (existsb _ _); reflexivity.
Qed.

(** The early returns leave the store as it was. *)
Lemma updatePortfolio_refused (st : store) (now : Z) (inv sym : string)
      (qty : Z) (p : Q) (txid : string) (msg : string) :
  apply_holding (portfolio st) inv sym qty p = inl msg ->
  updatePortfolio st now inv sym qty p txid = (mkPortfolioResult false msg, st).
Proof. intros H. unfold updatePortfolio. by rewrite H. Qed.

(** A sale of shares that are not held, or of more shares than are held, is
    refused. *)
Lemma apply_holding_short (pf : gmap (string * string) holding) (inv sym : string)
      (qty : Z) (p : Q) :
  qty <= 0 ->
  (pf !! (inv, sym) = None ->
   apply_holding pf inv sym qty p = inl "Stock not in portfolio")
  /\ (forall h, pf !! (inv, sym) = Some h -> quantity h + qty < 0 ->
                apply_holding pf inv sym qty p = inl "Insufficient shares").
Proof.
  intros Hq. unfold apply_holding.
  destruct (Z.ltb_spec 0 qty); [lia|]. split.
  - intros ->. reflexivity.
  - intros h -> Hneg. destruct (Z.ltb_spec (quantity h + qty) 0); [reflexivity | lia].
Qed.

(** The holdings of the other investors and symbols are not touched. *)
Lemma updatePortfolio_frame (st : store) (now : Z) (inv sym : string)
      (qty : Z) (p : Q) (txid : string) (k : string * string) :
  k ≠ (inv, sym) ->
  portfolio (updatePortfolio st now inv sym qty p txid).2 !! k = portfolio st !! k.
Proof.
  intros Hk.
  destruct (apply_holding (portfolio st) inv sym qty p) as [msg|pf'] eqn:Happ.
  - by rewrite (updatePortfolio_refused _ _ _ _ _ _ _ _ Happ).
  - rewrite (updatePortfolio_portfolio _ _ _ _ _ _ _ _ Happ).
    unfold apply_holding in Happ.
    destruct (Z.ltb 0 qty); destruct (portfolio st !! (inv, sym)) as [h|];
      try discriminate.
    + inversion Happ; subst. by rewrite lookup_insert_ne.
    + inversion Happ; subst. by rewrite lookup_insert_ne.
    + destruct (Z.ltb (quantity h + qty) 0); [discriminate|].
      destruct (Z.eqb (quantity h + qty) 0); inversion Happ; subst.
      * by rewrite lookup_delete_ne.
      * by rewrite lookup_insert_ne.
Qed.

(** With a fresh transaction id the call succeeds and appends one row to
    [transactions]: BUY for a positive change, SELL otherwise, with the
    absolute quantity and [total_amount = quantity * price]. *)
Lemma updatePortfolio_transaction (st : store) (now : Z) (inv sym : string)
      (qty : Z) (p : Q) (txid : string) (pf' : gmap (string * string) holding) :
  apply_holding (portfolio st) inv sym qty p = inr pf' ->
  existsb (fun tx => String.eqb (transaction_id tx) txid) (transactions st) = false ->
  success (updatePortfolio st now inv sym qty p txid).1 = true
  /\ transactions (updatePortfolio st now inv sym qty p txid).2
     = transactions st ++
         [mkTransaction txid inv sym (if Z.ltb 0 qty then BUY else SELL)
                        (Z.abs qty) p (inject_Z (Z.abs qty) * p)%Q now].
Proof.
  intros Happ Hfresh. unfold updatePortfolio. rewrite Happ, Hfresh. simpl. auto.
Qed.

(** C3. updatePortfolio with a positive quantity change creates the holding
    at the trade price when the investor holds none, and otherwise adds the
    quantity and sets the average price to the weighted average
    (oldQty * oldAvg + qty * price) / (oldQty + qty), which keeps the cost
    basis; with a negative quantity change that the holding covers it
    subtracts the quantity and leaves the average price as it is, and it
    deletes the holding when the quantity reaches 0. *)
Theorem updatePortfolio_holding (st : store) (now : Z) (inv sym : string)
        (qty : Z) (p : Q) (txid : string) :
  let st' := (updatePortfolio st now inv sym qty p txid).2 in
  (0 < qty -> portfolio st !! (inv, sym) = None ->
   portfolio st' !! (inv, sym) = Some (mkHolding qty p))
  /\ (0 < qty -> forall h, portfolio st !! (inv, sym) = Some h ->
      exists avg',
        portfolio st' !! (inv, sym) = Some (mkHolding (quantity h + qty) avg')
        /\ avg' = ((inject_Z (quantity h) * average_price h + inject_Z qty * p)
                   / inject_Z (quantity h + qty))%Q
        /\ (0 <= quantity h ->
            (avg' * inject_Z (quantity h + qty)
             == inject_Z (quantity h) * average_price h + inject_Z qty * p)%Q))
  /\ (qty < 0 -> forall h, portfolio st !! (inv, sym) = Some h ->
      0 < quantity h + qty ->
      portfolio st' !! (inv, sym) = Some (mkHolding (quantity h + qty) (average_price h)))
  /\ (qty < 0 -> forall h, portfolio st !! (inv, sym) = Some h ->
      quantity h + qty = 0 ->
      portfolio st' !! (inv, sym) = None).
Proof.
  simpl. repeat split.
  - intros Hq Hnone.
    rewrite (updatePortfolio_portfolio _ _ _ _ _ _ _
               (<[(inv, sym) := mkHolding qty p]> (portfolio st))).
    + apply lookup_insert_eq.
    + unfold apply_holding. rewrite Hnone.
      destruct (Z.ltb_spec 0 qty); [reflexivity | lia].
  - intros Hq h Hsome. eexists. split; [|split; [reflexivity|]].
    + erewrite updatePortfolio_portfolio.
      * apply lookup_insert_eq.
      * unfold apply_holding. rewrite Hsome.
        destruct (Z.ltb_spec 0 qty); [reflexivity | lia].
    + intros Hpos. rewrite Qmult_comm. apply Qmult_div_r.
      apply inject_Z_nonzero. lia.
  - intros Hq h Hsome Hleft.
    erewrite updatePortfolio_portfolio.
    + apply lookup_insert_eq.
    + unfold apply_holding. rewrite Hsome.
      destruct (Z.ltb_spec 0 qty); [lia|].
      destruct (Z.ltb_spec (quantity h + qty) 0); [lia|].
      destruct (Z.eqb_spec (quantity h + qty) 0); [lia | reflexivity].
  - intros Hq h Hsome Hzero.
    erewrite updatePortfolio_portfolio.
    + apply lookup_delete_eq.
    + unfold apply_holding. rewrite Hsome.
      destruct (Z.ltb_spec 0 qty); [lia|].
      destruct (Z.ltb_spec (quantity h + qty) 0); [lia|].
      destruct (Z.eqb_spec (quantity h + qty) 0); [reflexivity | lia].
Qed.

(** Scenario 1 of the specification, seller's side: B holds 100 AAPL @ 140
    and sells 10 @ 151. *)
Definition scenario1_store : store :=
  mkStore ∅ {[ ("B", "AAPL") := mkHolding 100 140 ]} [].

Lemma updatePortfolio_holding_witness :
  portfolio (updatePortfolio scenario1_store 2 "B" "AAPL" (-10) 151 "tx-2").2
    !! ("B", "AAPL")
  = Some (mkHolding 90 140).
Proof.
  destruct (updatePortfolio_holding scenario1_store 2 "B" "AAPL" (-10) 151 "tx-2")
    as (_ & _ & Hsell & _).
  apply (Hsell ltac:(lia) (mkHolding 100 140)); [reflexivity | simpl; lia].
Defined.

(** Scenario 1 of the specification: B holds 100 AAPL @ 140 and sells 10,
    A holds none and buys 10 @ 151. *)
Example scenario1_holdings :
  let st0 := mkStore ∅ {[ ("B", "AAPL") := mkHolding 100 140 ]} [] in
  let st1 := (updatePortfolio st0 1 "A" "AAPL" 10 151 "tx-1").2 in
  let st2 := (updatePortfolio st1 2 "B" "AAPL" (-10) 151 "tx-2").2 in
  portfolio st2 !! ("A", "AAPL") = Some (mkHolding 10 151)
  /\ portfolio st2 !! ("B", "AAPL") = Some (mkHolding 90 140)
  /\ length (transactions st2) = 2%nat.
Proof. vm_compute. auto. Qed.

(** *** validateOrder *)

(** Every BUY at price 0 of the investor [investorId], once registered, is
    answered valid with a required balance of 0. *)
Definition market_buy_always_valid (st : store) (investorId : string) : Prop :=
  is_Some (investors st !! investorId) ->
  forall stockSymbol qty,
    (required_balance (validateOrder st investorId stockSymbol (OTStr "BUY") qty 0) == 0)%Q
    /\ valid (validateOrder st investorId stockSymbol (OTStr "BUY") qty 0) = true.

(** Ann registers with an initial balance of -1, which registerInvestor
    stores as given. *)
Definition overdrawn : store :=
  (registerInvestor empty "inv-1" 1 "Ann" "ann@example.org" (-1)).2.

(** Ann registers with an initial balance of 0. *)
Definition penniless : store :=
  (registerInvestor empty "inv-1" 1 "Ann" "ann@example.org" 0).2.

(** C9, as stated, fails: an investor registered with a balance of -1 exists,
    the required balance of a BUY at price 0 is 0, and the order is refused
    for insufficient balance. *)
Lemma validateOrder_market_buy_counterexample :
  ~ market_buy_always_valid overdrawn "inv-1"
  /\ investors overdrawn !! "inv-1"
     = Some (mkInvestor "inv-1" "Ann" "ann@example.org" (-1) 1)
  /\ validateOrder overdrawn "inv-1" "AAPL" (OTStr "BUY") 10 0
     = mkValidation false "Insufficient balance" (inject_Z 10 * 0) 0.
Proof.
  split; [|split; reflexivity].
  intros H. destruct (H ltac:(by eexists) "AAPL" 10) as [_ Hvalid].
  vm_compute in Hvalid. discriminate.
Qed.

(** C9, amended.  For an existing investor, validateOrder on a BUY at price 0
    computes a required balance of 0, whatever the quantity, and answers
    valid exactly when the balance of the investor is not negative; an
    investor of negative balance is refused for insufficient balance. *)
Theorem validateOrder_market_buy (st : store) (investorId stockSymbol : string)
        (inv : investor) (qty : Z) (p : Q) :
  investors st !! investorId = Some inv ->
  (p == 0)%Q ->
  (required_balance (validateOrder st investorId stockSymbol (OTStr "BUY") qty p) == 0)%Q
  /\ (valid (validateOrder st investorId stockSymbol (OTStr "BUY") qty p) = true
      <-> (0 <= balance inv)%Q)
  /\ ((balance inv < 0)%Q ->
      val_message (validateOrder st investorId stockSymbol (OTStr "BUY") qty p)
      = "Insufficient balance").
Proof.
  intros Hinv Hp. unfold validateOrder, getInvestor. rewrite Hinv. simpl.
  assert (Hreq : (inject_Z qty * p == 0)%Q) by (rewrite Hp; ring).
  destruct (Qlt_bool (balance inv) (inject_Z qty * p)) eqn:Hlt; simpl.
  - apply Qlt_bool_iff in Hlt. rewrite Hreq in Hlt.
    split; [exact Hreq|]. split; [|done].
    split; [discriminate|]. intros Hle. lra.
  - apply MatchingEngine.Qlt_bool_false in Hlt. rewrite Hreq in Hlt.
    split; [exact Hreq|]. split; [by split|]. intros Hneg. lra.
Qed.

Lemma validateOrder_market_buy_witness :
  ((required_balance (validateOrder penniless "inv-1" "AAPL" (OTStr "BUY") 1000000 0) == 0)%Q
   /\ (valid (validateOrder penniless "inv-1" "AAPL" (OTStr "BUY") 1000000 0) = true
       <-> (0 <= 0)%Q)
   /\ ((0 < 0)%Q ->
       val_message (validateOrder penniless "inv-1" "AAPL" (OTStr "BUY") 1000000 0)
       = "Insufficient balance"))
  /\ valid (validateOrder penniless "inv-1" "AAPL" (OTStr "BUY") 1000000 0) = true.
Proof.
  split; [|reflexivity].
  apply (validateOrder_market_buy penniless "inv-1" "AAPL"
           (mkInvestor "inv-1" "Ann" "ann@example.org" 0 1) 1000000 0).
  - reflexivity.
  - reflexivity.
Defined.


(** ** Registration and balances *)





(** No investor has a negative balance. *)
Definition solvent (st : store) : Prop :=
  forall id i, investors st !! id = Some i -> (0 <= balance i)%Q.

(** X11. updateBalance succeeds exactly for a known investor whose balance covers
    the amount (balance + amount >= 0).  It then stores and answers the sum
    and touches nothing else; a refused update changes nothing.  No call can
    make a balance negative. *)
Theorem updateBalance_never_negative (st : store) (investorId : string) (amount : Q) :
  let r := updateBalance st investorId amount in
  (bal_success r.1 = true
   <-> exists i, getInvestor st investorId = Some i /\ (0 <= balance i + amount)%Q)
  /\ (bal_success r.1 = true ->
      exists i i', getInvestor st investorId = Some i
               /\ getInvestor r.2 investorId = Some i'
               /\ balance i' = (balance i + amount)%Q
               /\ new_balance r.1 = balance i'
               /\ (PortfolioManager.investor_id i', PortfolioManager.name i', email i',
                   PortfolioManager.created_at i')
                  = (PortfolioManager.investor_id i, PortfolioManager.name i, email i,
                     PortfolioManager.created_at i))
  /\ (bal_success r.1 = false -> r.2 = st)
  /\ (forall id, id ≠ investorId -> getInvestor r.2 id = getInvestor st id)
  /\ portfolio r.2 = portfolio st /\ transactions r.2 = transactions st
  /\ (solvent st -> solvent r.2).
Proof.
  unfold updateBalance, getInvestor.
  destruct (investors st !! investorId) as [i|] eqn:Hi; simpl.
  - destruct (Qlt_bool (balance i + amount) 0) eqn:Hneg; simpl.
    + apply Qlt_bool_iff in Hneg.
      split; [|repeat split; done].
      split; [done|]. intros (i' & Hi' & Hle). inversion Hi'; subst i'. lra.
    + apply MatchingEngine.Qlt_bool_false in Hneg.
      split; [split; [intros _; by exists i|done]|].
      split; [intros _; eexists i, _; split; [done|]; split;
              [apply lookup_insert_eq|]; simpl; done|].
      split; [done|]. split; [intros id Hne; by rewrite lookup_insert_ne|].
      split; [done|]. split; [done|].
      intros Hs id i' Hi'. simpl in Hi'. destruct (decide (id = investorId)) as [->|Hne].
      * rewrite lookup_insert_eq in Hi'. inversion Hi'; subst i'. simpl. exact Hneg.
      * rewrite lookup_insert_ne in Hi' by done. by apply (Hs id).
  - split; [|repeat split; done].
    split; [done|]. intros (i & Hi' & _). discriminate.
Qed.

(** ** Validation and settlement *)

(** The transaction id is not in table [transactions] yet. *)
Definition fresh_transaction (st : store) (transactionId : string) : Prop :=
  existsb (fun tx => String.eqb (transaction_id tx) transactionId) (transactions st) = false.

Lemma updatePortfolio_investors (st : store) (now : Z) (inv sym : string)
      (qty : Z) (p : Q) (txid : string) :
  investors (updatePortfolio st now inv sym qty p txid).2 = investors st.
Proof.
  unfold updatePortfolio. destruct (apply_holding _ _ _ _ _); [reflexivity|].
  destruct (existsb _ _); reflexivity.
Qed.


(** X13. A validated SELL can be settled: when validateOrder accepts a SELL of
    [quantity], the investor holds at least that many shares, and the calls
    that settle the seller's side of an execution of part of it
    ([0 < q <= quantity]), updatePortfolio with [-q] and updateBalance with
    [+(q * p)], both succeed; the holding keeps the shares that are left at
    its average price and is deleted when none is left. *)
Theorem validated_sell_settles (st : store) (now : Z) (investorId stockSymbol : string)
        (quantity : Z) (price : Q) (q : Z) (p : Q) (transactionId : string) :
  valid (validateOrder st investorId stockSymbol (OTStr "SELL") quantity price) = true ->
  0 < q <= quantity -> (0 <= p)%Q -> solvent st ->
  fresh_transaction st transactionId ->
  let r1 := updatePortfolio st now investorId stockSymbol (- q) p transactionId in
  let r2 := updateBalance r1.2 investorId (inject_Z q * p) in
  success r1.1 = true /\ bal_success r2.1 = true
  /\ exists h,
      portfolio st !! (investorId, stockSymbol) = Some h
      /\ quantity <= PortfolioManager.quantity h
      /\ portfolio r2.2 !! (investorId, stockSymbol)
         = if decide (PortfolioManager.quantity h = q) then None
           else Some (mkHolding (PortfolioManager.quantity h - q) (average_price h)).
Proof.
  intros Hvalid Hq Hp Hsolvent Hfresh r1 r2.
  unfold validateOrder, getInvestor in Hvalid.
  destruct (investors st !! investorId) as [i|] eqn:Hi; [|discriminate].
  simpl in Hvalid.
  destruct (portfolio st !! (investorId, stockSymbol)) as [h|] eqn:Hh.
  2:{ destruct (Z.ltb_spec 0 quantity); [discriminate|lia]. }
  destruct (Z.ltb_spec (PortfolioManager.quantity h) quantity) as [|Hle]; [discriminate|].
  set (pf' := if decide (PortfolioManager.quantity h = q)
              then delete (investorId, stockSymbol) (portfolio st)
              else <[(investorId, stockSymbol) :=
                       mkHolding (PortfolioManager.quantity h - q) (average_price h)]>
                     (portfolio st)).
  assert (Happ : apply_holding (portfolio st) investorId stockSymbol (- q) p = inr pf').
  { unfold apply_holding, pf'. rewrite Hh.
    destruct (Z.ltb_spec 0 (- q)); [lia|].
    destruct (Z.ltb_spec (PortfolioManager.quantity h + - q) 0); [lia|].
    destruct (Z.eqb_spec (PortfolioManager.quantity h + - q) 0);
      destruct (decide (PortfolioManager.quantity h = q)); try lia; reflexivity. }
  destruct (updatePortfolio_transaction st now _ _ _ _ _ _ Happ Hfresh) as [Hok _].
  split; [exact Hok|].
  assert (H0q : (0 <= inject_Z q)%Q).
  { change 0%Q with (inject_Z 0). rewrite <- Zle_Qle. lia. }
  pose proof (Hsolvent _ _ Hi) as Hbal.
  assert (Hr2 : bal_success r2.1 = true /\ portfolio r2.2 = portfolio r1.2).
  { unfold r2, updateBalance, getInvestor. unfold r1.
    rewrite updatePortfolio_investors, Hi. simpl.
    destruct (Qlt_bool (balance i + inject_Z q * p) 0) eqn:Hneg; simpl.
    - apply Qlt_bool_iff in Hneg. nra.
    - by split. }
  destruct Hr2 as [Hok2 Hpf]. split; [exact Hok2|].
  exists h. split; [reflexivity|]. split; [exact Hle|].
  rewrite Hpf. unfold r1. rewrite (updatePortfolio_portfolio _ _ _ _ _ _ _ _ Happ).
  unfold pf'. destruct (decide (PortfolioManager.quantity h = q)).
  - apply lookup_delete_eq.
  - apply lookup_insert_eq.
Qed.

(** ** Holdings *)

(** Every stored holding has a positive quantity. *)
Definition positive_holdings (st : store) : Prop :=
  forall k h, portfolio st !! k = Some h -> 0 < PortfolioManager.quantity h.

(** X14. updatePortfolio never stores a holding of zero or negative quantity,
    whatever it is called with: a purchase adds a positive quantity, and a
    sale is refused when it exceeds the holding and deletes the holding when
    it empties it. *)
Theorem updatePortfolio_positive_holdings (st : store) (now : Z) (inv sym : string)
        (qty : Z) (p : Q) (txid : string) :
  positive_holdings st ->
  positive_holdings (updatePortfolio st now inv sym qty p txid).2.
Proof.
  intros Hpos k h' Hk.
  destruct (decide (k = (inv, sym))) as [->|Hne].
  2:{ rewrite updatePortfolio_frame in Hk by done. by apply (Hpos k). }
  destruct (apply_holding (portfolio st) inv sym qty p) as [msg|pf'] eqn:Happ.
  { rewrite (updatePortfolio_refused _ _ _ _ _ _ _ _ Happ) in Hk. by apply (Hpos (inv, sym)). }
  rewrite (updatePortfolio_portfolio _ _ _ _ _ _ _ _ Happ) in Hk.
  unfold apply_holding in Happ.
  destruct (Z.ltb_spec 0 qty); destruct (portfolio st !! (inv, sym)) as [h|] eqn:Hh;
    try discriminate.
  - inversion Happ; subst. rewrite lookup_insert_eq in Hk. inversion Hk; subst. simpl.
    pose proof (Hpos _ _ Hh). lia.
  - inversion Happ; subst. rewrite lookup_insert_eq in Hk. inversion Hk; subst. simpl. lia.
  - destruct (Z.ltb_spec (PortfolioManager.quantity h + qty) 0); [discriminate|].
    destruct (Z.eqb_spec (PortfolioManager.quantity h + qty) 0); inversion Happ; subst.
    + by rewrite lookup_delete_eq in Hk.
    + rewrite lookup_insert_eq in Hk. inversion Hk; subst. simpl. lia.
Qed.

(** ** Reading the tables *)

(** A row of the answer of getTransactionHistory. *)
Record transaction_view : Type := mkTransactionView {
  tv_transaction_id : string;
  tv_stock_symbol : string;
  tv_type : transaction_type;
  tv_quantity : Z;
  tv_price : Q;
  tv_total_amount : Q;
  tv_timestamp : Z
}.

Definition view_of (tx : transaction) : transaction_view :=
  mkTransactionView (transaction_id tx) (tx_stock_symbol tx) (type tx) (tx_quantity tx)
                    (tx_price tx) (total_amount tx) (timestamp tx).

(** The WHERE clause the method builds: the bounds are added only when the
    argument is truthy, so that 0 (like an absent argument) is no bound. *)
Definition in_history (investorId : string) (startTime endTime : Z) (tx : transaction)
  : Prop :=
  tx_investor_id tx = investorId
  /\ (startTime ≠ 0 -> startTime <= timestamp tx)
  /\ (endTime ≠ 0 -> timestamp tx <= endTime).

#[local] Instance in_history_dec investorId startTime endTime tx :
  Decision (in_history investorId startTime endTime tx).
Proof. unfold in_history. apply _. Defined.

(** ORDER BY timestamp DESC: a row comes after the rows of a later timestamp. *)
Definition older (a b : transaction) : bool := Z.ltb (timestamp a) (timestamp b).

(** The rows the query of getTransactionHistory selects; LIMIT is added only
    for a positive [limit]. *)
Definition history_rows (st : store) (investorId : string)
           (limit startTime endTime : Z) : list transaction :=
  let selected := filter (in_history investorId startTime endTime) (transactions st) in
  let ordered := stable_sort older selected in
  if Z.ltb 0 limit then take (Z.to_nat limit) ordered else ordered.

(** getTransactionHistory(investorId, limit, startTime, endTime), on numbers. *)
Definition getTransactionHistory (st : store) (investorId : string)
           (limit startTime endTime : Z) : list transaction_view :=
  view_of <$> history_rows st investorId limit startTime endTime.

Lemma older_order :
  (forall x y, older x y = true -> older y x = false)
  /\ (forall x y z, older x y = false -> older y z = false -> older x z = false).
Proof.
  unfold older. split.
  - intros x y H. apply Z.ltb_lt in H. apply Z.ltb_ge. lia.
  - intros x y z H1 H2. apply Z.ltb_ge in H1, H2. apply Z.ltb_ge. lia.
Qed.

(** X16. The history is the investor's transactions of the time window, newest
    first: the rows answered together with the rows cut off by the limit are
    exactly the transactions of the investor within the bounds (a bound of 0
    is no bound); timestamps never increase along the answer; every row cut
    off is at most as recent as every row answered; a positive limit bounds
    the number of rows and a limit of 0 or less cuts nothing off. *)
Theorem getTransactionHistory_newest_first (st : store) (investorId : string)
        (limit startTime endTime : Z) :
  exists rows rest,
    getTransactionHistory st investorId limit startTime endTime = view_of <$> rows
    /\ rows ++ rest ≡ₚ filter (in_history investorId startTime endTime) (transactions st)
    /\ (forall i j x y, (i < j)%nat -> rows !! i = Some x -> rows !! j = Some y ->
                        timestamp y <= timestamp x)
    /\ (forall x y, x ∈ rows -> y ∈ rest -> timestamp y <= timestamp x)
    /\ (0 < limit -> Z.of_nat (length rows) = Z.min limit (Z.of_nat (length (rows ++ rest))))
    /\ (limit <= 0 -> rest = []).
Proof.
  unfold getTransactionHistory, history_rows.
  set (selected := filter _ _).
  destruct older_order as [Hasym Htrans].
  pose proof (stable_sort_in_order older Hasym Htrans selected) as Hord.
  pose proof (stable_sort_perm older selected) as Hperm.
  set (ordered := stable_sort older selected) in *.
  assert (Hdesc : forall i j x y, (i < j)%nat -> ordered !! i = Some x ->
                                  ordered !! j = Some y -> timestamp y <= timestamp x).
  { intros i j x y Hij Hx Hy. specialize (Hord i j x y Hij Hx Hy).
    unfold older in Hord. apply Z.ltb_ge in Hord. exact Hord. }
  destruct (Z.ltb_spec 0 limit) as [Hpos|Hnon].
  - exists (take (Z.to_nat limit) ordered), (drop (Z.to_nat limit) ordered).
    split; [reflexivity|]. rewrite take_drop. split; [exact Hperm|].
    split; [|split; [|split; [|lia]]].
    + intros i j x y Hij Hx Hy.
      apply lookup_take_Some in Hx as [Hx _]. apply lookup_take_Some in Hy as [Hy _].
      by apply (Hdesc i j).
    + intros x y Hx Hy.
      apply list_elem_of_lookup in Hx as [i Hx]. apply list_elem_of_lookup in Hy as [j Hy].
      apply lookup_take_Some in Hx as [Hx Hi]. rewrite lookup_drop in Hy.
      apply (Hdesc i (Z.to_nat limit + j)%nat); [lia|done|done].
    + intros _. rewrite length_take. lia.
  - exists ordered, []. split; [reflexivity|]. rewrite app_nil_r.
    split; [exact Hperm|]. split; [exact Hdesc|].
    split; [intros x y _ Hy; by apply elem_of_nil in Hy|]. split; [lia|done].
Qed.

(** A number that may be NaN ([None]). *)
Definition js_number : Type := option Q.

Definition js_add (x y : js_number) : js_number :=
  match x, y with
  | Some a, Some b => Some (a + b)%Q
  | _, _ => None
  end.

Definition js_sub (x y : js_number) : js_number :=
  match x, y with
  | Some a, Some b => Some (a - b)%Q
  | _, _ => None
  end.

Definition js_mul (x y : js_number) : js_number :=
  match x, y with
  | Some a, Some b => Some (a * b)%Q
  | _, _ => None
  end.

(** The number [x] is the rational [q]. *)
Definition is_number (x : js_number) (q : Q) : Prop :=
  match x with
  | Some a => (a == q)%Q
  | None => False
  end.

(** An entry of the answer of getPortfolio. *)
Record portfolio_item : Type := mkItem {
  it_stock_symbol : string;
  it_quantity : Z;
  it_average_price : Q;
  current_value : js_number;
  profit_loss : js_number
}.

Record portfolio_view : Type := mkPortfolioView {
  pv_investor_id : string;
  holdings : list portfolio_item;
  total_value : js_number;
  total_profit_loss : js_number
}.

(** [currentPrices[symbol] || average_price], as a factor of a product: the
    average price stands in for a price that is missing or 0.  For a symbol
    that has no price of its own in [currentPrices] and names a member every
    object inherits, the lookup finds that member, which is truthy and, as a
    factor, NaN. *)
Definition current_price (currentPrices : gmap string Q) (stockSymbol : string)
           (h : holding) : js_number :=
  match currentPrices !! stockSymbol with
  | Some p => Some (if Qeq_bool p 0 then average_price h else p)
  | None => if inherited stockSymbol then None else Some (average_price h)
  end.

Definition item_of (currentPrices : gmap string Q) (row : string * string * holding)
  : portfolio_item :=
  let currentPrice := current_price currentPrices row.1.2 row.2 in
  let currentValue := js_mul (Some (inject_Z (PortfolioManager.quantity row.2))) currentPrice in
  let costBasis :=
    Some (inject_Z (PortfolioManager.quantity row.2) * average_price row.2)%Q in
  mkItem row.1.2 (PortfolioManager.quantity row.2) (average_price row.2)
         currentValue (js_sub currentValue costBasis).

(** getPortfolio(investorId, currentPrices) *)
Definition getPortfolio (st : store) (investorId : string)
           (currentPrices : gmap string Q) : portfolio_view :=
  let rows := filter (fun row => row.1.1 = investorId) (map_to_list (portfolio st)) in
  let portfolioItems := item_of currentPrices <$> rows in
  mkPortfolioView investorId portfolioItems
    (foldl (fun totalValue it => js_add totalValue (current_value it)) (Some 0%Q)
           portfolioItems)
    (foldl (fun totalProfitLoss it => js_add totalProfitLoss (profit_loss it)) (Some 0%Q)
           portfolioItems).



(** ** An investor with cash and shares *)

(** Ann has a balance of 2000 and holds 10 AAPL bought at 140. *)
Definition funded : store :=
  mkStore {[ "inv-1" := mkInvestor "inv-1" "Ann" "ann@example.org" 2000 1 ]}
          {[ ("inv-1", "AAPL") := mkHolding 10 140 ]}
          [mkTransaction "tx-1" "inv-1" "AAPL" BUY 10 140 1400 2].

Lemma funded_solvent : solvent funded.
Proof.
  intros id i Hi. unfold funded in Hi. simpl in Hi.
  apply lookup_singleton_Some in Hi as [_ <-]. simpl. lra.
Qed.

Lemma funded_positive_holdings : positive_holdings funded.
Proof.
  intros k h Hk. unfold funded in Hk. simpl in Hk.
  apply lookup_singleton_Some in Hk as [_ <-]. simpl. lia.
Qed.


Lemma validated_sell_settles_witness :
  let r1 := updatePortfolio funded 3 "inv-1" "AAPL" (- 10) 150 "tx-2" in
  let r2 := updateBalance r1.2 "inv-1" (inject_Z 10 * 150) in
  success r1.1 = true /\ bal_success r2.1 = true
  /\ exists h,
      portfolio funded !! ("inv-1", "AAPL") = Some h
      /\ 10 <= quantity h
      /\ portfolio r2.2 !! ("inv-1", "AAPL")
         = if decide (quantity h = 10) then None
           else Some (mkHolding (quantity h - 10) (average_price h)).
Proof.
  apply (validated_sell_settles funded 3 "inv-1" "AAPL" 10 150 10 150 "tx-2").
  - reflexivity.
  - lia.
  - discriminate.
  - exact funded_solvent.
  - reflexivity.
Defined.

Lemma updatePortfolio_positive_holdings_witness :
  positive_holdings (updatePortfolio funded 3 "inv-1" "AAPL" (- 10) 150 "tx-2").2.
Proof.
  apply (updatePortfolio_positive_holdings funded 3 "inv-1" "AAPL" (- 10) 150 "tx-2").
  exact funded_positive_holdings.
Defined.

(** Ann's history of two trades, read with a limit of 1 and without one, and
    her portfolio valued at 150. *)
Example funded_history :
  let st := (updatePortfolio funded 3 "inv-1" "AAPL" (- 4) 150 "tx-2").2 in
  (tv_transaction_id <$> getTransactionHistory st "inv-1" 1 0 0) = ["tx-2"]
  /\ (tv_transaction_id <$> getTransactionHistory st "inv-1" 0 0 0) = ["tx-2"; "tx-1"]
  /\ (tv_transaction_id <$> getTransactionHistory st "inv-1" 0 0 2) = ["tx-1"]
  /\ is_number (total_profit_loss (getPortfolio st "inv-1" {[ "AAPL" := 150%Q ]})) 60
  /\ is_number (total_profit_loss (getPortfolio st "inv-1" ∅)) 0.
Proof. vm_compute. repeat split. Qed.

(** A holding of the symbol 'constructor', read without prices: its value,
    its profit and the totals are NaN. *)
Example getPortfolio_inherited_symbol :
  let st := (updatePortfolio funded 3 "inv-1" "constructor" 1 10 "tx-2").2 in
  total_value (getPortfolio st "inv-1" ∅) = None
  /\ total_profit_loss (getPortfolio st "inv-1" ∅) = None
  /\ is_number (total_profit_loss (getPortfolio st "inv-1" {[ "constructor" := 12%Q ]})) 2.
Proof. vm_compute. repeat split. Qed.
End PortfolioManager.

(** ** The market service (market-service/server.js) *)
Module MarketService.

Import MatchingEngine.

(** The value of [marketState]: one of the three names, or a member that
    [stateMap] inherits (setMarketState stores whatever truthy value the
    lookup finds). *)
Inductive market_state : Type :=
| OPEN
| CLOSED
| PAUSED
| Member (key : string).

(** The text of [marketState] in a template literal.  An inherited member is
    a native function, printed with its name, or the prototype object. *)
Definition market_state_name (m : market_state) : string :=
  match m with
  | OPEN => "OPEN"
  | CLOSED => "CLOSED"
  | PAUSED => "PAUSED"
  | Member key =>
    if String.eqb key "__proto__" then "[object Object]"
    else "function " +:+ (if String.eqb key "constructor" then "Object" else key)
         +:+ "() { [native code] }"
  end.

(** The request and the answer of PlaceOrder. *)
Record place_order_request : Type := mkRequest {
  req_investor_id : string;
  req_stock_symbol : string;
  req_order_type : js_order_type;
  req_quantity : Z;
  req_price : Q
}.

Record place_order_response : Type := mkResponse {
  resp_order_id : string;
  resp_success : bool;
  resp_message : string;
  resp_status : order_status
}.

(** The [reason] texts of UpdateBalance. *)
Inductive balance_reason : Type :=
| Purchase (quantity : Z) (stock_symbol : string)
| Sale (quantity : Z) (stock_symbol : string).

(** The calls the service sends to the price, investor and analytics
    services.  They are sent without waiting for the answer; the model keeps
    the requests, in the order they are sent. *)
Inductive rpc : Type :=
| UpdatePrice (stock_symbol : string) (trade_price : Q) (trade_volume : Z) (is_buy : bool)
| GetPrice_then_UpdatePrice (stock_symbol : string) (trade_volume : Z) (is_buy : bool)
| UpdatePortfolio (investor_id stock_symbol : string) (quantity_change : Z) (price : Q)
                  (transaction_id : string)
| UpdateBalance (investor_id : string) (amount : Q) (reason : balance_reason)
| RecordTrade (stock_symbol order_type : string) (quantity : Z) (price : Q)
              (investor_id : string) (timestamp : Z).

(** What the service works on: its market state, its matching engine, table
    [orders] of the shared database, the store the investor service answers
    ValidateOrder from, and the calls sent so far. *)
Record world : Type := mkWorld {
  marketState : market_state;
  matchingEngine : engine;
  orders_table : gmap string order;
  investorService : PortfolioManager.store;
  calls : list rpc
}.

Definition set_draws (s : engine) (n : nat) : engine :=
  mkEngine (orderBooks s) (orders s) (events s) n.

(** [order_type === 0 ? 'BUY' : 'SELL'] *)
Definition side_name (t : js_order_type) : string :=
  match t with
  | OTNum 0 => "BUY"
  | _ => "SELL"
  end.

(** The direction of the price update of processExecution (lines 191-207),
    from the two entries of [matchingEngine.orders]. *)
Definition isBuyPressure (buyOrder sellOrder : option order) : bool :=
  match buyOrder, sellOrder with
  | Some buyOrder, Some sellOrder =>
    if is_market buyOrder && negb (is_market sellOrder) then true
    else if is_market sellOrder && negb (is_market buyOrder) then false
    else if Z.ltb (created_at sellOrder) (created_at buyOrder) then true
    else false
  | _, _ => true
  end.

Section Service.

Variable uuidv4 : nat -> string.
Variable Date_now : nat -> Z.

(** processExecution(execution) *)
Definition processExecution (w : world) (execution : execution) : world :=
  let eng := matchingEngine w in
  let stock_symbol := ex_stock_symbol execution in
  let quantity := ex_quantity execution in
  let price := ex_price execution in
  let buyOrder := orders eng !! buy_order_id execution in
  let sellOrder := orders eng !! sell_order_id execution in
  let n := draws eng in
  mkWorld (marketState w)
          (set_draws eng (n + 4))
          (orders_table w)
          (investorService w)
          (calls w ++
             [ UpdatePrice stock_symbol price quantity (isBuyPressure buyOrder sellOrder);
               UpdatePortfolio (buyer_id execution) stock_symbol quantity price (uuidv4 n);
               UpdateBalance (buyer_id execution) (- (inject_Z quantity * price))%Q
                             (Purchase quantity stock_symbol);
               UpdatePortfolio (seller_id execution) stock_symbol (- quantity) price
                               (uuidv4 (n + 1));
               UpdateBalance (seller_id execution) (inject_Z quantity * price)%Q
                             (Sale quantity stock_symbol);
               RecordTrade stock_symbol "BUY" quantity price (buyer_id execution)
                           (Date_now (n + 2));
               RecordTrade stock_symbol "SELL" quantity price (seller_id execution)
                           (Date_now (n + 3)) ]).

(** The call sent when the admitted order produced no execution:
    [Math.floor(quantity * 0.3)] is the reduced volume. *)
Definition placement_pressure (req : place_order_request) : rpc :=
  let isBuyOrder := match req_order_type req with OTNum 0 => true | _ => false end in
  let volume := Qfloor (inject_Z (req_quantity req) * (3 # 10)) in
  if Qeq_bool (req_price req) 0
  then GetPrice_then_UpdatePrice (req_stock_symbol req) volume isBuyOrder
  else UpdatePrice (req_stock_symbol req) (req_price req) volume isBuyOrder.

(** placeOrder(call, callback): the answer handed to [callback] and the
    world after the call.  [None] only if the engine ran out of fuel, which
    [addOrder_quiescent] excludes.  An error thrown on the way (by the INSERT
    or by addOrder) is caught and answered with its message. *)
Definition placeOrder (w : world) (req : place_order_request)
  : option (place_order_response * world) :=
  match marketState w with
  | CLOSED | PAUSED | Member _ =>
    Some (mkResponse "" false ("Market is " +:+ market_state_name (marketState w)) REJECTED, w)
  | OPEN =>
    let validation :=
      PortfolioManager.validateOrder (investorService w)
        (req_investor_id req) (req_stock_symbol req)
        (OTStr (side_name (req_order_type req))) (req_quantity req) (req_price req) in
    if negb (PortfolioManager.valid validation)
    then Some (mkResponse "" false (PortfolioManager.val_message validation) REJECTED, w)
    else
      let eng := matchingEngine w in
      let n := draws eng in
      let order :=
        mkOrder (uuidv4 n) (req_investor_id req) (req_stock_symbol req)
                (req_order_type req) (req_quantity req) (req_price req)
                0 PENDING (Date_now (n + 1)) (Date_now (n + 2)) in
      let eng1 := set_draws eng (n + 3) in
      match orders_table w !! order_id order with
      | Some _ =>
        (* the INSERT fails on the key; the catch block answers *)
        Some (mkResponse "" false
                         "SQLITE_CONSTRAINT: UNIQUE constraint failed: orders.order_id"
                         REJECTED,
              mkWorld (marketState w) eng1 (orders_table w) (investorService w) (calls w))
      | None =>
        let row :=
          mkOrder (order_id order) (investor_id order) (stock_symbol order)
                  (OTStr (side_name (req_order_type req))) (quantity order) (price order)
                  (filled_quantity order) (status order)
                  (created_at order) (updated_at order) in
        if addOrder_throws order eng1
        then
          (* addOrder throws once the row is inserted and the order stored;
             the catch block answers *)
          Some (mkResponse "" false "Cannot read properties of undefined (reading 'push')"
                           REJECTED,
                mkWorld (marketState w) (addOrder_thrown order eng1)
                        (<[order_id order := row]> (orders_table w))
                        (investorService w) (calls w))
        else
        match addOrder uuidv4 Date_now order eng1 with
        | None => None
        | Some (executions, eng2) =>
          let w2 :=
            mkWorld (marketState w) eng2 (<[order_id order := row]> (orders_table w))
                    (investorService w)
                    (calls w ++
                       if bool_decide (length executions = 0%nat)
                       then [placement_pressure req] else []) in
          let w3 := fold_left processExecution executions w2 in
          match getOrderStatus (matchingEngine w3) (order_id order) with
          | Some updatedOrder =>
            Some (mkResponse (order_id order) true "Order placed successfully"
                             (os_status updatedOrder), w3)
          | None =>
            Some (mkResponse "" false "Cannot read properties of null (reading 'status')"
                             REJECTED, w3)
          end
        end
      end
  end.

(** placeOrder always answers. *)
Lemma placeOrder_returns (w : world) (req : place_order_request) :
  exists resp w', placeOrder w req = Some (resp, w').
Proof.
  unfold placeOrder.
  destruct (marketState w); [|eauto..].
  destruct (negb _); [eauto|].
  destruct (orders_table w !! _); [eauto|].
  destruct (addOrder_throws _ _); [eauto|].
  match goal with |- context [addOrder _ _ ?o ?s] =>
    destruct (addOrder_quiescent uuidv4 Date_now o s) as (execs & s' & -> & _)
  end.
  destruct (getOrderStatus _ _); eauto.
Qed.

(** *** Rejection *)

(** While the market is not open every order is rejected, and nothing
    changes. *)
Lemma placeOrder_market_not_open (w : world) (req : place_order_request) :
  marketState w ≠ OPEN ->
  exists resp,
    placeOrder w req = Some (resp, w) /\ resp_status resp = REJECTED.
Proof.
  intros Hstate. unfold placeOrder.
  destruct (marketState w); [congruence|..]; eexists; split; reflexivity.
Qed.

(** C6. A PlaceOrder whose validation by the investor service fails answers
    REJECTED (no order id, no success, the message of the validation) and
    leaves everything as it was: the engine with its books, its orders and
    the events it has published, table [orders], and the calls sent. *)
Theorem placeOrder_rejected (w : world) (req : place_order_request) :
  marketState w = OPEN ->
  PortfolioManager.valid
    (PortfolioManager.validateOrder (investorService w)
       (req_investor_id req) (req_stock_symbol req)
       (OTStr (side_name (req_order_type req))) (req_quantity req) (req_price req))
  = false ->
  exists resp,
    placeOrder w req = Some (resp, w)
    /\ resp_status resp = REJECTED
    /\ resp_success resp = false
    /\ resp_order_id resp = ""
    /\ resp_message resp
       = PortfolioManager.val_message
           (PortfolioManager.validateOrder (investorService w)
              (req_investor_id req) (req_stock_symbol req)
              (OTStr (side_name (req_order_type req))) (req_quantity req) (req_price req)).
Proof.
  intros Hopen Hinvalid. unfold placeOrder. rewrite Hopen, Hinvalid. simpl.
  eexists. split; [reflexivity|]. simpl. auto.
Qed.

(** A buyer whose balance is below quantity * price is such a case. *)
Lemma validateOrder_insufficient_balance (st : PortfolioManager.store)
      (investorId stockSymbol : string) (inv : PortfolioManager.investor)
      (qty : Z) (p : Q) :
  PortfolioManager.investors st !! investorId = Some inv ->
  (PortfolioManager.balance inv < inject_Z qty * p)%Q ->
  PortfolioManager.validateOrder st investorId stockSymbol (OTStr "BUY") qty p
  = PortfolioManager.mkValidation false "Insufficient balance" (inject_Z qty * p) 0.
Proof.
  intros Hinv Hlt. unfold PortfolioManager.validateOrder, PortfolioManager.getInvestor.
  rewrite Hinv. simpl. unfold Qlt_bool.
  destruct (Qle_bool (inject_Z qty * p) (PortfolioManager.balance inv)) eqn:Hle;
    [|reflexivity].
  apply Qle_bool_iff in Hle. apply Qle_not_lt in Hle. contradiction.
Qed.

(** *** The direction of the price update *)

(** The direction processExecution sends with UpdatePrice, where the two
    orders differ in kind or in creation time: when exactly one of them is a
    market order (price 0) its side decides, buy pressure for the buy order
    and sell pressure for the sell order; when neither is a market order and
    their creation times differ, the order created later decides. *)
Theorem processExecution_direction (w : world) (e : execution) (b a : order) :
  orders (matchingEngine w) !! buy_order_id e = Some b ->
  orders (matchingEngine w) !! sell_order_id e = Some a ->
  exists is_buy rest,
    calls (processExecution w e)
    = calls w ++ UpdatePrice (ex_stock_symbol e) (ex_price e) (ex_quantity e) is_buy :: rest
    /\ ((price b == 0)%Q -> ~ (price a == 0)%Q -> is_buy = true)
    /\ ((price a == 0)%Q -> ~ (price b == 0)%Q -> is_buy = false)
    /\ (~ (price b == 0)%Q -> ~ (price a == 0)%Q ->
        created_at a < created_at b -> is_buy = true)
    /\ (~ (price b == 0)%Q -> ~ (price a == 0)%Q ->
        created_at b < created_at a -> is_buy = false).
Proof.
  intros Hb Ha. unfold processExecution. rewrite Hb, Ha. simpl.
  eexists _, _. split; [reflexivity|].
  unfold is_market.
  destruct (Qeq_bool (price b) 0) eqn:Hmb; destruct (Qeq_bool (price a) 0) eqn:Hma;
    simpl.
  all: repeat match goal with
              | H : Qeq_bool _ _ = true |- _ => apply Qeq_bool_iff in H
              | H : Qeq_bool _ _ = false |- _ => apply Qeq_bool_neq in H
              end.
  all: repeat split; intros; try contradiction; try reflexivity.
  all: destruct (Z.ltb_spec (created_at a) (created_at b)); try reflexivity; lia.
Qed.

(** Two limit orders created in the same millisecond: sell pressure,
    whichever of the two arrived later. *)
Lemma processExecution_tie (w : world) (e : execution) (b a : order) :
  orders (matchingEngine w) !! buy_order_id e = Some b ->
  orders (matchingEngine w) !! sell_order_id e = Some a ->
  ~ (price b == 0)%Q -> ~ (price a == 0)%Q ->
  created_at b = created_at a ->
  exists rest,
    calls (processExecution w e)
    = calls w ++ UpdatePrice (ex_stock_symbol e) (ex_price e) (ex_quantity e) false :: rest.
Proof.
  intros Hb Ha Hnb Hna Htie. unfold processExecution. rewrite Hb, Ha. simpl.
  eexists. do 2 f_equal.
  unfold is_market.
  destruct (Qeq_bool (price b) 0) eqn:Hmb; [by apply Qeq_bool_iff in Hmb|].
  destruct (Qeq_bool (price a) 0) eqn:Hma; [by apply Qeq_bool_iff in Hma|].
  simpl. rewrite Htie. by rewrite Z.ltb_irrefl.
Qed.

End Service.

(** Scenario 3 of the specification: an investor with a balance of 100 asks
    to BUY 10 AAPL @ 150. *)
Definition scenario3_world : world :=
  mkWorld OPEN init ∅
          (PortfolioManager.registerInvestor PortfolioManager.empty
             "inv-3" 1 "Bob" "bob@example.org" 100).2
          [].

Definition scenario3_request : place_order_request :=
  mkRequest "inv-3" "AAPL" (OTNum 0) 10 150.

Lemma placeOrder_rejected_witness :
  exists resp,
    placeOrder some_uuid some_clock scenario3_world scenario3_request
    = Some (resp, scenario3_world)
    /\ resp_status resp = REJECTED
    /\ resp_success resp = false
    /\ resp_order_id resp = ""
    /\ resp_message resp = "Insufficient balance".
Proof.
  apply (placeOrder_rejected some_uuid some_clock scenario3_world scenario3_request).
  - reflexivity.
  - reflexivity.
Defined.

(** Scenario 5 of the specification, through the engine: the resting SELL
    100 @ 150 is admitted, then the market BUY 100. *)
Definition scenario5_run : option (list execution * engine) :=
  match addOrder some_uuid some_clock resting_sell init with
  | Some (_, s1) => addOrder some_uuid some_clock market_buy s1
  | None => None
  end.

(** Scenario 5 through PlaceOrder: S, who holds 100 AAPL, places SELL 100 @
    150, which rests; B places a market BUY 100, which is filled at 150, and
    the price update of the settlement is sent with buy pressure. *)
Example scenario5_place_orders :
  let investors :=
    (PortfolioManager.registerInvestor
       (PortfolioManager.registerInvestor PortfolioManager.empty
          "S" 1 "Sam" "sam@example.org" 0).2
       "B" 2 "Bea" "bea@example.org" 0).2 in
  let store :=
    PortfolioManager.mkStore (PortfolioManager.investors investors)
      {[ ("S", "AAPL") := PortfolioManager.mkHolding 100 140 ]} [] in
  let w0 := mkWorld OPEN init ∅ store [] in
  exists r1 w1 r2 w2 rest,
    placeOrder some_uuid some_clock w0 (mkRequest "S" "AAPL" (OTNum 1) 100 150)
    = Some (r1, w1)
    /\ resp_status r1 = PENDING
    /\ placeOrder some_uuid some_clock w1 (mkRequest "B" "AAPL" (OTNum 0) 100 0)
       = Some (r2, w2)
    /\ resp_status r2 = FILLED
    /\ calls w2
       = calls w1 ++ UpdatePrice "AAPL" 150 100 true
                  :: UpdatePortfolio "B" "AAPL" 100 150 "id-10"
                  :: UpdateBalance "B" (-15000) (Purchase 100 "AAPL")
                  :: rest.
Proof.
  simpl. eexists _, _, _, _, _.
  split; [vm_compute; reflexivity|]. split; [reflexivity|].
  split; [vm_compute; reflexivity|]. split; [reflexivity|].
  vm_compute. reflexivity.
Qed.

(** A clock that does not advance: all its readings fall in one millisecond. *)
Definition same_millisecond (n : nat) : Z := 1000.

(** C5 (where the code departs from it).  S, who holds 10 AAPL, places a
    limit SELL 10 @ 150, which rests; B then places a limit BUY 10 @ 150
    within the same millisecond, which is filled at 150.  Neither order is a
    market order and the BUY arrived later, yet the price update of the
    settlement is sent with sell pressure: the two orders have the same
    [created_at], and [buyOrder.created_at > sellOrder.created_at] leaves
    the tie to the branch of the seller. *)
Theorem processExecution_same_millisecond :
  let investors :=
    (PortfolioManager.registerInvestor
       (PortfolioManager.registerInvestor PortfolioManager.empty
          "S" 1 "Sam" "sam@example.org" 0).2
       "B" 2 "Bea" "bea@example.org" 2000).2 in
  let store :=
    PortfolioManager.mkStore (PortfolioManager.investors investors)
      {[ ("S", "AAPL") := PortfolioManager.mkHolding 10 140 ]} [] in
  let w0 := mkWorld OPEN init ∅ store [] in
  exists r1 w1 r2 w2 sell buy rest,
    placeOrder some_uuid same_millisecond w0 (mkRequest "S" "AAPL" (OTNum 1) 10 150)
    = Some (r1, w1)
    /\ resp_status r1 = PENDING
    /\ placeOrder some_uuid same_millisecond w1 (mkRequest "B" "AAPL" (OTNum 0) 10 150)
       = Some (r2, w2)
    /\ resp_status r2 = FILLED
    /\ orders (matchingEngine w2) !! resp_order_id r1 = Some sell
    /\ orders (matchingEngine w2) !! resp_order_id r2 = Some buy
    /\ price sell = 150%Q /\ price buy = 150%Q
    /\ created_at sell = created_at buy
    /\ calls w2
       = calls w1 ++ UpdatePrice "AAPL" 150 10 false
                  :: UpdatePortfolio "B" "AAPL" 10 150 "id-10"
                  :: UpdateBalance "B" (-1500) (Purchase 10 "AAPL")
                  :: rest.
Proof.
  simpl. eexists _, _, _, _, _, _, _.
  split; [vm_compute; reflexivity|]. split; [reflexivity|].
  split; [vm_compute; reflexivity|]. split; [reflexivity|].
  split; [vm_compute; reflexivity|]. split; [vm_compute; reflexivity|].
  split; [reflexivity|]. split; [reflexivity|]. split; [reflexivity|].
  vm_compute. reflexivity.
Qed.

Lemma processExecution_direction_witness :
  exists e eng,
    scenario5_run = Some ([e], eng)
    /\ ex_price e = 150%Q
    /\ exists is_buy rest,
        calls (processExecution some_uuid some_clock
                 (mkWorld OPEN eng ∅ PortfolioManager.empty []) e)
        = [] ++ UpdatePrice "AAPL" 150 100 is_buy :: rest
        /\ is_buy = true.
Proof.
  eexists _, _. split; [vm_compute; reflexivity|]. split; [reflexivity|].
  match goal with |- context [processExecution _ _ ?w ?e] =>
    pose proof (fun b a => processExecution_direction some_uuid some_clock w e b a) as Hdir
  end.
  edestruct Hdir as (is_buy & rest & Hcalls & Hbuy & _);
    [vm_compute; reflexivity | vm_compute; reflexivity |].
  exists is_buy, rest. split; [exact Hcalls|].
  apply Hbuy; [reflexivity | discriminate].
Defined.


(** ** The market state (getMarketState, setMarketState) *)

(** The [state] of a SetMarketState request, a number or a string. *)
Inductive js_key : Type :=
| KNum (n : Z)
| KStr (s : string).

(** The property name a value is looked up by: a number by its decimal
    form. *)
Definition property_key (state : js_key) : string :=
  match state with
  | KNum n => pretty n
  | KStr s => s
  end.

(** [const stateMap = { 0: 'OPEN', 1: 'CLOSED', 2: 'PAUSED' }] *)
Definition stateMap : gmap string market_state :=
  {[ "0" := OPEN; "1" := CLOSED; "2" := PAUSED ]}.

(** [stateMap[state]]: an own property of the literal, or else a member the
    literal inherits from Object.prototype; [None] is undefined. *)
Definition stateMap_get (key : string) : option market_state :=
  match stateMap !! key with
  | Some m => Some m
  | None => if inherited key then Some (Member key) else None
  end.

(** setMarketState(call, callback): the answer ([success], [message]) and
    the world after the call.  Every value [stateMap] holds or inherits is
    truthy, so ['OPEN'] replaces undefined only. *)
Definition setMarketState (w : world) (state : js_key) : bool * string * world :=
  let marketState := default OPEN (stateMap_get (property_key state)) in
  (true, "Market state set to " +:+ market_state_name marketState,
   mkWorld marketState (matchingEngine w) (orders_table w) (investorService w) (calls w)).

(** getMarketState(call, callback): the [state] of the answer. *)
Definition getMarketState (w : world) : Z :=
  match marketState w with
  | OPEN => 0
  | CLOSED => 1
  | PAUSED => 2
  | Member _ => 2
  end.

(** ** Accepted orders and their settlement *)








Section Settlement.

Variable uuidv4 : nat -> string.
Variable Date_now : nat -> Z.








(** X20. The market state gates PlaceOrder.  getMarketState answers the code that
    setMarketState was given when it is 0, 1 or 2.  A value opens the market
    unless it is 1 or 2 (the number or the string) or names a member that
    [stateMap] inherits from Object.prototype, such as 'constructor': such a
    member becomes the market state, and getMarketState answers 2 for it.
    setMarketState changes nothing but the state, and while the state is not
    OPEN every PlaceOrder is rejected with 'Market is ' followed by the
    state, and changes nothing. *)
Theorem market_state_gate (w : world) (state : js_key) :
  let w' := (setMarketState w state).2 in
  (forall n, 0 <= n <= 2 -> state = KNum n -> getMarketState w' = n)
  /\ (getMarketState w' ≠ 0 ->
      property_key state ∈ ["1"; "2"] \/ inherited (property_key state) = true)
  /\ (inherited (property_key state) = true ->
      marketState w' = Member (property_key state) /\ getMarketState w' = 2)
  /\ (matchingEngine w', orders_table w', investorService w', calls w')
     = (matchingEngine w, orders_table w, investorService w, calls w)
  /\ (getMarketState w' ≠ 0 ->
      forall req,
        placeOrder uuidv4 Date_now w' req
        = Some (mkResponse "" false
                           ("Market is " +:+ market_state_name (marketState w'))
                           REJECTED, w')).
Proof.
  simpl. split; [|split; [|split; [|split; [reflexivity|]]]].
  - intros n Hn ->. unfold getMarketState; simpl.
    assert (n = 0 \/ n = 1 \/ n = 2) as [->|[->| ->]] by lia; reflexivity.
  - unfold getMarketState, stateMap_get; simpl. intros Hne.
    destruct (decide (property_key state = "1")) as [->|H1]; [left; set_solver|].
    destruct (decide (property_key state = "2")) as [->|H2]; [left; set_solver|].
    right. destruct (decide (property_key state = "0")) as [H0|H0].
    { exfalso. apply Hne. by rewrite H0. }
    revert Hne. unfold stateMap.
    rewrite !lookup_insert_ne, lookup_singleton_ne by done.
    by destruct (inherited (property_key state)).
  - intros Hin. unfold getMarketState, stateMap_get; simpl.
    assert (Hnone : stateMap !! property_key state = None).
    { unfold stateMap.
      rewrite !lookup_insert_ne, lookup_singleton_ne; [done|..];
        intros Heq; rewrite <- Heq in Hin; vm_compute in Hin; discriminate. }
    by rewrite Hnone, Hin.
  - unfold getMarketState, placeOrder; simpl. intros Hne req.
    destruct (default OPEN (stateMap_get (property_key state))); [done|reflexivity..].
Qed.

(** SetMarketState with the state 'constructor': the market is neither OPEN,
    CLOSED nor PAUSED, getMarketState answers 2 and orders are refused. *)
Example market_state_constructor :
  let w' := (setMarketState (mkWorld OPEN init ∅ PortfolioManager.empty [])
                            (KStr "constructor")).2 in
  marketState w' = Member "constructor"
  /\ getMarketState w' = 2
  /\ (setMarketState (mkWorld OPEN init ∅ PortfolioManager.empty [])
                     (KStr "constructor")).1.2
     = "Market state set to function Object() { [native code] }".
Proof. vm_compute. done. Qed.

End Settlement.



(** A valid BUY for the symbol 'constructor' on an open market: addOrder
    throws once the row is inserted and the order stored, and the answer is a
    rejection. *)
Example placeOrder_inherited_symbol :
  let w := mkWorld OPEN init ∅
             (PortfolioManager.mkStore
                {[ "B" := PortfolioManager.mkInvestor "B" "Bea" "bea@example.org" 1000 1 ]}
                ∅ [])
             [] in
  exists w',
    placeOrder some_uuid some_clock w (mkRequest "B" "constructor" (OTNum 0) 1 10)
    = Some (mkResponse "" false "Cannot read properties of undefined (reading 'push')"
                       REJECTED, w')
    /\ is_Some (orders_table w' !! some_uuid 0)
    /\ is_Some (orders (matchingEngine w') !! some_uuid 0)
    /\ orderBooks (matchingEngine w') = ∅
    /\ calls w' = [].
Proof.
  simpl. eexists. split; [reflexivity|].
  simpl. rewrite !lookup_insert_eq. repeat split; eauto.
Qed.

(** ** Settlement at the investor service *)

Section Delivery.

Variable uuidv4 : nat -> string.
Variable Date_now : nat -> Z.

(** The clock of the investor service, read for the n-th row of table
    [transactions]. *)
Variable investor_now : nat -> Z.






End Delivery.


End MarketService.

(** ** The analytics engine (analytics-service/analytics-engine.js) *)
Module AnalyticsEngine.

(** A row of table [analytics_trades]; the table is the list of its rows in
    insertion order. *)
Record trade : Type := mkTrade {
  stock_symbol : string;
  order_type : string;
  quantity : Z;
  price : Q;
  investor_id : string;
  timestamp : Z
}.

(** recordTrade(stockSymbol, orderType, quantity, price, investorId, timestamp) *)
Definition recordTrade (trades : list trade) (stockSymbol orderType : string)
           (quantity : Z) (price : Q) (investorId : string) (timestamp : Z) : list trade :=
  trades ++ [mkTrade stockSymbol orderType quantity price investorId timestamp].

(** A row of the answer of getTopTradedStocks. *)
Record traded_stock : Type := mkTradedStock {
  ts_stock_symbol : string;
  total_volume : Z;
  trade_count : Z;
  total_value : Q
}.

(** [SUM(quantity)] and [SUM(quantity * price)] *)
Definition sum_quantity (rows : list trade) : Z :=
  foldr (fun t acc => quantity t + acc) 0 rows.

Definition sum_value (rows : list trade) : Q :=
  foldr (fun t acc => (inject_Z (quantity t) * price t + acc)%Q) 0%Q rows.

(** [WHERE timestamp >= ?] *)
Definition since (cutoffTime : Z) (rows : list trade) : list trade :=
  filter (fun t => cutoffTime <= timestamp t) rows.

(** The rows of one group of [GROUP BY stock_symbol]. *)
Definition group (rows : list trade) (symbol : string) : list trade :=
  filter (fun t => stock_symbol t = symbol) rows.

(** The groups of [GROUP BY stock_symbol]: one per symbol that occurs, in
    ascending order of the symbol (SQLite groups by sorting on the key). *)
Definition group_keys (rows : list trade) : list string :=
  stable_sort (fun a b => String.ltb b a) (remove_dups (stock_symbol <$> rows)).

Definition aggregate (rows : list trade) (symbol : string) : traded_stock :=
  let g := group rows symbol in
  mkTradedStock symbol (sum_quantity g) (Z.of_nat (length g)) (sum_value g).

(** [ORDER BY total_volume DESC]: a row comes after the rows of greater
    volume.  SQL leaves the order of rows of equal volume open; here they
    keep the order of the groups. *)
Definition order_by_total_volume_desc (rows : list traded_stock) : list traded_stock :=
  stable_sort (fun a b => Z.ltb (total_volume a) (total_volume b)) rows.

(** [LIMIT ?]: a negative limit is no limit in SQLite. *)
Definition sql_limit {A : Type} (limit : Z) (rows : list A) : list A :=
  if Z.ltb limit 0 then rows else take (Z.to_nat limit) rows.

(** getTopTradedStocks(limit, timePeriod), with the clock reading [now]. *)
Definition getTopTradedStocks (trades : list trade) (now : Z) (limit timePeriod : Z)
  : list traded_stock :=
  let cutoffTime := now - timePeriod in
  let rows := since cutoffTime trades in
  sql_limit limit
    (order_by_total_volume_desc (aggregate rows <$> group_keys rows)).

Inductive risk_level : Type := LOW | MEDIUM | HIGH.

(** The part of the answer of getInvestorPerformance that the risk level is
    computed from; profit and loss and the win rate do not enter it and are
    left out. *)
Record performance : Type := mkPerformance {
  perf_investor_id : string;
  total_trades : nat;
  average_trade_size : Q;
  risk : risk_level
}.

Definition sum_amount (txs : list PortfolioManager.transaction) : Q :=
  fold_left (fun sum tx => (sum + PortfolioManager.total_amount tx)%Q) txs 0%Q.

(** Lines 277-283 of getInvestorPerformance. *)
Definition riskLevel (averageTradeSize : Q) (length : nat) : risk_level :=
  if Qlt_bool 10000 averageTradeSize || Nat.ltb 50 length then HIGH
  else if Qlt_bool 5000 averageTradeSize || Nat.ltb 20 length then MEDIUM
  else LOW.

(** getInvestorPerformance(investorId) over table [transactions]. *)
Definition getInvestorPerformance (table : list PortfolioManager.transaction)
           (investorId : string) : performance :=
  let transactions :=
    filter (fun tx => PortfolioManager.tx_investor_id tx = investorId) table in
  if bool_decide (length transactions = 0%nat)
  then mkPerformance investorId 0 0 LOW
  else
    let totalTradeValue := sum_amount transactions in
    let averageTradeSize :=
      (totalTradeValue / inject_Z (Z.of_nat (length transactions)))%Q in
    mkPerformance investorId (length transactions) averageTradeSize
                  (riskLevel averageTradeSize (length transactions)).

(** *** getTopTradedStocks *)

Lemma group_keys_elem_of (rows : list trade) (k : string) :
  k ∈ group_keys rows <-> exists t, t ∈ rows /\ stock_symbol t = k.
Proof.
  unfold group_keys. rewrite stable_sort_elem_of, elem_of_remove_dups, list_elem_of_fmap.
  split; intros (t & H1 & H2); exists t; auto.
Qed.

Lemma group_keys_NoDup (rows : list trade) : NoDup (group_keys rows).
Proof. unfold group_keys. rewrite stable_sort_perm. apply NoDup_remove_dups. Qed.

(** The rows before the limit: one per group, in descending order of volume. *)
Definition ranked (rows : list trade) : list traded_stock :=
  order_by_total_volume_desc (aggregate rows <$> group_keys rows).

Lemma ranked_elem_of (rows : list trade) (r : traded_stock) :
  r ∈ ranked rows <-> exists k, r = aggregate rows k /\ k ∈ group_keys rows.
Proof.
  unfold ranked, order_by_total_volume_desc.
  by rewrite stable_sort_elem_of, list_elem_of_fmap.
Qed.

Lemma ranked_symbols (rows : list trade) :
  ts_stock_symbol <$> ranked rows ≡ₚ group_keys rows.
Proof.
  unfold ranked, order_by_total_volume_desc. rewrite stable_sort_perm.
  rewrite <- list_fmap_compose.
  rewrite (list_fmap_ext _ id (group_keys rows)) by reflexivity.
  by rewrite list_fmap_id.
Qed.

Lemma ranked_descending (rows : list trade) (i j : nat) (x y : traded_stock) :
  (i < j)%nat -> ranked rows !! i = Some x -> ranked rows !! j = Some y ->
  total_volume y <= total_volume x.
Proof.
  intros Hij Hx Hy.
  assert (H : Z.ltb (total_volume x) (total_volume y) = false); [|lia].
  unfold ranked, order_by_total_volume_desc in Hx, Hy.
  eapply (stable_sort_in_order (fun a b => Z.ltb (total_volume a) (total_volume b)));
    [| |exact Hij|exact Hx|exact Hy].
  - intros a b. simpl. lia.
  - intros a b c. simpl. lia.
Qed.

(** The ranking in the words of the specification: by total quantity, ties
    broken by trade count (of two symbols with the same quantity, the one
    with more trades first). *)
Definition ranked_as_specified (res : list traded_stock) : Prop :=
  forall i j x y,
    (i < j)%nat -> res !! i = Some x -> res !! j = Some y ->
    total_volume y < total_volume x
    \/ (total_volume y = total_volume x /\ trade_count y <= trade_count x).

(** Two symbols with the same traded quantity, in one trade and in two. *)
Definition tied_trades : list trade :=
  [ mkTrade "A" "BUY" 10 100 "inv-1" 950;
    mkTrade "B" "BUY" 5 100 "inv-1" 960;
    mkTrade "B" "SELL" 5 100 "inv-2" 970 ].

Definition tied_trades_mirrored : list trade :=
  [ mkTrade "A" "BUY" 5 100 "inv-1" 950;
    mkTrade "A" "SELL" 5 100 "inv-2" 960;
    mkTrade "B" "BUY" 10 100 "inv-1" 970 ].

(** C7, as stated, fails: with now = 1000 and a window of 100, A (one trade
    of 10) is ranked before B (two trades of 5), and it is again A that comes
    first when A has the two trades; a trade stamped after [now] is counted,
    the query having no upper bound on the timestamp; and a negative limit
    does not bound the answer. *)
Lemma top_traded_ties_counterexample :
  ~ ranked_as_specified (getTopTradedStocks tied_trades 1000 10 100)
  /\ getTopTradedStocks tied_trades 1000 10 100
     = [mkTradedStock "A" 10 1 1000; mkTradedStock "B" 10 2 1000]
  /\ getTopTradedStocks tied_trades_mirrored 1000 10 100
     = [mkTradedStock "A" 10 2 1000; mkTradedStock "B" 10 1 1000]
  /\ getTopTradedStocks [mkTrade "A" "BUY" 10 100 "inv-1" 5000] 1000 10 100
     = [mkTradedStock "A" 10 1 1000]
  /\ length (getTopTradedStocks tied_trades 1000 (-1) 100) = 2%nat.
Proof.
  split; [|by vm_compute].
  intros H.
  specialize (H 0%nat 1%nat (mkTradedStock "A" 10 1 1000) (mkTradedStock "B" 10 2 1000)).
  simpl in H. destruct H as [H|[_ H]]; [lia|reflexivity|reflexivity|lia|lia].
Qed.

(** C7, amended.  For a limit that is not negative, getTopTradedStocks
    answers at most [limit] rows, one per symbol, in descending order of
    total traded quantity; the row of a symbol sums the quantities and counts
    the trades of that symbol stamped at or after [now - timePeriod] (there
    is at least one); and a symbol traded since then that is not in the
    answer has a total quantity no greater than that of any row of a full
    answer.  Nothing orders the symbols of equal quantity by trade count. *)
Theorem getTopTradedStocks_ranking (trades : list trade) (now limit timePeriod : Z) :
  0 <= limit ->
  let rows := since (now - timePeriod) trades in
  let res := getTopTradedStocks trades now limit timePeriod in
  (length res <= Z.to_nat limit)%nat
  /\ (forall i j x y, (i < j)%nat -> res !! i = Some x -> res !! j = Some y ->
                      total_volume y <= total_volume x)
  /\ (forall r, r ∈ res ->
        r = aggregate rows (ts_stock_symbol r)
        /\ exists t, t ∈ trades /\ now - timePeriod <= timestamp t
                     /\ stock_symbol t = ts_stock_symbol r)
  /\ NoDup (ts_stock_symbol <$> res)
  /\ (forall t, t ∈ trades -> now - timePeriod <= timestamp t ->
        aggregate rows (stock_symbol t) ∈ res
        \/ (length res = Z.to_nat limit
            /\ forall r, r ∈ res ->
                 total_volume (aggregate rows (stock_symbol t)) <= total_volume r)).
Proof.
  intros Hlimit rows res.
  assert (Hres : res = take (Z.to_nat limit) (ranked rows)).
  { unfold res, getTopTradedStocks, sql_limit.
    destruct (Z.ltb_spec limit 0); [lia | reflexivity]. }
  rewrite Hres. clear Hres res.
  split; [|split; [|split; [|split]]].
  - rewrite length_take. lia.
  - intros i j x y Hij Hx Hy.
    apply lookup_take_Some in Hx as [Hx _]. apply lookup_take_Some in Hy as [Hy _].
    by apply (ranked_descending rows i j).
  - intros r Hr. apply elem_of_take in Hr as (i & Hr & _).
    assert (Hin : r ∈ ranked rows) by (apply list_elem_of_lookup; eauto).
    apply ranked_elem_of in Hin as (k & -> & Hk). simpl. split; [reflexivity|].
    apply group_keys_elem_of in Hk as (t & Ht & Hsym).
    apply list_elem_of_filter in Ht as [Hsince Ht]. eauto.
  - rewrite fmap_take. eapply sublist_NoDup; [|apply sublist_take].
    rewrite ranked_symbols. apply group_keys_NoDup.
  - intros t Ht Hsince.
    assert (Hin : aggregate rows (stock_symbol t) ∈ ranked rows).
    { apply ranked_elem_of. exists (stock_symbol t). split; [reflexivity|].
      apply group_keys_elem_of. exists t. split; [|reflexivity].
      apply list_elem_of_filter. by split. }
    apply list_elem_of_lookup in Hin as (j & Hj).
    destruct (decide (j < Z.to_nat limit)%nat) as [Hlt|Hge].
    + left. apply elem_of_take. eauto.
    + right. pose proof (lookup_lt_Some _ _ _ Hj) as Hlen. split.
      * rewrite length_take. lia.
      * intros r Hr. apply elem_of_take in Hr as (i & Hr & Hi).
        apply (ranked_descending rows i j); [lia|done|done].
Qed.

Lemma getTopTradedStocks_ranking_witness :
  let rows := since (1000 - 100) tied_trades in
  let res := getTopTradedStocks tied_trades 1000 1 100 in
  (length res <= Z.to_nat 1)%nat
  /\ (forall i j x y, (i < j)%nat -> res !! i = Some x -> res !! j = Some y ->
                      total_volume y <= total_volume x)
  /\ (forall r, r ∈ res ->
        r = aggregate rows (ts_stock_symbol r)
        /\ exists t, t ∈ tied_trades /\ 1000 - 100 <= timestamp t
                     /\ stock_symbol t = ts_stock_symbol r)
  /\ NoDup (ts_stock_symbol <$> res)
  /\ (forall t, t ∈ tied_trades -> 1000 - 100 <= timestamp t ->
        aggregate rows (stock_symbol t) ∈ res
        \/ (length res = Z.to_nat 1
            /\ forall r, r ∈ res ->
                 total_volume (aggregate rows (stock_symbol t)) <= total_volume r)).
Proof. apply (getTopTradedStocks_ranking tied_trades 1000 1 100). lia. Defined.

(** *** The risk level of getInvestorPerformance *)

Lemma riskLevel_cases (avg : Q) (n : nat) :
  (riskLevel avg n = HIGH <-> (10000 < avg)%Q \/ (50 < n)%nat)
  /\ (riskLevel avg n = MEDIUM <->
      ~ ((10000 < avg)%Q \/ (50 < n)%nat) /\ ((5000 < avg)%Q \/ (20 < n)%nat))
  /\ (riskLevel avg n = LOW <-> (avg <= 5000)%Q /\ (n <= 20)%nat).
Proof.
  assert (Hle : (avg <= 5000)%Q <-> ~ (5000 < avg)%Q).
  { split; [apply Qle_not_lt | apply Qnot_lt_le]. }
  assert (Hmono : (10000 < avg)%Q -> (5000 < avg)%Q) by (intros; lra).
  rewrite Hle. unfold riskLevel.
  pose proof (Qlt_bool_iff 10000 avg) as B1.
  pose proof (Qlt_bool_iff 5000 avg) as B2.
  destruct (Qlt_bool 10000 avg); destruct (Nat.ltb_spec 50 n);
    destruct (Qlt_bool 5000 avg); destruct (Nat.ltb_spec 20 n); simpl;
    intuition (first [discriminate | lia | auto]).
Qed.

Lemma sum_amount_from (txs : list PortfolioManager.transaction) (a : Q) :
  (fold_left (fun sum tx => sum + PortfolioManager.total_amount tx) txs a
   == a + sum_amount txs)%Q.
Proof.
  unfold sum_amount. revert a. induction txs as [|tx txs IH]; intros a; simpl.
  - ring.
  - rewrite IH, (IH (0 + _)%Q). ring.
Qed.

(** The classification in the words of the specification. *)
Definition riskLevel_as_specified (averageTradeSize : Q) (length : nat) : risk_level :=
  if Qle_bool 10000 averageTradeSize || Nat.ltb 50 length then HIGH
  else if Qle_bool 5000 averageTradeSize || Nat.ltb 20 length then MEDIUM
  else LOW.

Definition one_trade_of (amount : Q) : list PortfolioManager.transaction :=
  [PortfolioManager.mkTransaction "tx-1" "inv-1" "AAPL" PortfolioManager.BUY
                                  100 (amount / 100) amount 1].

(** C8, as stated, fails: an investor whose only trade is worth exactly
    10000 has an average trade size of 10000 and is classified MEDIUM, not
    HIGH; one whose only trade is worth exactly 5000 is classified LOW, not
    MEDIUM. *)
Lemma risk_level_counterexample :
  let r := getInvestorPerformance (one_trade_of 10000) "inv-1" in
  let r' := getInvestorPerformance (one_trade_of 5000) "inv-1" in
  (average_trade_size r == 10000)%Q /\ total_trades r = 1%nat
  /\ risk r = MEDIUM
  /\ riskLevel_as_specified (average_trade_size r) (total_trades r) = HIGH
  /\ (average_trade_size r' == 5000)%Q /\ total_trades r' = 1%nat
  /\ risk r' = LOW
  /\ riskLevel_as_specified (average_trade_size r') (total_trades r') = MEDIUM.
Proof. vm_compute. repeat split. Qed.

(** C8, amended.  getInvestorPerformance classifies the risk as HIGH when
    the average trade size exceeds 10000 or there are more than 50 trades,
    as MEDIUM when that is not so and the average trade size exceeds 5000 or
    there are more than 20 trades, and as LOW otherwise; the average trade
    size is the sum of the amounts of the investor's transactions over their
    number. *)
Theorem risk_level_thresholds (table : list PortfolioManager.transaction)
        (investorId : string) :
  let txs := filter (fun tx => PortfolioManager.tx_investor_id tx = investorId) table in
  let r := getInvestorPerformance table investorId in
  (risk r = HIGH <-> (10000 < average_trade_size r)%Q \/ (50 < total_trades r)%nat)
  /\ (risk r = MEDIUM <->
      ~ ((10000 < average_trade_size r)%Q \/ (50 < total_trades r)%nat)
      /\ ((5000 < average_trade_size r)%Q \/ (20 < total_trades r)%nat))
  /\ (risk r = LOW <-> (average_trade_size r <= 5000)%Q /\ (total_trades r <= 20)%nat)
  /\ total_trades r = length txs
  /\ (average_trade_size r * inject_Z (Z.of_nat (length txs)) == sum_amount txs)%Q.
Proof.
  intros txs r.
  assert (Hrisk : risk r = riskLevel (average_trade_size r) (total_trades r)).
  { unfold r, getInvestorPerformance. fold txs. by destruct (bool_decide _). }
  rewrite Hrisk.
  destruct (riskLevel_cases (average_trade_size r) (total_trades r)) as (H1 & H2 & H3).
  split; [exact H1|]. split; [exact H2|]. split; [exact H3|].
  unfold r, getInvestorPerformance. fold txs.
  destruct (bool_decide (length txs = 0%nat)) eqn:Hlen; simpl.
  - apply bool_decide_eq_true in Hlen. split; [by rewrite Hlen|].
    destruct txs; [|discriminate]. reflexivity.
  - apply bool_decide_eq_false in Hlen. split; [reflexivity|].
    rewrite Qmult_comm. apply Qmult_div_r.
    apply inject_Z_nonzero. lia.
Qed.


(** *** Volume is conserved by the ranking *)

Definition volume_sum (res : list traded_stock) : Z :=
  foldr (fun r acc => total_volume r + acc) 0 res.

Definition count_sum (res : list traded_stock) : Z :=
  foldr (fun r acc => trade_count r + acc) 0 res.

Lemma volume_sum_perm (l1 l2 : list traded_stock) :
  l1 ≡ₚ l2 -> volume_sum l1 = volume_sum l2 /\ count_sum l1 = count_sum l2.
Proof.
  induction 1 as [|x l1 l2 _ [IHv IHc]|x y l|l1 l2 l3 _ [IH1 IH1'] _ [IH2 IH2']];
    simpl; split; lia.
Qed.

Lemma sums_cons (r : traded_stock) (res : list traded_stock) :
  volume_sum (r :: res) = total_volume r + volume_sum res
  /\ count_sum (r :: res) = trade_count r + count_sum res.
Proof. split; reflexivity. Qed.

(** Each row falls in the group of exactly one of the keys. *)
Lemma groups_partition (rows : list trade) (keys : list string) :
  NoDup keys ->
  (forall t, t ∈ rows -> stock_symbol t ∈ keys) ->
  volume_sum (aggregate rows <$> keys) = sum_quantity rows
  /\ count_sum (aggregate rows <$> keys) = Z.of_nat (length rows).
Proof.
  intros Hnd. induction rows as [|t rows IH]; intros Hin.
  - clear Hnd Hin. induction keys as [|k keys [IHv IHc]]; [split; reflexivity|].
    rewrite fmap_cons. destruct (sums_cons (aggregate [] k) (aggregate [] <$> keys)) as [-> ->].
    rewrite IHv, IHc. split; reflexivity.
  - destruct IH as [IHv IHc].
    { intros t' Ht'. apply Hin. by right. }
    assert (Hkey : stock_symbol t ∈ keys) by (apply Hin; left).
    assert (Hstep : forall ks, NoDup ks ->
              volume_sum (aggregate (t :: rows) <$> ks)
              = volume_sum (aggregate rows <$> ks)
                + (if bool_decide (stock_symbol t ∈ ks) then quantity t else 0)
              /\ count_sum (aggregate (t :: rows) <$> ks)
                 = count_sum (aggregate rows <$> ks)
                   + (if bool_decide (stock_symbol t ∈ ks) then 1 else 0)).
    { clear. intros ks Hks. induction Hks as [|k ks Hk Hks [IHv IHc]].
      - split; reflexivity.
      - rewrite !fmap_cons.
        destruct (sums_cons (aggregate (t :: rows) k) (aggregate (t :: rows) <$> ks))
          as [-> ->].
        destruct (sums_cons (aggregate rows k) (aggregate rows <$> ks)) as [-> ->].
        rewrite IHv, IHc. unfold aggregate, group; simpl.
        destruct (decide (stock_symbol t = k)) as [Heq|Hne].
        + rewrite filter_cons_True by exact Heq. simpl.
          rewrite (bool_decide_eq_true_2 (stock_symbol t ∈ k :: ks)) by (rewrite Heq; left).
          rewrite (bool_decide_eq_false_2 (stock_symbol t ∈ ks)) by (by rewrite Heq).
          split; lia.
        + rewrite filter_cons_False by exact Hne.
          destruct (decide (stock_symbol t ∈ ks)) as [Hin|Hnin].
          * rewrite (bool_decide_eq_true_2 (stock_symbol t ∈ k :: ks)) by (by right).
            rewrite (bool_decide_eq_true_2 _ Hin). split; lia.
          * rewrite (bool_decide_eq_false_2 (stock_symbol t ∈ k :: ks)).
            2:{ intros H. apply elem_of_cons in H as [H|H]; [by apply Hne|by apply Hnin]. }
            rewrite (bool_decide_eq_false_2 _ Hnin). split; lia. }
    destruct (Hstep keys Hnd) as [Hv Hc].
    rewrite (bool_decide_eq_true_2 _ Hkey) in Hv, Hc.
    rewrite Hv, Hc, IHv, IHc. simpl. split; lia.
Qed.

(** X21. When the limit cuts nothing off (it is negative, or there are no more
    symbols than it allows), the answer of getTopTradedStocks accounts for
    every trade of the window once: its volumes add up to the traded
    quantity and its trade counts to the number of trades. *)
Theorem getTopTradedStocks_conserves_volume (trades : list trade)
        (now limit timePeriod : Z) :
  let rows := since (now - timePeriod) trades in
  let res := getTopTradedStocks trades now limit timePeriod in
  limit < 0 \/ Z.of_nat (length (group_keys rows)) <= limit ->
  volume_sum res = sum_quantity rows /\ count_sum res = Z.of_nat (length rows).
Proof.
  intros rows res Hlimit.
  assert (Hres : res = ranked rows).
  { unfold res, getTopTradedStocks, sql_limit. fold rows. fold (ranked rows).
    destruct (Z.ltb_spec limit 0); [reflexivity|].
    apply take_ge. destruct Hlimit as [|Hlimit]; [lia|].
    unfold ranked, order_by_total_volume_desc.
    rewrite stable_sort_length, length_fmap. lia. }
  rewrite Hres.
  assert (Hperm : ranked rows ≡ₚ aggregate rows <$> group_keys rows).
  { unfold ranked, order_by_total_volume_desc. apply stable_sort_perm. }
  destruct (volume_sum_perm _ _ Hperm) as [-> ->].
  apply groups_partition; [apply group_keys_NoDup|].
  intros t Ht. apply group_keys_elem_of. eauto.
Qed.

Lemma getTopTradedStocks_conserves_volume_witness :
  let rows := since (1000 - 100) tied_trades in
  let res := getTopTradedStocks tied_trades 1000 (-1) 100 in
  volume_sum res = sum_quantity rows /\ count_sum res = Z.of_nat (length rows).
Proof.
  apply (getTopTradedStocks_conserves_volume tied_trades 1000 (-1) 100).
  left. lia.
Defined.

(** *** getTradingVolume *)

(** An entry of [data_points]. *)
Record data_point : Type := mkDataPoint {
  dp_timestamp : Z;
  volume : Z;
  dp_trade_count : Z;
  dp_average_price : Q
}.

(** The query of getTradingVolume: the trades of the symbol stamped within
    [startTime, endTime], in ascending order of the timestamp. *)
Definition volume_trades (table : list trade) (stockSymbol : string)
           (startTime endTime : Z) : list trade :=
  stable_sort (fun a b => Z.ltb (timestamp b) (timestamp a))
    (filter (fun t => stock_symbol t = stockSymbol
                      /\ startTime <= timestamp t /\ timestamp t <= endTime) table).

(** The trades of the interval that starts at [currentInterval]. *)
Definition intervalTrades (trades : list trade) (interval currentInterval : Z)
  : list trade :=
  filter (fun t => currentInterval <= timestamp t
                   /\ timestamp t < currentInterval + interval) trades.

(** The body of the loop: a data point is pushed for an interval that has
    trades. *)
Definition push_point (trades : list trade) (interval currentInterval : Z)
           (dataPoints : list data_point) : list data_point :=
  let intervalTrades := intervalTrades trades interval currentInterval in
  if bool_decide (0 < length intervalTrades)%nat
  then
    let totalVolume := fold_left (fun sum t => sum + quantity t) intervalTrades 0 in
    let avgPrice :=
      (fold_left (fun sum t => sum + price t) intervalTrades 0
       / inject_Z (Z.of_nat (length intervalTrades)))%Q in
    dataPoints ++ [mkDataPoint currentInterval totalVolume
                               (Z.of_nat (length intervalTrades)) avgPrice]
  else dataPoints.

(** [while (currentInterval <= endTime) { ...; currentInterval += interval }],
    on integers: the sums of the loop are those of numbers as long as they
    stay within Number.MAX_SAFE_INTEGER. *)
Fixpoint volume_loop (fuel : nat) (trades : list trade) (interval endTime : Z)
         (currentInterval : Z) (dataPoints : list data_point)
  : option (list data_point) :=
  if Z.leb currentInterval endTime
  then
    match fuel with
    | O => None
    | S fuel =>
      volume_loop fuel trades interval endTime (currentInterval + interval)
                  (push_point trades interval currentInterval dataPoints)
    end
  else Some dataPoints.

(** getTradingVolume(stockSymbol, startTime, endTime, interval), on numbers;
    [None] when the loop has not ended within [fuel] iterations.  With an
    interval of 0 the start of the first interval,
    [Math.floor(startTime / 0) * 0], is NaN, the loop condition is false and
    no data point is answered. *)
Definition getTradingVolume (fuel : nat) (table : list trade) (stockSymbol : string)
           (startTime endTime interval : Z) : option (list data_point) :=
  let trades := volume_trades table stockSymbol startTime endTime in
  if Z.eqb interval 0 then Some []
  else
    let currentInterval := startTime / interval * interval in
    volume_loop fuel trades interval endTime currentInterval [].

Definition points_volume (pts : list data_point) : Z :=
  foldr (fun p acc => volume p + acc) 0 pts.

Definition points_count (pts : list data_point) : Z :=
  foldr (fun p acc => dp_trade_count p + acc) 0 pts.

Lemma points_app (l1 l2 : list data_point) :
  points_volume (l1 ++ l2) = points_volume l1 + points_volume l2
  /\ points_count (l1 ++ l2) = points_count l1 + points_count l2.
Proof. induction l1 as [|p l1 [IHv IHc]]; simpl; split; lia. Qed.

Lemma reduce_quantity (l : list trade) (a : Z) :
  fold_left (fun sum t => sum + quantity t) l a = a + sum_quantity l.
Proof.
  revert a. induction l as [|t l IH]; intros a; simpl; [lia|]. rewrite IH. lia.
Qed.

(** The trades stamped at or after [from]. *)
Definition later (from : Z) (trades : list trade) : list trade :=
  filter (fun t => from <= timestamp t) trades.

Lemma later_split (trades : list trade) (interval from : Z) :
  0 < interval ->
  sum_quantity (later from trades)
  = sum_quantity (intervalTrades trades interval from)
    + sum_quantity (later (from + interval) trades)
  /\ length (later from trades)
     = (length (intervalTrades trades interval from)
        + length (later (from + interval) trades))%nat.
Proof.
  intros Hpos. unfold later, intervalTrades.
  induction trades as [|t trades [IHq IHl]]; [split; reflexivity|].
  destruct (decide (from <= timestamp t)) as [H1|H1];
    destruct (decide (from + interval <= timestamp t)) as [H2|H2]; try lia.
  - rewrite (filter_cons_True (fun t => from <= timestamp t)) by exact H1.
    rewrite (filter_cons_True (fun t => from + interval <= timestamp t)) by exact H2.
    rewrite filter_cons_False by lia. simpl. rewrite IHq, IHl. split; lia.
  - rewrite (filter_cons_True (fun t => from <= timestamp t)) by exact H1.
    rewrite (filter_cons_False (fun t => from + interval <= timestamp t)) by exact H2.
    rewrite filter_cons_True by lia. simpl. rewrite IHq, IHl. split; lia.
  - rewrite (filter_cons_False (fun t => from <= timestamp t)) by exact H1.
    rewrite (filter_cons_False (fun t => from + interval <= timestamp t)) by exact H2.
    rewrite filter_cons_False by lia. simpl. rewrite IHq, IHl. split; lia.
Qed.

Lemma later_none (from : Z) (trades : list trade) :
  (forall t, t ∈ trades -> timestamp t < from) -> later from trades = [].
Proof.
  intros H. destruct (later from trades) as [|t l] eqn:Hl; [reflexivity|].
  assert (Hin : t ∈ later from trades) by (rewrite Hl; left).
  apply list_elem_of_filter in Hin as [Hfrom Hin]. specialize (H t Hin). lia.
Qed.

(** What holds of the data points pushed from [from] on. *)
Definition aligned (interval from endTime : Z) (p : data_point) : Prop :=
  from <= dp_timestamp p <= endTime /\ (interval | dp_timestamp p) /\ 0 < dp_trade_count p.

Definition increasing (pts : list data_point) : Prop :=
  forall i j x y, (i < j)%nat -> pts !! i = Some x -> pts !! j = Some y ->
                  dp_timestamp x < dp_timestamp y.

Lemma increasing_cons (p : data_point) (pts : list data_point) :
  Forall (fun q => dp_timestamp p < dp_timestamp q) pts -> increasing pts ->
  increasing (p :: pts).
Proof.
  intros Hp Hpts i j x y Hij Hx Hy.
  destruct j as [|j]; [lia|]. simpl in Hy. destruct i as [|i]; simpl in Hx.
  - inversion Hx; subst. eapply Forall_lookup in Hp; eauto.
  - apply (Hpts i j); [lia|done|done].
Qed.

Lemma volume_loop_spec (trades : list trade) (interval endTime : Z) (fuel : nat) :
  0 < interval ->
  (forall t, t ∈ trades -> timestamp t <= endTime) ->
  forall (from : Z) (acc : list data_point),
    (interval | from) ->
    (Z.to_nat ((endTime - from) / interval + 1) <= fuel)%nat ->
    exists pts,
      volume_loop fuel trades interval endTime from acc = Some (acc ++ pts)
      /\ points_volume pts = sum_quantity (later from trades)
      /\ points_count pts = Z.of_nat (length (later from trades))
      /\ Forall (aligned interval from endTime) pts
      /\ increasing pts.
Proof.
  intros Hpos Hend. induction fuel as [|fuel IH]; intros from acc Hdiv Hfuel.
  - assert (Hgt : endTime < from).
    { destruct (Z.lt_ge_cases endTime from) as [|Hle]; [done|].
      assert (0 <= (endTime - from) / interval) by (apply Z.div_pos; lia). lia. }
    simpl. destruct (Z.leb_spec from endTime); [lia|].
    exists []. rewrite app_nil_r. split; [reflexivity|].
    assert (Hnone : later from trades = []).
    { apply later_none. intros t Ht. specialize (Hend t Ht). lia. }
    rewrite Hnone. repeat split; try constructor.
    intros i j x y _ Hx. by destruct i.
  - simpl. destruct (Z.leb_spec from endTime) as [Hle|Hgt].
    + destruct (IH (from + interval)
                   (push_point trades interval from acc)) as (pts & Hrun & Hv & Hc & Hal & Hinc).
      { apply Z.divide_add_r; [exact Hdiv|apply Z.divide_refl]. }
      { replace (endTime - (from + interval)) with (endTime - from + (-1) * interval) by lia.
        rewrite Z.div_add by lia.
        assert (0 <= (endTime - from) / interval) by (apply Z.div_pos; lia). lia. }
      destruct (later_split trades interval from Hpos) as [Hq Hl].
      assert (Haligned : Forall (aligned interval from endTime) pts).
      { eapply Forall_impl; [exact Hal|]. intros p (H1 & H2 & H3).
        unfold aligned. repeat split; try done; lia. }
      unfold push_point in Hrun |- *.
      destruct (bool_decide (0 < length (intervalTrades trades interval from))%nat) eqn:Hany.
      * apply bool_decide_eq_true in Hany.
        eexists (_ :: pts). rewrite Hrun, <- app_assoc. split; [reflexivity|].
        simpl. rewrite reduce_quantity, Hv, Hc, Hq, Hl.
        split; [lia|]. split; [lia|]. split.
        -- constructor; [|exact Haligned]. unfold aligned; simpl.
           repeat split; try done; lia.
        -- apply increasing_cons; [|exact Hinc]. simpl.
           eapply Forall_impl; [exact Hal|]. intros p (H1 & _). lia.
      * apply bool_decide_eq_false in Hany.
        assert (Hnil : intervalTrades trades interval from = []).
        { destruct (intervalTrades trades interval from); [done|simpl in Hany; lia]. }
        exists pts. rewrite Hrun. split; [reflexivity|].
        rewrite Hv, Hc, Hq, Hl, Hnil. simpl. repeat split; try done; lia.
    + exists []. rewrite app_nil_r. split; [reflexivity|].
      assert (Hnone : later from trades = []).
      { apply later_none. intros t Ht. specialize (Hend t Ht). lia. }
      rewrite Hnone. repeat split; try constructor.
      intros i j x y _ Hx. by destruct i.
Qed.

Lemma volume_loop_more_fuel (trades : list trade) (interval endTime : Z) (fuel : nat) :
  forall (fuel' : nat) (from : Z) (acc r : list data_point),
    (fuel <= fuel')%nat ->
    volume_loop fuel trades interval endTime from acc = Some r ->
    volume_loop fuel' trades interval endTime from acc = Some r.
Proof.
  induction fuel as [|fuel IH]; intros fuel' from acc r Hle; simpl.
  - destruct (Z.leb from endTime) eqn:Hc; [discriminate|].
    intros H. destruct fuel'; simpl; by rewrite Hc.
  - destruct (Z.leb from endTime) eqn:Hc.
    + destruct fuel' as [|fuel']; [lia|]. simpl. rewrite Hc. apply IH. lia.
    + intros H. destruct fuel'; simpl; by rewrite Hc.
Qed.

Lemma later_all (from : Z) (trades : list trade) :
  (forall t, t ∈ trades -> from <= timestamp t) -> later from trades = trades.
Proof.
  unfold later. induction trades as [|t trades IH]; intros H; [reflexivity|].
  rewrite filter_cons_True by (apply H; left).
  f_equal. apply IH. intros t' Ht'. apply H. by right.
Qed.

Lemma sum_quantity_perm (l1 l2 : list trade) :
  l1 ≡ₚ l2 -> sum_quantity l1 = sum_quantity l2.
Proof. induction 1; simpl; lia. Qed.

(** The trades getTradingVolume reports on. *)
Definition traded_within (table : list trade) (stockSymbol : string)
           (startTime endTime : Z) : list trade :=
  filter (fun t => stock_symbol t = stockSymbol
                   /\ startTime <= timestamp t /\ timestamp t <= endTime) table.

(** The integers from 0 that a number holds exactly, sums included
    (Number.MAX_SAFE_INTEGER). *)
Definition MAX_SAFE_INTEGER : Z := 2 ^ 53 - 1.

(** The times of a request are integers on which the arithmetic of the loop
    is exact: [startTime], [endTime] and [endTime + interval] lie between 0
    and MAX_SAFE_INTEGER. *)
Definition safe_times (startTime endTime interval : Z) : Prop :=
  0 <= startTime <= MAX_SAFE_INTEGER
  /\ 0 <= endTime /\ endTime + interval <= MAX_SAFE_INTEGER.

(** The quantities are not negative and add up to a safe integer. *)
Definition safe_quantities (rows : list trade) : Prop :=
  Forall (fun t => 0 <= quantity t) rows /\ sum_quantity rows <= MAX_SAFE_INTEGER.

(** X22. For integer times on which the arithmetic of numbers is exact (a
    start time, an end time and an end time plus interval between 0 and
    Number.MAX_SAFE_INTEGER), a positive integer interval, and trades in the
    window whose quantities are not negative and add up to no more than
    Number.MAX_SAFE_INTEGER: the loop of getTradingVolume ends, after one
    iteration per interval from the one that holds [startTime] to the one
    that holds [endTime], and its data points account for every trade of the
    symbol stamped within [startTime, endTime] once: their volumes add up to
    the traded quantity and their counts to the number of trades.  Every
    data point starts at a multiple of the interval, later than [startTime -
    interval] and no later than [endTime], and has at least one trade; the
    data points are in ascending order of time. *)
Theorem getTradingVolume_buckets (table : list trade) (stockSymbol : string)
        (startTime endTime interval : Z) :
  0 < interval ->
  safe_times startTime endTime interval ->
  safe_quantities (traded_within table stockSymbol startTime endTime) ->
  let trades := traded_within table stockSymbol startTime endTime in
  let first := startTime / interval * interval in
  exists pts,
    (forall fuel, (Z.to_nat ((endTime - first) / interval + 1) <= fuel)%nat ->
                  getTradingVolume fuel table stockSymbol startTime endTime interval
                  = Some pts)
    /\ points_volume pts = sum_quantity trades
    /\ points_count pts = Z.of_nat (length trades)
    /\ (forall p, p ∈ pts ->
          startTime - interval < dp_timestamp p <= endTime
          /\ (interval | dp_timestamp p) /\ 0 < dp_trade_count p)
    /\ increasing pts.
Proof.
  intros Hpos _ _ trades first.
  set (sel := volume_trades table stockSymbol startTime endTime).
  assert (Hperm : sel ≡ₚ trades) by apply stable_sort_perm.
  assert (Hsel : forall t, t ∈ sel -> startTime <= timestamp t <= endTime).
  { intros t Ht. rewrite Hperm in Ht. apply list_elem_of_filter in Ht. tauto. }
  assert (Hfirst : first <= startTime < first + interval).
  { unfold first. pose proof (Z.mul_div_le startTime interval Hpos).
    pose proof (Z.mul_succ_div_gt startTime interval Hpos). lia. }
  destruct (volume_loop_spec sel interval endTime
              (Z.to_nat ((endTime - first) / interval + 1)) Hpos
              (fun t Ht => proj2 (Hsel t Ht)) first [])
    as (pts & Hrun & Hv & Hc & Hal & Hinc).
  { apply Z.divide_factor_r. }
  { lia. }
  exists pts. split; [|split; [|split; [|split]]].
  - intros fuel Hfuel. unfold getTradingVolume.
    destruct (Z.eqb_spec interval 0); [lia|].
    by apply (volume_loop_more_fuel _ _ _ _ fuel _ _ _ Hfuel).
  - rewrite Hv, later_all; [by apply sum_quantity_perm|].
    intros t Ht. specialize (Hsel t Ht). lia.
  - rewrite Hc, later_all; [by rewrite Hperm|].
    intros t Ht. specialize (Hsel t Ht). lia.
  - intros p Hp. eapply Forall_forall in Hal; [|exact Hp].
    destruct Hal as (H1 & H2 & H3). repeat split; try done; lia.
  - exact Hinc.
Qed.

(** X23. With a negative interval the loop never ends when it is entered: the
    start of the interval moves away from [endTime], and no number of
    iterations brings an answer. *)
Theorem getTradingVolume_negative_interval (table : list trade) (stockSymbol : string)
        (startTime endTime interval : Z) :
  interval < 0 ->
  startTime / interval * interval <= endTime ->
  forall fuel,
    getTradingVolume fuel table stockSymbol startTime endTime interval = None.
Proof.
  intros Hneg Hfirst fuel. unfold getTradingVolume.
  destruct (Z.eqb_spec interval 0); [lia|].
  generalize (@nil data_point).
  revert Hfirst. generalize (startTime / interval * interval).
  induction fuel as [|fuel IH]; intros from Hfrom acc; simpl;
    destruct (Z.leb_spec from endTime); try lia; [reflexivity|].
  apply IH. lia.
Qed.

Lemma getTradingVolume_buckets_witness :
  let trades := traded_within tied_trades "B" 955 975 in
  let first := 955 / 10 * 10 in
  exists pts,
    (forall fuel, (Z.to_nat ((975 - first) / 10 + 1) <= fuel)%nat ->
                  getTradingVolume fuel tied_trades "B" 955 975 10 = Some pts)
    /\ points_volume pts = sum_quantity trades
    /\ points_count pts = Z.of_nat (length trades)
    /\ (forall p, p ∈ pts ->
          955 - 10 < dp_timestamp p <= 975
          /\ (10 | dp_timestamp p) /\ 0 < dp_trade_count p)
    /\ increasing pts.
Proof.
  apply (getTradingVolume_buckets tied_trades "B" 955 975 10).
  - lia.
  - unfold safe_times, MAX_SAFE_INTEGER. lia.
  - split; [|vm_compute; discriminate].
    repeat (rewrite filter_cons; case_decide); try rewrite filter_nil;
      repeat constructor; simpl; lia.
Defined.

Lemma getTradingVolume_negative_interval_witness :
  955 / (-10) * (-10) <= 975
  /\ forall fuel, getTradingVolume fuel tied_trades "B" 955 975 (-10) = None.
Proof.
  assert (Hfirst : 955 / (-10) * (-10) <= 975) by (vm_compute; discriminate).
  split; [exact Hfirst|].
  apply (getTradingVolume_negative_interval tied_trades "B" 955 975 (-10)).
  - lia.
  - exact Hfirst.
Defined.

(** The two trades of B fall in the intervals that start at 960 and 970. *)
Example trading_volume_of_B :
  getTradingVolume 5 tied_trades "B" 955 975 10
  = Some [mkDataPoint 960 5 1 100; mkDataPoint 970 5 1 100]
  /\ getTradingVolume 5 tied_trades "B" 955 975 0 = Some [].
Proof. vm_compute. split; reflexivity. Qed.

(** *** Winning and losing trades of getInvestorPerformance *)

(** [reduce((sum, b) => sum + (b.quantity * b.price), 0)] and
    [reduce((sum, b) => sum + b.quantity, 0)] *)
Definition total_cost (txs : list PortfolioManager.transaction) : Q :=
  fold_left (fun sum b =>
               (sum + inject_Z (PortfolioManager.tx_quantity b) * PortfolioManager.tx_price b)%Q)
            txs 0%Q.

Definition total_quantity (txs : list PortfolioManager.transaction) : Z :=
  fold_left (fun sum b => sum + PortfolioManager.tx_quantity b) txs 0.

#[local] Instance transaction_type_eq_dec : EqDecision PortfolioManager.transaction_type.
Proof. solve_decision. Defined.

(** The entry of [stockPerformance] for a symbol: its buys and its sells. *)
Definition buys_of (transactions : list PortfolioManager.transaction) (symbol : string)
  : list PortfolioManager.transaction :=
  filter (fun tx => PortfolioManager.tx_stock_symbol tx = symbol
                    /\ PortfolioManager.type tx = PortfolioManager.BUY) transactions.

Definition sells_of (transactions : list PortfolioManager.transaction) (symbol : string)
  : list PortfolioManager.transaction :=
  filter (fun tx => PortfolioManager.tx_stock_symbol tx = symbol
                    /\ PortfolioManager.type tx ≠ PortfolioManager.BUY) transactions.

(** The average price of the buys or of the sells of a symbol, 0 for none.
    (The quotient is by the total quantity, which is positive when the
    quantities are.) *)
Definition average_of (txs : list PortfolioManager.transaction) : Q :=
  if bool_decide (0 < length txs)%nat
  then (total_cost txs / inject_Z (total_quantity txs))%Q
  else 0%Q.

(** One round of the loop over the symbols: the sells of a symbol count as
    winning when its average sell price exceeds its average buy price, and as
    losing otherwise. *)
Definition count_symbol (transactions : list PortfolioManager.transaction)
           (counts : Z * Z) (symbol : string) : Z * Z :=
  let buys := buys_of transactions symbol in
  let sells := sells_of transactions symbol in
  let avgBuyPrice := average_of buys in
  let avgSellPrice := average_of sells in
  if bool_decide (0 < length sells)%nat
  then
    if Qlt_bool avgBuyPrice avgSellPrice
    then (counts.1 + Z.of_nat (length sells), counts.2)
    else (counts.1, counts.2 + Z.of_nat (length sells))
  else counts.

(** The trade counts of the answer of getInvestorPerformance. *)
Record trade_counts : Type := mkTradeCounts {
  tc_total_trades : Z;
  winning_trades : Z;
  losing_trades : Z;
  win_rate : Q
}.

(** The symbols of [stockPerformance], in the order they were entered. *)
Definition traded_symbols (transactions : list PortfolioManager.transaction)
  : list string :=
  remove_dups (PortfolioManager.tx_stock_symbol <$> transactions).

(** The counting part of getInvestorPerformance(investorId). *)
Definition countTrades (table : list PortfolioManager.transaction) (investorId : string)
  : trade_counts :=
  let transactions :=
    filter (fun tx => PortfolioManager.tx_investor_id tx = investorId) table in
  if bool_decide (length transactions = 0%nat)
  then mkTradeCounts 0 0 0 0
  else
    let counts :=
      fold_left (count_symbol transactions) (traded_symbols transactions) (0, 0) in
    let winningTrades := counts.1 in
    let losingTrades := counts.2 in
    let totalTrades := winningTrades + losingTrades in
    let winRate :=
      if Z.ltb 0 totalTrades
      then (inject_Z winningTrades / inject_Z totalTrades * 100)%Q else 0%Q in
    mkTradeCounts (Z.of_nat (length transactions)) winningTrades losingTrades winRate.

(** The sells among some transactions. *)
Definition sells (transactions : list PortfolioManager.transaction)
  : list PortfolioManager.transaction :=
  filter (fun tx => PortfolioManager.type tx ≠ PortfolioManager.BUY) transactions.

Definition sold (transactions : list PortfolioManager.transaction)
           (symbols : list string) : Z :=
  foldr (fun symbol acc => Z.of_nat (length (sells_of transactions symbol)) + acc) 0 symbols.

Lemma sold_cons (tx : PortfolioManager.transaction)
      (transactions : list PortfolioManager.transaction) (symbols : list string) :
  NoDup symbols ->
  sold (tx :: transactions) symbols
  = sold transactions symbols
    + (if bool_decide (PortfolioManager.tx_stock_symbol tx ∈ symbols
                       /\ PortfolioManager.type tx ≠ PortfolioManager.BUY)
       then 1 else 0).
Proof.
  induction 1 as [|k ks Hk Hks IH].
  - rewrite bool_decide_eq_false_2; [reflexivity|]. intros [H _]. by apply elem_of_nil in H.
  - change (sold (tx :: transactions) (k :: ks))
      with (Z.of_nat (length (sells_of (tx :: transactions) k))
            + sold (tx :: transactions) ks).
    change (sold transactions (k :: ks))
      with (Z.of_nat (length (sells_of transactions k)) + sold transactions ks).
    rewrite IH. unfold sells_of.
    destruct (decide (PortfolioManager.tx_stock_symbol tx = k
                      /\ PortfolioManager.type tx ≠ PortfolioManager.BUY)) as [[Hsym Hty]|Hno].
    + rewrite filter_cons_True by done. simpl.
      rewrite (bool_decide_eq_true_2 (_ ∈ k :: ks /\ _)) by (split; [rewrite Hsym; left|done]).
      rewrite (bool_decide_eq_false_2 (_ ∈ ks /\ _)); [lia|].
      intros [Hin _]. apply Hk. by rewrite <- Hsym.
    + rewrite filter_cons_False by done.
      destruct (decide (PortfolioManager.tx_stock_symbol tx ∈ ks
                        /\ PortfolioManager.type tx ≠ PortfolioManager.BUY)) as [[Hin Hty]|Hno'].
      * rewrite (bool_decide_eq_true_2 (_ ∈ k :: ks /\ _)) by (split; [by right|done]).
        rewrite (bool_decide_eq_true_2 (_ ∈ ks /\ _)) by done. lia.
      * rewrite (bool_decide_eq_false_2 (_ ∈ k :: ks /\ _)).
        2:{ intros [Hin Hty]. apply elem_of_cons in Hin as [Hin|Hin]; [by apply Hno|by apply Hno']. }
        rewrite (bool_decide_eq_false_2 (_ ∈ ks /\ _)) by done. lia.
Qed.

Lemma sold_all (transactions : list PortfolioManager.transaction) (symbols : list string) :
  NoDup symbols ->
  (forall tx, tx ∈ transactions -> PortfolioManager.tx_stock_symbol tx ∈ symbols) ->
  sold transactions symbols = Z.of_nat (length (sells transactions)).
Proof.
  intros Hnd. induction transactions as [|tx transactions IH]; intros Hin.
  - clear. induction symbols as [|k ks IH]; simpl; [reflexivity|]. rewrite IH. reflexivity.
  - rewrite sold_cons by exact Hnd. rewrite IH by (intros tx' Htx'; apply Hin; by right).
    unfold sells.
    destruct (decide (PortfolioManager.type tx ≠ PortfolioManager.BUY)) as [Hty|Hty].
    + rewrite filter_cons_True by done.
      rewrite bool_decide_eq_true_2 by (split; [apply Hin; left|done]). simpl. lia.
    + rewrite filter_cons_False by done.
      rewrite bool_decide_eq_false_2 by (intros [_ H]; by apply Hty). lia.
Qed.

Lemma count_symbols (transactions : list PortfolioManager.transaction)
      (symbols : list string) :
  forall counts : Z * Z,
    0 <= counts.1 -> 0 <= counts.2 ->
    let counts' := fold_left (count_symbol transactions) symbols counts in
    counts'.1 + counts'.2 = counts.1 + counts.2 + sold transactions symbols
    /\ 0 <= counts'.1 /\ 0 <= counts'.2.
Proof.
  induction symbols as [|k ks IH]; intros counts H1 H2; simpl; [lia|].
  destruct (IH (count_symbol transactions counts k)) as (Hsum & Hw & Hl).
  - unfold count_symbol. destruct (bool_decide _); [|done].
    destruct (Qlt_bool _ _); simpl; lia.
  - unfold count_symbol. destruct (bool_decide _); [|done].
    destruct (Qlt_bool _ _); simpl; lia.
  - split; [|by split]. rewrite Hsum. unfold count_symbol.
    destruct (bool_decide (0 < length (sells_of transactions k))%nat) eqn:Hany.
    + destruct (Qlt_bool _ _); simpl; lia.
    + apply bool_decide_eq_false in Hany. lia.
Qed.

(** X28. In the answer of getInvestorPerformance the winning and the losing
    trades together are the investor's sell transactions, each counted once,
    while [total_trades] counts all the transactions, buys included; the win
    rate is the share of the winning trades among the sells, in percent (0
    without a sell). *)
Theorem countTrades_sells (table : list PortfolioManager.transaction)
        (investorId : string) :
  let transactions :=
    filter (fun tx => PortfolioManager.tx_investor_id tx = investorId) table in
  let r := countTrades table investorId in
  winning_trades r + losing_trades r = Z.of_nat (length (sells transactions))
  /\ 0 <= winning_trades r /\ 0 <= losing_trades r
  /\ tc_total_trades r = Z.of_nat (length transactions)
  /\ winning_trades r + losing_trades r <= tc_total_trades r
  /\ (win_rate r * inject_Z (winning_trades r + losing_trades r)
      == inject_Z (winning_trades r) * 100)%Q.
Proof.
  intros transactions r.
  assert (Hle : (length (sells transactions) <= length transactions)%nat).
  { unfold sells. apply length_filter. }
  unfold r, countTrades. fold transactions.
  destruct (bool_decide (length transactions = 0%nat)) eqn:Hnone; simpl.
  - apply bool_decide_eq_true in Hnone.
    assert (length (sells transactions) = 0%nat) as -> by lia.
    rewrite Hnone. repeat split; try reflexivity; lia.
  - destruct (count_symbols transactions (traded_symbols transactions) (0, 0))
      as (Hsum & Hw & Hl); [simpl; lia..|].
    simpl in Hsum.
    rewrite sold_all in Hsum.
    2:{ apply NoDup_remove_dups. }
    2:{ intros tx Htx. unfold traded_symbols. apply elem_of_remove_dups.
        by apply list_elem_of_fmap_2. }
    set (counts := fold_left _ _ _) in *.
    split; [lia|]. split; [exact Hw|]. split; [exact Hl|]. split; [reflexivity|].
    split; [lia|].
    destruct (Z.ltb_spec 0 (counts.1 + counts.2)) as [Hpos|Hzero].
    + field. apply inject_Z_nonzero. lia.
    + assert (counts.1 = 0) as -> by lia. assert (counts.2 = 0) as -> by lia.
      reflexivity.
Qed.

(** Two buys and one sell: three trades, of which one is counted as won. *)
Example countTrades_of_three :
  let table :=
    [ PortfolioManager.mkTransaction "tx-1" "inv-1" "AAPL" PortfolioManager.BUY
                                     10 100 1000 1;
      PortfolioManager.mkTransaction "tx-2" "inv-1" "MSFT" PortfolioManager.BUY
                                     5 300 1500 2;
      PortfolioManager.mkTransaction "tx-3" "inv-1" "AAPL" PortfolioManager.SELL
                                     10 110 1100 3 ] in
  let r := countTrades table "inv-1" in
  (tc_total_trades r, winning_trades r, losing_trades r) = (3, 1, 0)
  /\ (win_rate r == 100)%Q.
Proof. vm_compute. split; reflexivity. Qed.
End AnalyticsEngine.

(** ** The price manager (price-service/price-manager.js) *)

Module PriceManager.

(** A row of table [stocks], less its key [symbol]. *)
Record stock : Type := mkStock {
  company_name : string;
  current_price : Q;
  open_price : Q;
  high_price : Q;
  low_price : Q;
  last_updated : Z
}.

(** A row of table [price_history]. *)
Record price_point : Type := mkPricePoint {
  ph_stock_symbol : string;
  ph_price : Q;
  ph_volume : Z;
  ph_timestamp : Z
}.

(** What notifyPriceUpdate hands to the subscribers. *)
Record price_update : Type := mkPriceUpdate {
  pu_stock_symbol : string;
  pu_price : Q;
  pu_change_percent : Q;
  pu_timestamp : Z;
  trigger : string
}.

(** The tables of the service, [price_history] in insertion order, and the
    updates notified so far. *)
Record store : Type := mkStore {
  stocks : gmap string stock;
  price_history : list price_point;
  notified : list price_update
}.

Definition empty : store := mkStore ∅ [] [].

(** The answer of getPrice. *)
Record price_view : Type := mkPriceView {
  pv_stock_symbol : string;
  pv_current_price : Q;
  pv_open_price : Q;
  pv_high_price : Q;
  pv_low_price : Q;
  change_percent : Q;
  pv_last_updated : Z
}.

(** The answer of updatePrice. *)
Record update_result : Type := mkUpdateResult {
  new_price : Q;
  price_change : Q
}.

(** [Math.max] and [Math.min] on numbers. *)
Definition Math_max (a b : Q) : Q := if Qlt_bool a b then b else a.
Definition Math_min (a b : Q) : Q := if Qlt_bool b a then b else a.

(** initializeStock(stockSymbol, initialPrice, companyName), with the clock
    reading [now]: INSERT OR REPLACE of the row, and a first row of history. *)
Definition initializeStock (st : store) (now : Z) (stockSymbol : string)
           (initialPrice : Q) (companyName : string) : store :=
  mkStore (<[stockSymbol := mkStock companyName initialPrice initialPrice initialPrice
                                    initialPrice now]> (stocks st))
          (price_history st ++ [mkPricePoint stockSymbol initialPrice 0 now])
          (notified st).

(** getPrice(stockSymbol); [None] stands for the thrown 'Stock ... not found'.
    The change is a quotient by the open price: for an open price of 0 it is
    NaN or an infinity in JavaScript and 0 here, and nothing is stated of
    it. *)
Definition getPrice (st : store) (stockSymbol : string) : option price_view :=
  match stocks st !! stockSymbol with
  | None => None
  | Some stock =>
    let changePercent :=
      ((current_price stock - open_price stock) / open_price stock * 100)%Q in
    Some (mkPriceView stockSymbol (current_price stock) (open_price stock)
                      (high_price stock) (low_price stock) changePercent
                      (last_updated stock))
  end.

(** getPrices(stockSymbols): the symbols whose getPrice throws are skipped. *)
Fixpoint getPrices (st : store) (stockSymbols : list string) : list price_view :=
  match stockSymbols with
  | [] => []
  | symbol :: rest =>
    match getPrice st symbol with
    | Some price => price :: getPrices st rest
    | None => getPrices st rest
    end
  end.

(** resetDailyPrices(): every row gets its current price as open, high and
    low price. *)
Definition resetDailyPrices (st : store) : store :=
  mkStore ((fun stock => mkStock (company_name stock) (current_price stock)
                                 (current_price stock) (current_price stock)
                                 (current_price stock) (last_updated stock))
             <$> stocks st)
          (price_history st) (notified st).

Section Prices.

(** [config.market.priceVolatilityFactor], and [Math.log] on the numbers it
    is defined on: its argument [1 + tradeVolume / 100] is positive for a
    trade volume above -100, which the statements about updatePrice assume. *)
Variable volatilityFactor : Q.
Variable Math_log : Q -> Q.

(** The price updatePrice computes from the current price, with the value
    [random] drawn from [Math.random()]. *)
Definition newPrice (currentPrice : Q) (random : Q) (tradeVolume : Z) (isBuy : bool) : Q :=
  let direction := if isBuy then 1%Q else (- (1))%Q in
  let volumeImpact := Math_log (1 + inject_Z tradeVolume / 100)%Q in
  let priceChange := (currentPrice * volatilityFactor * direction * volumeImpact)%Q in
  let randomFactor := (1 + (random - (1 # 2)) * (2 # 1000))%Q in
  Math_max (1 # 100) (currentPrice + priceChange * randomFactor)%Q.

(** updatePrice(stockSymbol, tradePrice, tradeVolume, isBuy), with the clock
    reading [now] and the value [random] of [Math.random()]; [None] stands
    for the thrown 'Stock ... not found'.  The trade price is not used.  The
    change notified is a quotient by the current price, of which nothing is
    stated. *)
Definition updatePrice (st : store) (now : Z) (random : Q) (stockSymbol : string)
           (tradePrice : Q) (tradeVolume : Z) (isBuy : bool)
  : option (update_result * store) :=
  match stocks st !! stockSymbol with
  | None => None
  | Some stock =>
    let currentPrice := current_price stock in
    let newPrice := newPrice currentPrice random tradeVolume isBuy in
    let highPrice := Math_max (high_price stock) newPrice in
    let lowPrice := Math_min (low_price stock) newPrice in
    let priceChangeDelta := (newPrice - currentPrice)%Q in
    let changePercent := (priceChangeDelta / currentPrice * 100)%Q in
    Some (mkUpdateResult newPrice priceChangeDelta,
          mkStore (<[stockSymbol := mkStock (company_name stock) newPrice (open_price stock)
                                            highPrice lowPrice now]> (stocks st))
                  (price_history st ++ [mkPricePoint stockSymbol newPrice tradeVolume now])
                  (notified st ++ [mkPriceUpdate stockSymbol newPrice changePercent now
                                                 "TRADE"]))
  end.

(** What the service is asked to do. *)
Inductive command : Type :=
| Initialize (now : Z) (stockSymbol : string) (initialPrice : Q) (companyName : string)
| Update (now : Z) (random : Q) (stockSymbol : string) (tradePrice : Q) (tradeVolume : Z)
         (isBuy : bool)
| ResetDaily.

(** A failed update (unknown symbol) throws and changes nothing. *)
Definition perform (st : store) (c : command) : store :=
  match c with
  | Initialize now stockSymbol initialPrice companyName =>
    initializeStock st now stockSymbol initialPrice companyName
  | Update now random stockSymbol tradePrice tradeVolume isBuy =>
    match updatePrice st now random stockSymbol tradePrice tradeVolume isBuy with
    | Some (_, st') => st'
    | None => st
    end
  | ResetDaily => resetDailyPrices st
  end.

(** The trade volume of an update is in the domain of the logarithm. *)
Definition in_domain (c : command) : Prop :=
  match c with
  | Update _ _ _ _ tradeVolume _ => -100 < tradeVolume
  | _ => True
  end.

(** The day's band of a stock: low <= open <= high and low <= current <= high. *)
Definition in_band (stock : stock) : Prop :=
  (low_price stock <= open_price stock)%Q /\ (open_price stock <= high_price stock)%Q
  /\ (low_price stock <= current_price stock)%Q
  /\ (current_price stock <= high_price stock)%Q.

Lemma Math_max_spec (a b : Q) :
  (a <= Math_max a b)%Q /\ (b <= Math_max a b)%Q
  /\ (Math_max a b = a \/ Math_max a b = b).
Proof.
  unfold Math_max. destruct (Qlt_bool a b) eqn:H.
  - apply Qlt_bool_iff in H. repeat split; [lra|lra|by right].
  - apply MatchingEngine.Qlt_bool_false in H. repeat split; [lra|lra|by left].
Qed.

Lemma Math_min_spec (a b : Q) :
  (Math_min a b <= a)%Q /\ (Math_min a b <= b)%Q
  /\ (Math_min a b = a \/ Math_min a b = b).
Proof.
  unfold Math_min. destruct (Qlt_bool b a) eqn:H.
  - apply Qlt_bool_iff in H. repeat split; [lra|lra|by right].
  - apply MatchingEngine.Qlt_bool_false in H. repeat split; [lra|lra|by left].
Qed.

Lemma perform_in_band (st : store) (c : command) :
  (forall symbol stock, stocks st !! symbol = Some stock -> in_band stock) ->
  forall symbol stock, stocks (perform st c) !! symbol = Some stock -> in_band stock.
Proof.
  intros Hst symbol stock.
  destruct c as [now sym p name|now random sym tp tv isBuy|]; simpl.
  - destruct (decide (symbol = sym)) as [->|Hne].
    + rewrite lookup_insert_eq. intros H; inversion H; subst.
      unfold in_band; simpl. repeat split; apply Qle_refl.
    + rewrite lookup_insert_ne by done. apply Hst.
  - unfold updatePrice. destruct (stocks st !! sym) as [s0|] eqn:Hs0; [|apply Hst].
    simpl. destruct (decide (symbol = sym)) as [->|Hne].
    + rewrite lookup_insert_eq. intros H; inversion H; subst.
      destruct (Hst _ _ Hs0) as (H1 & H2 & H3 & H4).
      destruct (Math_max_spec (high_price s0)
                  (newPrice (current_price s0) random tv isBuy)) as (M1 & M2 & _).
      destruct (Math_min_spec (low_price s0)
                  (newPrice (current_price s0) random tv isBuy)) as (N1 & N2 & _).
      unfold in_band; simpl. repeat split; lra.
    + rewrite lookup_insert_ne by done. apply Hst.
  - rewrite lookup_fmap. destruct (stocks st !! symbol) as [s0|]; [|discriminate].
    simpl. intros H; inversion H; subst.
    unfold in_band; simpl. repeat split; apply Qle_refl.
Qed.

(** X24. Whatever stocks are initialized, whatever price updates are applied
    (with trade volumes above -100) and whenever the day is reset, every
    stock keeps its open price and its current price between its low and its
    high price. *)
Theorem price_band_invariant (cs : list command) :
  Forall in_domain cs ->
  forall symbol stock,
    stocks (fold_left perform cs empty) !! symbol = Some stock -> in_band stock.
Proof.
  intros _.
  assert (Hgen : forall st,
            (forall symbol stock, stocks st !! symbol = Some stock -> in_band stock) ->
            forall symbol stock,
              stocks (fold_left perform cs st) !! symbol = Some stock -> in_band stock).
  { induction cs as [|c cs IH]; intros st Hst; simpl; [exact Hst|].
    apply IH. by apply perform_in_band. }
  apply Hgen. intros symbol stock H. simpl in H. by rewrite lookup_empty in H.
Qed.

(** A stock is initialized at a price of at least 0.01. *)
Definition from_floor (c : command) : Prop :=
  match c with
  | Initialize _ _ initialPrice _ => ((1 # 100) <= initialPrice)%Q
  | _ => True
  end.

Definition above_floor (stock : stock) : Prop :=
  ((1 # 100) <= low_price stock)%Q /\ ((1 # 100) <= current_price stock)%Q
  /\ ((1 # 100) <= open_price stock)%Q /\ ((1 # 100) <= high_price stock)%Q.

Lemma perform_above_floor (st : store) (c : command) :
  from_floor c ->
  (forall symbol stock, stocks st !! symbol = Some stock -> above_floor stock) ->
  forall symbol stock, stocks (perform st c) !! symbol = Some stock -> above_floor stock.
Proof.
  intros Hc Hst symbol stock.
  destruct c as [now sym p name|now random sym tp tv isBuy|]; simpl.
  - destruct (decide (symbol = sym)) as [->|Hne].
    + rewrite lookup_insert_eq. intros H; inversion H; subst.
      unfold above_floor; simpl. simpl in Hc. repeat split; exact Hc.
    + rewrite lookup_insert_ne by done. apply Hst.
  - unfold updatePrice. destruct (stocks st !! sym) as [s0|] eqn:Hs0; [|apply Hst].
    simpl. destruct (decide (symbol = sym)) as [->|Hne].
    + rewrite lookup_insert_eq. intros H; inversion H; subst.
      destruct (Hst _ _ Hs0) as (H1 & H2 & H3 & H4).
      assert (Hnew : ((1 # 100) <= newPrice (current_price s0) random tv isBuy)%Q).
      { unfold newPrice. apply Math_max_spec. }
      destruct (Math_max_spec (high_price s0)
                  (newPrice (current_price s0) random tv isBuy)) as (M1 & _ & _).
      destruct (Math_min_spec (low_price s0)
                  (newPrice (current_price s0) random tv isBuy)) as (_ & _ & [N|N]).
      * unfold above_floor; simpl. rewrite N. repeat split; lra.
      * unfold above_floor; simpl. rewrite N. repeat split; lra.
    + rewrite lookup_insert_ne by done. apply Hst.
  - rewrite lookup_fmap. destruct (stocks st !! symbol) as [s0|] eqn:Hs0; [|discriminate].
    simpl. intros H; inversion H; subst.
    destruct (Hst _ _ Hs0) as (H1 & H2 & H3 & H4).
    unfold above_floor; simpl. repeat split; exact H2.
Qed.

(** X25. No price falls below the floor: when every stock is initialized at
    a price of at least 0.01, then whatever price updates are applied (with
    trade volumes above -100) and whenever the day is reset, the current,
    open, high and low price of every stock stay at or above 0.01; the
    quotients by the open and by the current price that getPrice and
    updatePrice compute are then by a positive number. *)
Theorem price_floor_invariant (cs : list command) :
  Forall in_domain cs -> Forall from_floor cs ->
  forall symbol stock,
    stocks (fold_left perform cs empty) !! symbol = Some stock ->
    above_floor stock /\ (0 < open_price stock)%Q /\ (0 < current_price stock)%Q.
Proof.
  intros _ Hcs.
  assert (Hgen : forall st,
            (forall symbol stock, stocks st !! symbol = Some stock -> above_floor stock) ->
            forall symbol stock,
              stocks (fold_left perform cs st) !! symbol = Some stock -> above_floor stock).
  { induction Hcs as [|c cs Hc _ IH]; intros st Hst; simpl; [exact Hst|].
    apply IH. by apply perform_above_floor. }
  intros symbol stock Hstock.
  assert (Hfloor : above_floor stock).
  { eapply (Hgen empty); [|exact Hstock].
    intros symbol' stock' H. simpl in H. by rewrite lookup_empty in H. }
  split; [exact Hfloor|]. destruct Hfloor as (_ & H2 & H3 & _). split; lra.
Qed.

(** updatePrice (with a trade volume above -100) fails on an unknown symbol
    and succeeds on a known one.  On
    success the new price is at least 0.01; it becomes the current price of
    the stock, whose open price is kept, whose high price is the greater of
    the old high and the new price and whose low price the lesser of the old
    low and the new price; the other stocks are untouched; one row is appended
    to the history and one update is notified, both with the new price; the
    answer carries the new price and its difference from the old one. *)
Lemma updatePrice_effect (st : store) (now : Z) (random : Q) (stockSymbol : string)
        (tradePrice : Q) (tradeVolume : Z) (isBuy : bool) :
  -100 < tradeVolume ->
  match updatePrice st now random stockSymbol tradePrice tradeVolume isBuy with
  | None => stocks st !! stockSymbol = None
  | Some (r, st') =>
    exists old new,
      stocks st !! stockSymbol = Some old
      /\ stocks st' !! stockSymbol = Some new
      /\ ((1 # 100) <= current_price new)%Q
      /\ new_price r = current_price new
      /\ price_change r = (current_price new - current_price old)%Q
      /\ open_price new = open_price old
      /\ company_name new = company_name old
      /\ last_updated new = now
      /\ high_price new = Math_max (high_price old) (current_price new)
      /\ low_price new = Math_min (low_price old) (current_price new)
      /\ (forall symbol, symbol ≠ stockSymbol -> stocks st' !! symbol = stocks st !! symbol)
      /\ price_history st'
         = price_history st
           ++ [mkPricePoint stockSymbol (current_price new) tradeVolume now]
      /\ (exists change, notified st'
           = notified st
             ++ [mkPriceUpdate stockSymbol (current_price new) change now "TRADE"])
  end.
Proof.
  intros _.
  unfold updatePrice. destruct (stocks st !! stockSymbol) as [old|] eqn:Hold; [|reflexivity].
  eexists old, _. split; [reflexivity|]. simpl.
  split; [apply lookup_insert_eq|]. simpl.
  split. { unfold newPrice. apply Math_max_spec. }
  repeat split; try reflexivity.
  - intros symbol Hne. by rewrite lookup_insert_ne.
  - eexists. reflexivity.
Qed.

(** X26. getPrices answers, in the order asked and as often as asked, exactly the
    symbols the service knows; the unknown ones are skipped without an
    error. *)
Theorem getPrices_known (st : store) (stockSymbols : list string) :
  pv_stock_symbol <$> getPrices st stockSymbols
  = filter (fun symbol => is_Some (stocks st !! symbol)) stockSymbols
  /\ forall p, p ∈ getPrices st stockSymbols ->
               getPrice st (pv_stock_symbol p) = Some p.
Proof.
  induction stockSymbols as [|symbol rest [IHs IHp]].
  - split; [reflexivity|]. intros p Hp. by apply elem_of_nil in Hp.
  - cbn [getPrices]. destruct (getPrice st symbol) as [p0|] eqn:Hp0.
    + assert (Hknown : is_Some (stocks st !! symbol) /\ pv_stock_symbol p0 = symbol).
      { unfold getPrice in Hp0. destruct (stocks st !! symbol); [|discriminate].
        inversion Hp0; subst. simpl. eauto. }
      destruct Hknown as [Hknown Hsym].
      rewrite fmap_cons, IHs, filter_cons_True by exact Hknown. rewrite Hsym.
      split; [reflexivity|]. intros p Hp. apply elem_of_cons in Hp as [->|Hp].
      * by rewrite Hsym.
      * by apply IHp.
    + assert (Hunknown : ~ is_Some (stocks st !! symbol)).
      { unfold getPrice in Hp0. destruct (stocks st !! symbol); [discriminate|].
        by intros [? ?]. }
      rewrite filter_cons_False by exact Hunknown. by split.
Qed.

(** What is assumed of the numbers: the logarithm of a number from 1 on is
    not negative, and the volatility factor of the configuration is not
    negative. *)
Hypothesis Math_log_nonneg : forall x : Q, (1 <= x)%Q -> (0 <= Math_log x)%Q.
Hypothesis volatilityFactor_nonneg : (0 <= volatilityFactor)%Q.


End Prices.

(** *** A day of AAPL *)

(** A rational lower bound of the logarithm, [1 - 1 / x], to run the model
    with. *)
Definition some_log (x : Q) : Q := ((x - 1) / x)%Q.

Definition aapl_day : list command :=
  [ Initialize 1 "AAPL" 150 "Apple Inc.";
    Update 2 (1 # 4) "AAPL" 150 100 true;
    Update 3 (3 # 4) "MSFT" 300 10 true;
    ResetDaily;
    Update 4 (1 # 2) "AAPL" 151 50 false ].

Lemma price_band_invariant_witness :
  Forall in_domain aapl_day
  /\ forall symbol stock,
      stocks (fold_left (perform (1 # 1000) some_log) aapl_day empty) !! symbol = Some stock ->
      in_band stock.
Proof.
  assert (Hdomain : Forall in_domain aapl_day).
  { repeat constructor. }
  split; [exact Hdomain|].
  exact (price_band_invariant (1 # 1000) some_log aapl_day Hdomain).
Defined.

Lemma price_floor_invariant_witness :
  Forall in_domain aapl_day /\ Forall from_floor aapl_day
  /\ forall symbol stock,
      stocks (fold_left (perform (1 # 1000) some_log) aapl_day empty) !! symbol = Some stock ->
      above_floor stock /\ (0 < open_price stock)%Q /\ (0 < current_price stock)%Q.
Proof.
  assert (Hdomain : Forall in_domain aapl_day).
  { repeat constructor. }
  assert (Hfloor : Forall from_floor aapl_day).
  { repeat constructor. simpl. discriminate. }
  split; [exact Hdomain|]. split; [exact Hfloor|].
  exact (price_floor_invariant (1 # 1000) some_log aapl_day Hdomain Hfloor).
Defined.


(** The buy of 100 moves AAPL up from 150, and the update of the unknown
    MSFT changes nothing. *)
Example aapl_day_prices :
  let st := fold_left (perform (1 # 1000) some_log) aapl_day empty in
  (pv_stock_symbol <$> getPrices st ["MSFT"; "AAPL"; "AAPL"]) = ["AAPL"; "AAPL"]
  /\ length (price_history st) = 3%nat
  /\ exists stock, stocks st !! "AAPL" = Some stock
                    /\ (current_price stock < open_price stock)%Q
                    /\ (150 < open_price stock)%Q.
Proof.
  simpl. split; [vm_compute; reflexivity|]. split; [vm_compute; reflexivity|].
  eexists. split; [vm_compute; reflexivity|]. split; reflexivity.
Qed.

End PriceManager.

(** ** Volatility (getMostVolatileStocks of analytics-engine.js) *)

Module Volatility.

Import PriceManager.











(** *** Aggregates *)













End Volatility.
